(** * Seismic OBN NAV QC: the validation and aggregation pipeline

  A shallow embedding of the parts of the Python sources that merge the
  per-source tables, flag the merged table, scan it for structural
  anomalies and aggregate the findings:

  - [PXGEONavQCTools.py]: the merge loop of [_qc_worker_function] and
    [check_sp];
  - [qc_validator.py]: [QCValidator.validate_data] with its nine rules,
    [check_missing_shot_points] and the misfire part of
    [generate_line_log_report];
  - [qc_report_generator.py]: [detect_sp_sorting] and
    [calculate_percentages];
  - [line_log_manager.py]: [detect_range] and [_filter_log_data_by_range].

  Further modules follow the code these call or are called from: the
  window checks of [check_source_error_windows] and
  [check_consecutive_errors], the depth-sensor report, the dither search,
  the flag loop of [generate_line_log_report] and the texts it stores
  for the windows.

  Conventions.  Python [int] is [Z].  A pandas float is a rational [Q] or
  null ([None]): the code only compares such values, negates them and takes
  absolute values, all of which are exact on the rationals a float denotes.
  A Python exception is the [None] (or [Raise]) result of the function that
  raises it. *)

From Stdlib Require Import ZArith QArith Qabs Qround Lqa Ascii.
From stdpp Require Import gmap strings list fin_maps pretty sorting.

Local Open Scope string_scope.
Local Open Scope list_scope.
Local Open Scope Z_scope.

(** ** Python built-ins used by the sources *)

Module Py.

(** [str(n)] for an [int]. *)
Definition str (n : Z) : string := pretty n.

(** [sep.join(parts)]. *)
Fixpoint join (sep : string) (parts : list string) : string :=
  match parts with
  | [] => ""
  | [p] => p
  | p :: rest => p +:+ sep +:+ join sep rest
  end.

(** [sorted(l)] on integers: the one ascending arrangement of [l]. *)
Definition sorted (l : list Z) : list Z := merge_sort Z.le l.

(** [list(range(start, stop, 2))]: [start, start+2, ...] below [stop]. *)
Definition range_up2 (start stop : Z) : list Z :=
  (λ k, start + 2 * k) <$> seqZ 0 ((stop - start + 1) `div` 2).

(** [list(range(start, stop, -2))]: [start, start-2, ...] above [stop]. *)
Definition range_down2 (start stop : Z) : list Z :=
  (λ k, start - 2 * k) <$> seqZ 0 ((start - stop + 1) `div` 2).

(** [list(range(start, stop))]. *)
Definition range1 (start stop : Z) : list Z := seqZ start (stop - start).

Definition newline : string := String (ascii_of_nat 10) EmptyString.

(** [s.startswith(p)] *)
Definition starts_with (p s : string) : bool := String.prefix p s.

(** [needle in s] *)
Fixpoint contains (needle s : string) : bool :=
  String.prefix needle s ||
  match s with
  | EmptyString => false
  | String _ s' => contains needle s'
  end.

(** [s.endswith(suf)] *)
Fixpoint ends_with (suf s : string) : bool :=
  bool_decide (s = suf) ||
  match s with
  | EmptyString => false
  | String _ s' => ends_with suf s'
  end.

(** [s.split(sep)] for a one-character separator. *)
Fixpoint split (sep : ascii) (s : string) : list string :=
  match s with
  | EmptyString => [EmptyString]
  | String c s' =>
      if decide (c = sep) then EmptyString :: split sep s'
      else match split sep s' with
           | [] => [String c EmptyString]
           | p :: ps => String c p :: ps
           end
  end.

(** [s.replace(a, b)] for one-character [a] and [b]. *)
Fixpoint replace (a b : ascii) (s : string) : string :=
  match s with
  | EmptyString => EmptyString
  | String c s' => String (if decide (c = a) then b else c) (replace a b s')
  end.

(** Removes the prefix [p] from [s], if it is there. *)
Fixpoint strip_prefix (p s : string) : option string :=
  match p, s with
  | EmptyString, _ => Some s
  | String a p', String b s' =>
      if decide (a = b) then strip_prefix p' s' else None
  | String _ _, EmptyString => None
  end.

(** ASCII white space, as [str.strip], [str.split] and [int] see it. *)
Definition is_space (c : ascii) : bool :=
  let n := nat_of_ascii c in
  ((9 <=? n)%nat && (n <=? 13)%nat) || ((28 <=? n)%nat && (n <=? 32)%nat).

Definition is_digit (c : ascii) : bool :=
  let n := nat_of_ascii c in (48 <=? n)%nat && (n <=? 57)%nat.

Definition digit_value (c : ascii) : Z := Z.of_nat (nat_of_ascii c) - 48.

Fixpoint all_digits (s : string) : bool :=
  match s with
  | EmptyString => true
  | String c s' => is_digit c && all_digits s'
  end.

(** A non-empty run of decimal digits: what [\d+] matches. *)
Definition decimal (s : string) : Prop :=
  s ≠ EmptyString ∧ all_digits s = true.

(** [ch not in s] *)
Fixpoint free_of (ch : ascii) (s : string) : bool :=
  match s with
  | EmptyString => true
  | String c s' => negb (bool_decide (c = ch)) && free_of ch s'
  end.

(** [s[-1]], if [s] is not empty. *)
Fixpoint last_char (s : string) : option ascii :=
  match s with
  | EmptyString => None
  | String c EmptyString => Some c
  | String _ s' => last_char s'
  end.

(** The longest run of decimal digits at the head of [s], and the rest:
    how the greedy [\d+] of a pattern reads [s]. *)
Fixpoint span_digits (s : string) : string * string :=
  match s with
  | EmptyString => (EmptyString, EmptyString)
  | String c s' =>
      if is_digit c
      then let '(d, r) := span_digits s' in (String c d, r)
      else (EmptyString, s)
  end.

Fixpoint lstrip (s : string) : string :=
  match s with
  | String c s' => if is_space c then lstrip s' else s
  | EmptyString => EmptyString
  end.

(** [s.strip()] *)
Definition strip (s : string) : string :=
  String.rev (lstrip (String.rev (lstrip s))).

Fixpoint words_go (cur : option string) (s : string) : list string :=
  match s with
  | EmptyString => option_list (String.rev <$> cur)
  | String c s' =>
      if is_space c
      then option_list (String.rev <$> cur) ++ words_go None s'
      else words_go (Some (String c (default EmptyString cur))) s'
  end.

(** [s.split()]: the words between runs of white space. *)
Definition words (s : string) : list string := words_go None s.

(** The digits of an integer literal, single underscores allowed between
    digits. *)
Fixpoint digits_value (acc : Z) (s : string) : option Z :=
  match s with
  | EmptyString => Some acc
  | String c s' =>
      if is_digit c then digits_value (10 * acc + digit_value c) s'
      else if decide (c = "_"%char) then
        match s' with
        | String d _ => if is_digit d then digits_value acc s' else None
        | EmptyString => None
        end
      else None
  end.

Definition unsigned_value (s : string) : option Z :=
  match s with
  | String c _ => if is_digit c then digits_value 0 s else None
  | EmptyString => None
  end.

(** [int(s)] for a string of ASCII characters; [None] is ValueError. *)
Definition int_of_string (s : string) : option Z :=
  match strip s with
  | String "-" rest => Z.opp <$> unsigned_value rest
  | String "+" rest => unsigned_value rest
  | t => unsigned_value t
  end.

Fixpoint zeros (n : nat) : string :=
  match n with
  | O => EmptyString
  | S n' => String "0" (zeros n')
  end.

(** [s.zfill(width)] *)
Definition zfill (width : nat) (s : string) : string :=
  let pad := zeros (width - String.length s) in
  match s with
  | String "-" rest => String "-" (pad +:+ rest)
  | String "+" rest => String "+" (pad +:+ rest)
  | _ => pad +:+ s
  end.


(** The adjacent pairs [(l[i], l[i+1])] for [i in range(len(l) - 1)]. *)
Fixpoint adjacent (l : list Z) : list (Z * Z) :=
  match l with
  | a :: (b :: _) as tl => (a, b) :: adjacent tl
  | _ => []
  end.

End Py.

(** ** The pandas DataFrame, as far as the sources use it *)

Module Frame.

(** One cell of a column.  [CNull] is NaN/None/NA, [CInt] a Python or
    numpy integer, [CNum] a float, [CStr] a string. *)
Inductive cell :=
| CNull
| CInt (n : Z)
| CNum (q : Q)
| CStr (s : string).

(** A Series: the cells of one column, in index order. *)
Abbreviation Series := (list cell).

(** A DataFrame: its length [len(df)] and its columns in the order of
    [df.columns].  Every column of a real frame has [nrows] cells
    ([well_formed]). *)
Record DataFrame := mkDataFrame {
  nrows : nat;
  columns : list (string * Series)
}.

Definition well_formed (df : DataFrame) : Prop :=
  Forall (λ c, length c.2 = nrows df) (columns df).

(** [df.columns] *)
Definition names (df : DataFrame) : list string := (columns df).*1.

(** [name in df.columns] *)
Definition has_column (df : DataFrame) (name : string) : bool :=
  bool_decide (name ∈ names df).

Fixpoint assoc_get (name : string) (cols : list (string * Series))
  : option Series :=
  match cols with
  | [] => None
  | (n, s) :: rest => if decide (n = name) then Some s else assoc_get name rest
  end.

(** [df[name]]; [None] is the KeyError of a missing column. *)
Definition get (df : DataFrame) (name : string) : option Series :=
  assoc_get name (columns df).

Fixpoint assoc_set (name : string) (s : Series) (cols : list (string * Series))
  : list (string * Series) :=
  match cols with
  | [] => [(name, s)]
  | (n, old) :: rest =>
      if decide (n = name) then (n, s) :: rest
      else (n, old) :: assoc_set name s rest
  end.

(** [df[name] = s]: overwrite the column in place or append a new one. *)
Definition set_column (name : string) (s : Series) (df : DataFrame)
  : DataFrame :=
  mkDataFrame (nrows df) (assoc_set name s (columns df)).

(** [df[name] = v] for a scalar integer [v]. *)
Definition set_scalar (name : string) (v : Z) (df : DataFrame) : DataFrame :=
  set_column name (replicate (nrows df) (CInt v)) df.

(** The number a cell denotes in a numeric operation: [Some None] is NaN,
    the outer [None] is the TypeError numpy raises on a string. *)
Definition num_of (c : cell) : option (option Q) :=
  match c with
  | CNull => Some None
  | CInt n => Some (Some (inject_Z n))
  | CNum q => Some (Some q)
  | CStr _ => None
  end.

(** [pd.notna(c)] *)
Definition notna (c : cell) : bool :=
  match c with CNull => false | _ => true end.

(** A boolean Series computed cell by cell from a numeric column. *)
Definition mask_of (p : option Q → bool) (s : Series) : option (list bool) :=
  mapM (λ c, p <$> num_of c) s.

(** [.fillna(0)] on one value. *)
Definition fillna0 (o : option Q) : Q := default 0%Q o.

Definition Qlt_bool (x y : Q) : bool := negb (Qle_bool y x).

(** [mask1 | mask2], [mask1 & mask2], [~mask] *)
Definition mask_or (m1 m2 : list bool) : list bool := zip_with orb m1 m2.
Definition mask_and (m1 m2 : list bool) : list bool := zip_with andb m1 m2.
Definition mask_not (m : list bool) : list bool := negb <$> m.

(** [df.loc[mask, name] = rhs] on the cells of the column: where the mask
    holds the cell takes the value of [rhs] at the same index. *)
Fixpoint assign (mask : list bool) (rhs old : Series) {struct old}
  : Series :=
  match old with
  | [] => []
  | o :: os =>
      match mask, rhs with
      | m :: ms, r :: rs => (if m then r else o) :: assign ms rs os
      | _, _ => old
      end
  end.

(** [df.loc[mask, name] = rhs].  Setting a column that does not exist yet
    creates it, null where the mask is false. *)
Definition loc_assign (mask : list bool) (name : string) (rhs : Series)
    (df : DataFrame) : DataFrame :=
  let old := default (replicate (nrows df) CNull) (get df name) in
  set_column name (assign mask rhs old) df.

(** [df.loc[mask, name] = v] for a scalar integer [v]. *)
Definition loc_set (mask : list bool) (name : string) (v : Z)
    (df : DataFrame) : DataFrame :=
  loc_assign mask name (replicate (nrows df) (CInt v)) df.

(** A left fold whose step may raise. *)
Fixpoint foldM {A B : Type} (f : A → B → option A) (a : A) (l : list B)
  : option A :=
  match l with
  | [] => Some a
  | b :: rest => a' ← f a b; foldM f a' rest
  end.

End Frame.

(** ** qc_validator.py *)

Module Validator.
Import Py Frame.

(** The [QCThresholds] dataclass. *)
Record QCThresholds := mkQCThresholds {
  sti_warning_lower : Q;
  sti_warning_upper : Q;
  sti_error : Q;
  sub_array_sep_min : Q;
  sub_array_sep_max : Q;
  sub_array_sep_percent_threshold : Q;
  sub_array_sep_avg_min : Q;
  sub_array_sep_avg_max : Q;
  dual_cos_min : Q;
  dual_cos_max : Q;
  triple_cos_min : Q;
  triple_cos_max : Q;
  volume_nominal : Q;
  gun_depth_min : Q;
  gun_depth_max : Q;
  gun_depth_nominal : Q;
  gun_depth_sensor_min : Q;
  gun_depth_sensor_max : Q;
  gun_depth_nominal_tolerance : Q;
  gun_depth_avg_tolerance : Q;
  gun_pressure_min : Q;
  gun_pressure_max : Q;
  gun_pressure_nominal : Q;
  timing_warning : Q;
  timing_error : Q;
  crossline_limit : Q;
  radial_limit : Q;
  sma_limit : Q;
  shot_increment : Z;
  consecutive_error_limit : Z;
  consec_error_window_7 : Z;
  consec_error_window_24 : Z;
  consec_error_threshold_12_of_24 : Z;
  consec_error_window_40 : Z;
  consec_error_threshold_16_of_40 : Z;
  consec_error_percent_total : Q
}.

(** The fallback values of [_load_thresholds]. *)
Definition default_thresholds : QCThresholds :=
  mkQCThresholds (625#100) 10 6 (68#10) (92#10) 15 (72#10) (88#10)
    (3375#100) (4125#100) (3375#100) (4125#100)
    3040 (-8) (-6) (-7) (-75#10) (-65#10) 1 (5#10)
    1900 2100 2000
    1 (15#10)
    10 10 3 2 25
    7 24 12 40 16 3.

Definition flag_columns : list string :=
  [ "sti_flag"; "sub_array_sep_flag"; "cos_sep_flag"; "volume_flag";
    "gun_depth_flag"; "gun_pressure_flag"; "gun_timing_flag";
    "repeatability_flag"; "sma_flag" ].

(** [(s.fillna(0) < lo) | (s.fillna(0) > hi)] on one value. *)
Definition outside (lo hi : Q) (o : option Q) : bool :=
  Qlt_bool (fillna0 o) lo || Qlt_bool hi (fillna0 o).

(** [df.loc[(df[col].fillna(0) < lo) | (df[col].fillna(0) > hi), flag] = 2] *)
Definition flag_outside (lo hi : Q) (flag : string) (df : DataFrame)
    (col : string) : option DataFrame :=
  s ← get df col;
  mask ← mask_of (outside lo hi) s;
  Some (loc_set mask flag 2 df).

Definition sti_col : string := "Shot Time (s)  sec".

Definition validate_sti (th : QCThresholds) (df : DataFrame)
  : option DataFrame :=
  match get df sti_col with
  | None => Some df
  | Some s =>
      mask ← mask_of (λ o, Qlt_bool (fillna0 o) (sti_error th)) s;
      Some (loc_set mask "sti_flag" 2 df)
  end.

Definition separation_columns : list string :=
  [ "SOURCE SSTG1 towed by SST String 1 - 2 Crossline Separation All Shots ";
    "SOURCE SSTG2 towed by SST String 1 - 2 Crossline Separation All Shots ";
    "SOURCE SSTG3 towed by SST String 1 - 2 Crossline Separation All Shots " ].

(** Check 1 of the source; checks 2 and 3 only write to the log. *)
Definition validate_sub_array_separation (th : QCThresholds)
    (df : DataFrame) : option DataFrame :=
  let existing_sep_cols := filter (λ c, c ∈ names df) separation_columns in
  match existing_sep_cols with
  | [] => Some df
  | _ =>
      foldM (flag_outside (sub_array_sep_min th) (sub_array_sep_max th)
               "sub_array_sep_flag") df existing_sep_cols
  end.

Definition cos_dual : string := "Gunarray301-Gunarray302 Position m".
Definition cos_triple : list string :=
  [ "Gunarray301-Gunarray302 Position m";
    "Gunarray302-Gunarray303 Position m" ].

Definition validate_cos_separation (th : QCThresholds) (df : DataFrame)
  : option DataFrame :=
  if has_column df cos_dual
  then flag_outside (dual_cos_min th) (dual_cos_max th) "cos_sep_flag"
         df cos_dual
  else
    let triple_cols := filter (λ c, c ∈ names df) cos_triple in
    foldM (flag_outside (triple_cos_min th) (triple_cos_max th)
             "cos_sep_flag") df triple_cols.

(** The gun-timing columns as [validate_volume] and
    [generate_line_log_report] select them. *)
Definition report_timing_col (col : string) : bool :=
  starts_with "String" col && contains "Cluster" col && contains "Gun" col
  && negb (ends_with "-Depth" col) && negb (ends_with "-Pressure" col).

Definition validate_volume (th : QCThresholds) (df : DataFrame)
  : option DataFrame :=
  match get df "VOLUME" with
  | None => Some df
  | Some volume =>
      let timing_cols := filter (λ c, report_timing_col c) (names df) in
      misfire_mask ←
        foldM (λ acc col,
                 s ← get df col;
                 m ← mask_of (λ o, Qeq_bool (Qabs (fillna0 o)) 90) s;
                 Some (mask_or acc m))
              (replicate (nrows df) false) timing_cols;
      differs ←
        mask_of (λ o, negb (Qeq_bool (fillna0 o) (volume_nominal th))) volume;
      let volume_condition := mask_and differs (mask_not misfire_mask) in
      Some (loc_set volume_condition "volume_flag" 2 df)
  end.

Definition is_gun_depth_col (col : string) : bool :=
  starts_with "SSTGM1" col && contains "DPT (P) Shot Event m" col.

Definition Qsum (l : list Q) : Q := foldr Qplus 0%Q l.

(** The mean of one row over the chosen columns, nulls skipped. *)
Definition row_mean (cells : list cell) : option cell :=
  nums ← mapM num_of cells;
  let vals := omap id nums in
  match vals with
  | [] => Some CNull
  | _ => Some (CNum (Qsum vals / inject_Z (Z.of_nat (length vals))))
  end.

Definition row_cells (ss : list Series) (i : nat) : list cell :=
  (λ s, default CNull (s !! i)) <$> ss.

(** [df[cols].mean(axis=1)] *)
Definition mean_axis1 (ss : list Series) (n : nat) : option Series :=
  mapM (λ i, row_mean (row_cells ss i)) (seq 0 n).

Definition validate_gun_depth (th : QCThresholds) (df : DataFrame)
  : option DataFrame :=
  let gun_depth_cols := filter (λ c, is_gun_depth_col c) (names df) in
  match gun_depth_cols with
  | [] => Some df
  | _ =>
      ss ← mapM (get df) gun_depth_cols;
      avg ← mean_axis1 ss (nrows df);
      let df1 := set_column "average_gun_depth" avg df in
      mask ← mask_of (outside (gun_depth_min th) (gun_depth_max th)) avg;
      Some (loc_set mask "gun_depth_flag" 2 df1)
  end.

Definition point_code_pressure_mapping : list (string * list string) :=
  [ ("A1", ["SSTGM1P1_PRS (P) Shot Event  "; "SSTGM1P2_PRS (P) Shot Event  "]);
    ("A2", ["SSTGM1P3_PRS (P) Shot Event  "; "SSTGM1P4_PRS (P) Shot Event  "]);
    ("A3", ["SSTGM1P5_PRS (P) Shot Event  "; "SSTGM1P6_PRS (P) Shot Event  "]) ].

Definition is_pressure_col (col : string) : bool :=
  starts_with "SSTGM1" col && contains "PRS (P) Shot Event" col.

(** [df['point_code'] == point_code] *)
Definition point_code_rows (point_code : string) (s : Series) : list bool :=
  (λ c, match c with CStr t => bool_decide (t = point_code) | _ => false end)
    <$> s.

Definition pressure_for_code (th : QCThresholds) (df : DataFrame)
    (entry : string * list string) : option DataFrame :=
  pcs ← get df "point_code";
  let rows := point_code_rows entry.1 pcs in
  if existsb id rows then
    let existing_cols := filter (λ c, c ∈ names df) entry.2 in
    foldM (λ df col,
             s ← get df col;
             m ← mask_of (outside (gun_pressure_min th) (gun_pressure_max th)) s;
             Some (loc_set (mask_and rows m) "gun_pressure_flag" 2 df))
          df existing_cols
  else Some df.

Definition validate_gun_pressure (th : QCThresholds) (df : DataFrame)
  : option DataFrame :=
  if has_column df "point_code"
  then foldM (pressure_for_code th) df point_code_pressure_mapping
  else
    let pressure_cols := filter (λ c, is_pressure_col c) (names df) in
    foldM (flag_outside (gun_pressure_min th) (gun_pressure_max th)
             "gun_pressure_flag") df pressure_cols.

(** [re.match(r'^String_\d+-Cluster_\d+-Gun_\d+$', col)] on ASCII names.
    [$] also matches just before a final newline. *)
Definition matches_base_pattern (col : string) : bool :=
  match strip_prefix "String_" col with
  | None => false
  | Some r1 =>
      let '(d1, r2) := span_digits r1 in
      match strip_prefix "-Cluster_" r2 with
      | None => false
      | Some r3 =>
          let '(d2, r4) := span_digits r3 in
          match strip_prefix "-Gun_" r4 with
          | None => false
          | Some r5 =>
              let '(d3, r6) := span_digits r5 in
              negb (bool_decide (d1 = "")) && negb (bool_decide (d2 = ""))
              && negb (bool_decide (d3 = ""))
              && (bool_decide (r6 = "") || bool_decide (r6 = newline))
          end
      end
  end.

Definition is_timing_col (col : string) : bool :=
  matches_base_pattern col
  && negb (ends_with "-Depth" col) && negb (ends_with "-Pressure" col).

(** [(v != 63) & (v != 61) & (v != 90) & ((v < -limit) | (v > limit))] on
    one value; every comparison with NaN but [!=] is false. *)
Definition timing_mask (limit : Q) (o : option Q) : bool :=
  match o with
  | None => false
  | Some v =>
      negb (Qeq_bool v 63) && negb (Qeq_bool v 61) && negb (Qeq_bool v 90)
      && (Qlt_bool v (- limit) || Qlt_bool limit v)
  end.

(** [np.maximum(x, 1)] on one cell. *)
Definition maximum1 (c : cell) : option cell :=
  match c with
  | CNull => Some CNull
  | CInt n => Some (CInt (Z.max n 1))
  | CNum q => Some (CNum (if Qle_bool q 1 then 1%Q else q))
  | CStr _ => None
  end.

(** The first statement of the body of [for col in timing_cols], the
    warning-tier write:
    [df.loc[mask, 'gun_timing_flag'] = np.maximum(df['gun_timing_flag'], 1)] *)
Definition warning_write (th : QCThresholds) (df : DataFrame)
    (col : string) : option DataFrame :=
  current ← get df "gun_timing_flag";
  raised ← mapM maximum1 current;
  s ← get df col;
  mask ← mask_of (timing_mask (timing_warning th)) s;
  Some (loc_assign mask "gun_timing_flag" raised df).

(** The second statement, the error-tier write:
    [df.loc[mask, 'gun_timing_flag'] = 2] *)
Definition error_write (th : QCThresholds) (df : DataFrame)
    (col : string) : option DataFrame :=
  s ← get df col;
  mask ← mask_of (timing_mask (timing_error th)) s;
  Some (loc_set mask "gun_timing_flag" 2 df).

Definition timing_column_step (th : QCThresholds) (df : DataFrame)
    (col : string) : option DataFrame :=
  df1 ← warning_write th df col;
  error_write th df1 col.

Definition validate_gun_timing (th : QCThresholds) (df : DataFrame)
  : option DataFrame :=
  let timing_cols := filter (λ c, is_timing_col c) (names df) in
  match timing_cols with
  | [] => Some df
  | _ => foldM (timing_column_step th) df timing_cols
  end.

Definition radial_col : string := "Radial (m)".

Definition validate_radial (th : QCThresholds) (df : DataFrame)
  : option DataFrame :=
  match get df radial_col with
  | None => Some df
  | Some s =>
      mask ← mask_of (outside (- radial_limit th) (radial_limit th)) s;
      Some (loc_set mask "repeatability_flag" 1 df)
  end.

Definition is_sma_col (col : string) : bool :=
  contains "Gunarray" col && contains "SMA m" col.

Definition validate_sma (th : QCThresholds) (df : DataFrame)
  : option DataFrame :=
  let sma_cols := filter (λ c, is_sma_col c) (names df) in
  match sma_cols with
  | [] => Some df
  | _ =>
      foldM (λ df col,
               s ← get df col;
               mask ← mask_of (λ o, Qlt_bool (sma_limit th) (fillna0 o)) s;
               Some (loc_set mask "sma_flag" 2 df))
            df sma_cols
  end.

(** [int(x)]: truncation towards zero. *)
Definition Qtrunc (q : Q) : Z :=
  if Qle_bool 0 q then Qfloor q else Qceiling q.

(** One cell under [.astype(int)].  A null cannot be converted.  (A string
    would be parsed; the rules never write one to a flag column.) *)
Definition to_int (c : cell) : option cell :=
  match c with
  | CInt n => Some (CInt n)
  | CNum q => Some (CInt (Qtrunc q))
  | CNull => None
  | CStr _ => None
  end.

(** [df[col] = df[col].astype(int)] *)
Definition astype_int (df : DataFrame) (col : string) : option DataFrame :=
  s ← get df col;
  s' ← mapM to_int s;
  Some (set_column col s' df).

(** [df[col].sum()] of an integer column. *)
Definition int_sum (s : Series) : Z :=
  foldr (λ c acc, match c with CInt n => n + acc | _ => acc end) 0 s.

(** The "Log flagged records" loop: it reads [flagged['shot_point']] for
    every flag column whose sum is positive. *)
Definition log_flagged (df : DataFrame) : option unit :=
  foldM (λ _ flag_col,
           s ← get df flag_col;
           if 0 <? int_sum s
           then _ ← get df "shot_point"; Some ()
           else Some ())
        () flag_columns.

Definition validate_data (th : QCThresholds) (df : DataFrame)
  : option DataFrame :=
  let df := foldl (λ df col, set_scalar col 0 df) df flag_columns in
  df ← validate_sti th df;
  df ← validate_sub_array_separation th df;
  df ← validate_cos_separation th df;
  df ← validate_volume th df;
  df ← validate_gun_depth th df;
  df ← validate_gun_pressure th df;
  df ← validate_gun_timing th df;
  df ← validate_radial th df;
  df ← validate_sma th df;
  df ← foldM astype_int df flag_columns;
  _ ← log_flagged df;
  Some df.

(** *** The rules as a family *)

(** The nine rules, in the order [validate_data] runs them. *)
Inductive rule :=
| STI | SubArraySeparation | CosSeparation | Volume | GunDepth
| GunPressure | GunTiming | Radial | SMA.

Definition all_rules : list rule :=
  [ STI; SubArraySeparation; CosSeparation; Volume; GunDepth;
    GunPressure; GunTiming; Radial; SMA ].

Definition flag_of (r : rule) : string :=
  match r with
  | STI => "sti_flag"
  | SubArraySeparation => "sub_array_sep_flag"
  | CosSeparation => "cos_sep_flag"
  | Volume => "volume_flag"
  | GunDepth => "gun_depth_flag"
  | GunPressure => "gun_pressure_flag"
  | GunTiming => "gun_timing_flag"
  | Radial => "repeatability_flag"
  | SMA => "sma_flag"
  end.

Definition run (r : rule) : QCThresholds → DataFrame → option DataFrame :=
  match r with
  | STI => validate_sti
  | SubArraySeparation => validate_sub_array_separation
  | CosSeparation => validate_cos_separation
  | Volume => validate_volume
  | GunDepth => validate_gun_depth
  | GunPressure => validate_gun_pressure
  | GunTiming => validate_gun_timing
  | Radial => validate_radial
  | SMA => validate_sma
  end.

(** The physical columns a rule expects: with none of them in the frame
    the rule has nothing to check. *)
Definition expects (r : rule) (col : string) : bool :=
  match r with
  | STI => bool_decide (col = sti_col)
  | SubArraySeparation => bool_decide (col ∈ separation_columns)
  | CosSeparation => bool_decide (col ∈ cos_triple)
  | Volume => bool_decide (col = "VOLUME")
  | GunDepth => is_gun_depth_col col
  | GunPressure => is_pressure_col col
  | GunTiming => is_timing_col col
  | Radial => bool_decide (col = radial_col)
  | SMA => is_sma_col col
  end.

Definition absent (r : rule) (df : DataFrame) : Prop :=
  ∀ col, col ∈ names df → expects r col = false.

(** The columns that some rule reads as numbers: the expected columns of
    the rules and the gun-timing columns [validate_volume] looks at. *)
Definition measured (col : string) : bool :=
  existsb (λ r, expects r col) all_rules || report_timing_col col.

(** A column without strings: numbers and nulls only. *)
Definition numeric (s : Series) : Prop :=
  Forall (λ c, is_Some (num_of c)) s.

(** Every measured column of the frame is numeric. *)
Definition measurements_numeric (df : DataFrame) : Prop :=
  ∀ col s, get df col = Some s → measured col = true → numeric s.

(** The flag column [f] of [df] holds [n] integers, each 0, 1 or 2. *)
Definition flag_ok (n : nat) (df : DataFrame) (f : string) : Prop :=
  ∃ vals : list Z,
    get df f = Some (CInt <$> vals) ∧ length vals = n
    ∧ Forall (λ z, 0 ≤ z ≤ 2) vals.

(** [df'] differs from [df] at most in the flag column [f] and in the
    derived column [average_gun_depth], and [f] is still a flag column. *)
Definition touches (f : string) (df df' : DataFrame) : Prop :=
  nrows df' = nrows df
  ∧ (∀ col, col ≠ f → col ≠ "average_gun_depth" →
            get df' col = get df col)
  ∧ (∀ col, col ∈ names df' →
            col ∈ names df ∨ col = f ∨ col = "average_gun_depth")
  ∧ (flag_ok (nrows df) df f → flag_ok (nrows df) df' f).

(** What holds of the frame [d] that [validate_data] has between two
    rules, when it started from [df]. *)
Definition between_rules (df d : DataFrame) : Prop :=
  nrows d = nrows df
  ∧ (∀ f, f ∈ flag_columns → flag_ok (nrows df) d f)
  ∧ (∀ col, col ∉ flag_columns → col ≠ "average_gun_depth" →
            get d col = get df col)
  ∧ (∀ col, col ∈ names d →
            col ∈ names df ∨ col ∈ flag_columns
            ∨ col = "average_gun_depth").

(** The value of the flag [flag] in row [i]. *)
Definition flag_at (df : DataFrame) (flag : string) (i : nat) : option cell :=
  get df flag ≫= (.!! i).

(** [check_missing_shot_points], on [df['shot_point'].tolist()] for a
    column of integers without nulls; [None] is a frame without the
    column. *)
Definition check_missing_shot_points (shot_point : option (list Z))
  : list Z :=
  match shot_point with
  | None => []
  | Some l =>
      mjoin ((λ p, if 1 <? p.2 - p.1 then range1 (p.1 + 1) p.2 else [])
               <$> adjacent (sorted l))
  end.

(** *** The misfire and disabled-gun entries of [generate_line_log_report] *)

(** The gun identifier built from the hyphen-separated parts of a column
    name; [None] when there are fewer than three parts. *)
Definition gun_info (col : string) : option string :=
  match split "-" col with
  | p0 :: p1 :: p2 :: _ =>
      Some (replace "_" " " p0 +:+ " " +:+ replace "_" " " p1 +:+ " "
            +:+ replace "_" " " p2)
  | _ => None
  end.

(** The column [String_<a>-Cluster_<b>-Gun_<c>]. *)
Definition gun_column (a b c : string) : string :=
  "String_" +:+ a +:+ "-Cluster_" +:+ b +:+ "-Gun_" +:+ c.

(** [abs(row[col]) if pd.notna(row[col]) else 0] *)
Definition timing_value (c : cell) : option Q :=
  o ← num_of c; Some (Qabs (fillna0 o)).

(** Equality of two shot-point cells, as [==] on the values they hold. *)
Definition cell_eqb (a b : cell) : bool :=
  match a, b with
  | CNull, CNull => true
  | CStr s, CStr t => bool_decide (s = t)
  | CStr _, _ | _, CStr _ | CNull, _ | _, CNull => false
  | _, _ =>
      match num_of a, num_of b with
      | Some (Some x), Some (Some y) => Qeq_bool x y
      | _, _ => false
      end
  end.

Definition entry : Type := cell * list string.

Definition entry_eqb (e1 e2 : entry) : bool :=
  cell_eqb e1.1 e2.1 && bool_decide (e1.2 = e2.2).

(** [if entry not in log: log.append(entry)] *)
Definition append_new (e : entry) (log : list entry) : list entry :=
  if existsb (entry_eqb e) log then log else log ++ [e].

(** Row [i] of [df] has the misfire code in column [col]. *)
Definition misfire_at (df : DataFrame) (col : string) (i : nat) : Prop :=
  ∃ s c v, get df col = Some s ∧ s !! i = Some c
           ∧ timing_value c = Some v ∧ Qeq_bool v 90 = true.

(** The inner [for col in timing_cols] of one row: the guns that misfired
    (code 90) and the guns that were disabled (code 61). *)
Definition row_guns (df : DataFrame) (timing_cols : list string) (i : nat)
  : option (list string * list string) :=
  foldM (λ acc col,
           s ← get df col;
           c ← s !! i;
           v ← timing_value c;
           if Qeq_bool v 90
           then Some (acc.1 ++ option_list (gun_info col), acc.2)
           else if Qeq_bool v 61
           then Some (acc.1, acc.2 ++ option_list (gun_info col))
           else Some acc)
        ([], []) timing_cols.

(** The [for index, row in df.iterrows()] loop over all rows: the values of
    [log_misfire_flag] and [log_gun_disabled_flag]. *)
Definition misfire_and_disabled (df : DataFrame)
  : option (list entry * list entry) :=
  let timing_cols := filter (λ c, report_timing_col c) (names df) in
  foldM (λ logs i,
           guns ← row_guns df timing_cols i;
           misfire ←
             match guns.1 with
             | [] => Some logs.1
             | _ => sp ← get df "shot_point" ≫= (.!! i);
                    Some (append_new (sp, guns.1) logs.1)
             end;
           disabled ←
             match guns.2 with
             | [] => Some logs.2
             | _ => sp ← get df "shot_point" ≫= (.!! i);
                    Some (append_new (sp, guns.2) logs.2)
             end;
           Some (misfire, disabled))
        ([], []) (seq 0 (nrows df)).

(** *** Example frame *)

(** One shot point with the misfire code on gun 1 and a timing of 0.5 on
    gun 2. *)
Definition misfire_row : DataFrame :=
  mkDataFrame 1
    [ ("shot_point", [CInt 1001]);
      ("String_1-Cluster_1-Gun_1", [CNum 90]);
      ("String_1-Cluster_1-Gun_2", [CNum (5 # 10)]) ].

(** A frame in the middle of [validate_gun_timing]: gun 1 has set the
    flag to 2, gun 2 (a warning-level reading) is still to come. *)
Definition after_first_gun : DataFrame :=
  mkDataFrame 1
    [ ("shot_point", [CInt 1001]);
      ("String_1-Cluster_1-Gun_1", [CNum 2]);
      ("String_1-Cluster_1-Gun_2", [CNum (12 # 10)]);
      ("gun_timing_flag", [CInt 2]) ].

End Validator.

(** ** qc_report_generator.py *)

Module Report.
Import Frame.

(** [.dropna()] *)
Definition dropna (s : Series) : Series :=
  filter (λ c, notna c) s.

(** [shot_points.iloc[i + 1] - shot_points.iloc[i]] for consecutive
    points. *)
Fixpoint deltas (l : list Q) : list Q :=
  match l with
  | a :: (b :: _) as tl => (b - a)%Q :: deltas tl
  | _ => []
  end.

Definition Qnonzero (d : Q) : bool := negb (Qeq_bool d 0).
Definition Qpositive (d : Q) : bool := Qlt_bool 0 d.
Definition Qnegative (d : Q) : bool := Qlt_bool d 0.

(** [min(l)] of a list of numbers, [d] for the empty list. *)
Definition Qminimum (d : Q) (l : list Q) : Q :=
  match l with
  | [] => d
  | x :: rest => foldl (λ m y, if Qlt_bool y m then y else m) x rest
  end.

(** [str(int(x))] *)
Definition int_text (x : Q) : string := Py.str (Validator.Qtrunc x).

(** The scan loop of [detect_sp_sorting] over the pairs
    [(current_sp, next_sp)], with its variables [issues] and [seen_sps]. *)
Fixpoint scan (ascending : bool) (max_allowed_gap : Q) (l : list Q)
    (seen_sps : list Q) (issues : list string) : list string :=
  match l with
  | current_sp :: (next_sp :: _) as tl =>
      if Qeq_bool next_sp current_sp then
        if existsb (Qeq_bool current_sp) seen_sps
        then scan ascending max_allowed_gap tl seen_sps issues
        else scan ascending max_allowed_gap tl (current_sp :: seen_sps)
               (issues ++ ["Duplicate SP " +:+ int_text current_sp
                           +:+ " detected"])
      else if ascending then
        if Qlt_bool next_sp current_sp then
          scan ascending max_allowed_gap tl seen_sps
            (issues ++ ["SP " +:+ int_text next_sp +:+ " appears after SP "
                        +:+ int_text current_sp +:+ " (should be ascending)"])
        else if Qlt_bool max_allowed_gap (next_sp - current_sp) then
          scan ascending max_allowed_gap tl seen_sps
            (issues ++ ["Large gap detected: SP " +:+ int_text current_sp
                        +:+ " to " +:+ int_text next_sp +:+ " (gap: "
                        +:+ int_text (next_sp - current_sp) +:+ ")"])
        else scan ascending max_allowed_gap tl seen_sps issues
      else
        if Qlt_bool current_sp next_sp then
          scan ascending max_allowed_gap tl seen_sps
            (issues ++ ["SP " +:+ int_text next_sp +:+ " appears after SP "
                        +:+ int_text current_sp +:+ " (should be descending)"])
        else if Qlt_bool max_allowed_gap (current_sp - next_sp) then
          scan ascending max_allowed_gap tl seen_sps
            (issues ++ ["Large gap detected: SP " +:+ int_text current_sp
                        +:+ " to " +:+ int_text next_sp +:+ " (gap: "
                        +:+ int_text (current_sp - next_sp) +:+ ")"])
        else scan ascending max_allowed_gap tl seen_sps issues
  | _ => issues
  end.

(** [detect_sp_sorting(df)].  The three early exits of the source come
    first and look at no cell value; past them the shot points are used
    as numbers, and a string among them is the TypeError of the arithmetic
    that meets it. *)
Definition detect_sp_sorting (df : DataFrame) : option (list string) :=
  if has_column df "shot_point" && bool_decide (2 < nrows df)%nat then
    col ← get df "shot_point";
    let shot_points := dropna col in
    if bool_decide (length shot_points < 3)%nat then Some []
    else
      sps ← mapM (λ c, num_of c ≫= id) shot_points;
      let differences := filter (λ d, Qnonzero d) (deltas (take 6 sps)) in
      match differences with
      | [] => Some []
      | _ =>
          let ascending :=
            bool_decide
              (length (filter (λ d, Qnegative d) differences)
               ≤ length (filter (λ d, Qpositive d) differences))%nat in
          let abs_differences :=
            Qabs <$> filter (λ d, Qnonzero d) differences in
          let max_allowed_gap :=
            match abs_differences with
            | [] => 6%Q
            | _ => (Qminimum 0 abs_differences * 3)%Q
            end in
          Some (scan ascending max_allowed_gap sps [] [])
      end
  else Some [].

(** One entry of the dictionary [calculate_percentages] returns.  A
    percentage is [None] when the division is by zero (numpy then yields
    nan or inf and does not raise). *)
Record stats := mkStats {
  total : option Q;
  errors : option Q;
  warnings : option Q;
  total_count : Q;
  error_count : Q;
  warning_count : Q
}.

Record percentages := mkPercentages {
  per_flag : gmap string stats;
  percent_radial : option Q;
  percent_gd_errors : option Q;
  overall : stats
}.

(** [(count / total_sp) * 100] *)
Definition percent (count : Q) (total_sp : Z) : option Q :=
  if decide (total_sp = 0) then None
  else Some (count / inject_Z total_sp * 100)%Q.

(** [mask.sum()] *)
Definition count_true (mask : list bool) : Q :=
  inject_Z (Z.of_nat (length (filter (λ b, b = true) mask))).

(** [s[mask]] *)
Fixpoint select (mask : list bool) (s : Series) : Series :=
  match mask, s with
  | m :: ms, c :: cs => if m then c :: select ms cs else select ms cs
  | _, _ => []
  end.

(** [df[mask]] *)
Definition boolean_index (mask : list bool) (df : DataFrame) : DataFrame :=
  mkDataFrame (length (filter (λ b, b = true) (take (nrows df) mask)))
              ((λ c, (c.1, select mask c.2)) <$> columns df).

Definition is_positive (o : option Q) : bool := Qlt_bool 0 (fillna0 o).
Definition equals (v : Q) (o : option Q) : bool :=
  match o with None => false | Some q => Qeq_bool q v end.

(** [s.sum()], nulls skipped. *)
Definition series_sum (s : Series) : option Q :=
  nums ← mapM num_of s; Some (Validator.Qsum (omap id nums)).

(** The body of [for flag in flag_columns] for a column that exists. *)
Definition flag_stats (s : Series) (total_sp : Z) : option stats :=
  flagged ← mask_of is_positive s;
  error ← mask_of (equals 2) s;
  warning ← mask_of (equals 1) s;
  let flagged_records := count_true flagged in
  let error_records := count_true error in
  let warning_records := count_true warning in
  Some (mkStats (percent flagged_records total_sp)
                (percent error_records total_sp)
                (percent warning_records total_sp)
                flagged_records error_records warning_records).

Definition in_production (fgsp lgsp : Z) (o : option Q) : bool :=
  match o with
  | None => false
  | Some sp =>
      Qle_bool (inject_Z (Z.min fgsp lgsp)) sp
      && Qle_bool sp (inject_Z (Z.max fgsp lgsp))
  end.

Definition calculate_percentages (df : DataFrame) (total_sp : option Z)
    (fgsp lgsp : option Z) : option percentages :=
  '(production_df, total_sp) ←
    match fgsp, lgsp with
    | Some f, Some l =>
        sp ← get df "shot_point";
        mask ← mask_of (in_production f l) sp;
        let production_df := boolean_index mask df in
        Some (production_df, Z.of_nat (nrows production_df))
    | _, _ => Some (df, default (Z.of_nat (nrows df)) total_sp)
    end;
  flags ←
    foldM (λ acc flag,
             match get production_df flag with
             | None => Some acc
             | Some s => st ← flag_stats s total_sp; Some (<[flag := st]> acc)
             end)
          (∅ : gmap string stats) Validator.flag_columns;
  let percent_radial :=
    match flags !! "repeatability_flag" with
    | Some st => total st
    | None => Some 0%Q
    end in
  let percent_gd_errors :=
    match flags !! "gun_depth_flag" with
    | Some st => total st
    | None => Some 0%Q
    end in
  (* Overall statistics: read from [df] *)
  cols ← mapM (get df) Validator.flag_columns;
  sums ← mapM series_sum cols;
  error_masks ← mapM (mask_of (equals 2)) cols;
  warning_masks ← mapM (mask_of (equals 1)) cols;
  let total_flags := Validator.Qsum sums in
  let total_errors := Validator.Qsum (count_true <$> error_masks) in
  let total_warnings := Validator.Qsum (count_true <$> warning_masks) in
  let denominator :=
    total_sp * Z.of_nat (length Validator.flag_columns) in
  Some (mkPercentages flags percent_radial percent_gd_errors
          (mkStats (percent total_flags denominator)
                   (percent total_errors denominator)
                   (percent total_warnings denominator)
                   total_flags total_errors total_warnings)).

(** *** Example frames *)

(** Two shot points, the first outside the production range and flagged
    by the STI rule, the second inside it and clean. *)
Definition approach_and_production : DataFrame :=
  mkDataFrame 2
    [ ("shot_point", [CInt 1000; CInt 1002]);
      ("sti_flag", [CInt 2; CInt 0]);
      ("sub_array_sep_flag", [CInt 0; CInt 0]);
      ("cos_sep_flag", [CInt 0; CInt 0]);
      ("volume_flag", [CInt 0; CInt 0]);
      ("gun_depth_flag", [CInt 0; CInt 0]);
      ("gun_pressure_flag", [CInt 0; CInt 0]);
      ("gun_timing_flag", [CInt 0; CInt 0]);
      ("repeatability_flag", [CInt 0; CInt 0]);
      ("sma_flag", [CInt 0; CInt 0]) ].

(** Its production rows alone. *)
Definition production_only : DataFrame :=
  mkDataFrame 1
    [ ("shot_point", [CInt 1002]);
      ("sti_flag", [CInt 0]);
      ("sub_array_sep_flag", [CInt 0]);
      ("cos_sep_flag", [CInt 0]);
      ("volume_flag", [CInt 0]);
      ("gun_depth_flag", [CInt 0]);
      ("gun_pressure_flag", [CInt 0]);
      ("gun_timing_flag", [CInt 0]);
      ("repeatability_flag", [CInt 0]);
      ("sma_flag", [CInt 0]) ].

End Report.

(** ** PXGEONavQCTools.py *)

Module NavQC.
Import Py Frame.

(** The body of the loop of [check_sp] for one pair of neighbours. *)
Definition missed_between (pair : Z * Z) : list Z :=
  let current := pair.1 in
  let next_ := pair.2 in
  let diff := next_ - current in
  if 2 <? Z.abs diff then
    if 0 <? diff then range_up2 (current + 2) next_
    else range_down2 (current - 2) next_
  else [].

(** [check_sp], on [merged_df['shot_point'].tolist()] for a column of
    integers without nulls. *)
Definition check_sp (shot_points : list Z) : list Z :=
  mjoin (missed_between <$> adjacent (sorted shot_points)).

(** *** The merge loop of [_qc_worker_function] *)

Section Merge.

(** How pandas reads a string as a number ([None]: it cannot, and
    [errors='coerce'] makes the value NaN), and how it prints a float. *)
Variable to_number : string → option Q.
Variable float_text : Q → string.

(** [pd.to_numeric(s, errors='coerce')] on one cell. *)
Definition to_numeric (c : cell) : option Q :=
  match c with
  | CNull => None
  | CInt n => Some (inject_Z n)
  | CNum q => Some q
  | CStr s => to_number s
  end.

(** [.astype('Int64')] on one value: NaN becomes NA, a number with a
    fractional part cannot be cast (TypeError). *)
Definition to_Int64 (o : option Q) : option cell :=
  match o with
  | None => Some CNull
  | Some q =>
      if Qeq_bool (inject_Z (Qfloor q)) q then Some (CInt (Qfloor q))
      else None
  end.

(** [pd.to_numeric(s, errors='coerce').astype('Int64')] *)
Definition numeric_Int64 (s : Series) : option Series :=
  mapM (λ c, to_Int64 (to_numeric c)) s.

(** [str(c)], an NA of an Int64 column printing as [<NA>]. *)
Definition cell_text (c : cell) : string :=
  match c with
  | CNull => "<NA>"
  | CInt n => str n
  | CNum q => float_text q
  | CStr s => s
  end.

(** [.astype(str).str.zfill(4)] *)
Definition key_text (s : Series) : Series :=
  (λ c, CStr (zfill 4 (cell_text c))) <$> s.

(** Equality of two join keys. *)
Definition key_eqb (a b : cell) : bool :=
  match a, b with
  | CStr s, CStr t => bool_decide (s = t)
  | _, _ => false
  end.

(** The positions in [right_keys], counted from [j], of the keys equal
    to [k]. *)
Fixpoint positions (k : cell) (right_keys : Series) (j : nat) : list nat :=
  match right_keys with
  | [] => []
  | r :: rest =>
      if key_eqb k r then j :: positions k rest (S j)
      else positions k rest (S j)
  end.

(** The rows of a left join: every left row, in order, once for each
    right row with its key, or once with no partner. *)
Fixpoint match_rows (left_keys right_keys : Series) (i : nat)
  : list (nat * option nat) :=
  match left_keys with
  | [] => []
  | k :: rest =>
      match positions k right_keys 0 with
      | [] => [(i, None)]
      | js => (λ j, (i, Some j)) <$> js
      end ++ match_rows rest right_keys (S i)
  end.

Definition take_left (rows : list (nat * option nat)) (s : Series)
  : Series :=
  (λ p, default CNull (s !! p.1)) <$> rows.

Definition take_right (rows : list (nat * option nat)) (s : Series)
  : Series :=
  (λ p, default CNull (p.2 ≫= (s !!.))) <$> rows.

(** [pd.merge(left, right, on='shot_point', how='left',
              suffixes=('', '_' + name))].
    [None] is the KeyError of a missing key column. *)
Definition pd_merge (left right : DataFrame) (name : string)
  : option DataFrame :=
  left_keys ← get left "shot_point";
  right_keys ← get right "shot_point";
  let rows := match_rows left_keys right_keys 0 in
  let right_cols :=
    filter (λ c, c.1 ≠ "shot_point") (columns right) in
  Some (mkDataFrame (length rows)
          (((λ c, (c.1, take_left rows c.2)) <$> columns left)
           ++ ((λ c, (if bool_decide (c.1 ∈ names left)
                      then c.1 +:+ "_" +:+ name else c.1,
                      take_right rows c.2)) <$> right_cols))).

(** [df.empty] *)
Definition empty (df : DataFrame) : bool :=
  bool_decide (nrows df = 0%nat) || bool_decide (columns df = []).

(** The body of [try:] for one secondary; [inl] is the frame left in
    [merged_df] when an exception interrupts it. *)
Definition try_merge (merged_df : DataFrame) (name : string)
    (df : DataFrame) : DataFrame + DataFrame :=
  match get df "shot_point" ≫= numeric_Int64 with
  | None => inl merged_df
  | Some df_sp =>
      match get merged_df "shot_point" ≫= numeric_Int64 with
      | None => inl merged_df
      | Some merged_sp =>
          let df := set_column "shot_point" (key_text df_sp) df in
          let merged_df :=
            set_column "shot_point" (key_text merged_sp) merged_df in
          match pd_merge merged_df df name with
          | None => inl merged_df
          | Some merged_df =>
              match get merged_df "shot_point" ≫= numeric_Int64 with
              | None => inl merged_df
              | Some sp => inr (set_column "shot_point" sp merged_df)
              end
          end
      end
  end.

(** One round of [for name, df in merge_dfs]. *)
Definition merge_step (merged_df : DataFrame) (entry : string * DataFrame)
  : DataFrame :=
  let '(name, df) := entry in
  if negb (empty df) && has_column df "shot_point"
  then match try_merge merged_df name df with
       | inl d | inr d => d
       end
  else merged_df.

(** Lines 694 to 721: the base frame with its key rewritten as text,
    then one join per secondary.  [None] is the KeyError of a base
    without a [shot_point] column. *)
Definition merge (base : DataFrame) (secondaries : list (string * DataFrame))
  : option DataFrame :=
  sp ← get base "shot_point";
  let merged_df := set_column "shot_point" (key_text sp) base in
  Some (foldl merge_step merged_df secondaries).

(** The join keys of a secondary, when its [shot_point] column can be
    converted. *)
Definition join_keys (df : DataFrame) : option Series :=
  key_text <$> (get df "shot_point" ≫= numeric_Int64).

End Merge.

(** The key column of a frame has as many cells as the frame has rows. *)
Definition key_aligned (df : DataFrame) : Prop :=
  ∃ sp, get df "shot_point" = Some sp ∧ length sp = nrows df.

(** A reader of decimal integer literals, for the examples. *)
Definition read_integer (s : string) : option Q :=
  inject_Z <$> int_of_string s.

End NavQC.

(** ** line_log_manager.py *)

Module LineLog.
Import Py.

(** The text appended to [ranges] for a finished run [start..end]. *)
Definition render_range (r : Z * Z) : string :=
  if decide (r.1 = r.2) then str r.1 else str r.1 +:+ "-" +:+ str r.2.

(** The [for i in range(1, len(sorted_points))] loop of [detect_range],
    with its three variables [start], [end] and [ranges], followed by the
    "Add the last range" step. *)
Fixpoint range_loop (start end_ : Z) (rest : list Z) (ranges : list string)
  : list string :=
  match rest with
  | [] => ranges ++ [render_range (start, end_)]
  | current :: rest' =>
      if decide (current = end_ + 2)
      then range_loop start current rest' ranges
      else range_loop current current rest'
             (ranges ++ [render_range (start, end_)])
  end.

Definition detect_range (shot_points : list Z) : string :=
  match shot_points with
  | [] => ""
  | _ :: _ =>
      let sorted_points := sorted shot_points in
      let p0 := hd 0 sorted_points in
      let ranges := range_loop p0 p0 (tl sorted_points) [] in
      let total_count := Z.of_nat (length sorted_points) in
      "Total " +:+ str total_count +:+ " SP. " +:+ join ", " ranges
  end.

(** The runs the loop finds, before they are rendered. *)
Fixpoint range_pairs (start end_ : Z) (rest : list Z) : list (Z * Z) :=
  match rest with
  | [] => [(start, end_)]
  | current :: rest' =>
      if decide (current = end_ + 2)
      then range_pairs start current rest'
      else (start, end_) :: range_pairs current current rest'
  end.

(** The shot points an inclusive range [start-end] stands for. *)
Definition expand_range (r : Z * Z) : list Z :=
  (λ k, r.1 + 2 * k) <$> seqZ 0 ((r.2 - r.1) `div` 2 + 1).

(** No two neighbouring ranges could have been merged. *)
Fixpoint maximal (rs : list (Z * Z)) : Prop :=
  match rs with
  | r1 :: (r2 :: _) as tl => r2.1 ≠ r1.2 + 2 ∧ maximal tl
  | _ => True
  end.

Definition well_formed_range (r : Z * Z) : Prop :=
  r.1 ≤ r.2 ∧ (r.2 - r.1) `mod` 2 = 0.

(** *** [_filter_log_data_by_range] *)

(** An element of a list value that is not a tuple: a shot point or a
    text. *)
Inductive scalar :=
| SInt (n : Z)
| SStr (s : string).

(** The values of the log dictionary: a descriptive string, a list of
    [(sp, [guns])] tuples, a list of shot points or of texts, or a value of
    any other type (here a number). *)
Inductive value :=
| VText (s : string)
| VTuples (l : list (Z * list string))
| VItems (l : list scalar)
| VOther (n : Z).

Definition range_keys : list string :=
  [ "log_consec_7_source_errors"; "log_window_12_of_24_source_errors";
    "log_window_16_of_40_source_errors"; "log_gun_depth_sensor_violation" ].

(** [min_sp <= sp <= max_sp] *)
Definition in_range (min_sp max_sp sp : Z) : bool :=
  bool_decide (min_sp ≤ sp ≤ max_sp).

(** [item.split(needle)[0]]: the text before the first [needle]. *)
Fixpoint before (needle s : string) : string :=
  if String.prefix needle s then EmptyString
  else match s with
       | EmptyString => EmptyString
       | String c s' => String c (before needle s')
       end.

(** The body of [for item in value] for a text item: [Some t] is the text
    appended to [filtered_ranges], [None] means nothing is appended. *)
Definition clip_text (min_sp max_sp : Z) (item : string) : option string :=
  if contains "-" item then
    match split "-" item with
    | [p0; p1] =>
        match last (words (strip p0)) ≫= int_of_string,
              head (words (strip p1)) ≫= int_of_string with
        | Some range_start, Some range_end =>
            if bool_decide (min_sp ≤ range_end) && bool_decide (range_start ≤ max_sp)
            then
              let trimmed_start := Z.max range_start min_sp in
              let trimmed_end := Z.min range_end max_sp in
              let prefix :=
                if contains (str range_start) item
                then before (str range_start) item else EmptyString in
              Some (prefix +:+ str trimmed_start +:+ "-" +:+ str trimmed_end)
            else None
        | _, _ => Some item
        end
    | _ => Some item
    end
  else
    match int_of_string item with
    | Some sp => if in_range min_sp max_sp sp then Some item else None
    | None => Some item
    end.

(** The same loop body for any item.  For an integer [n], [str(item)]
    has a hyphen exactly when [n] is negative; it then splits into an
    empty first part and the digits, the first part has no last word
    (IndexError) and the item is kept as it is.  Otherwise [int(item)] is
    [n] itself. *)
Definition clip_item (min_sp max_sp : Z) (item : scalar) : option scalar :=
  match item with
  | SStr s => SStr <$> clip_text min_sp max_sp s
  | SInt n =>
      if n <? 0 then Some item
      else if in_range min_sp max_sp n then Some item else None
  end.

(** [filtered_data[key] = v] only [if v]. *)
Definition keep_if_nonempty {A} (wrap : list A → value) (l : list A)
  : option value :=
  match l with [] => None | _ => Some (wrap l) end.

(** [bool(value)]: an empty string or list and the number zero are
    false. *)
Definition truthy (v : value) : bool :=
  match v with
  | VText s => negb (bool_decide (s = ""))
  | VTuples l => negb (bool_decide (l = []))
  | VItems l => negb (bool_decide (l = []))
  | VOther n => negb (bool_decide (n = 0))
  end.

(** The body of [for key, value in log_data.items()]: [Some (Some v)] puts
    [v] under [key], [Some None] puts nothing, [None] is the TypeError of
    comparing a text with the bounds. *)
Definition filter_value (min_sp max_sp : Z) (key : string) (v : value)
  : option (option value) :=
  if negb (truthy v) then Some None
  else
    match v with
    | VText _ => Some (Some v)
    | VTuples l =>
        Some (keep_if_nonempty VTuples
                (filter (λ t, in_range min_sp max_sp t.1) l))
    | VItems l =>
        if bool_decide (key ∈ range_keys)
        then Some (keep_if_nonempty VItems (omap (clip_item min_sp max_sp) l))
        else
          sps ← mapM (λ it, match it with
                            | SInt n => Some n
                            | SStr _ => None
                            end) l;
          Some (keep_if_nonempty VItems
                  (SInt <$> filter (λ sp, in_range min_sp max_sp sp) sps))
    | VOther _ => Some (Some v)
    end.

Definition _filter_log_data_by_range (log_data : gmap string value)
    (fgsp lgsp : option Z) : option (gmap string value) :=
  match fgsp, lgsp with
  | Some f, Some l =>
      if decide (log_data = ∅) then Some log_data
      else
        let min_sp := Z.min f l in
        let max_sp := Z.max f l in
        if decide (map_Forall (λ k v, is_Some (filter_value min_sp max_sp k v))
                     log_data)
        then Some (map_imap (λ k v, mjoin (filter_value min_sp max_sp k v))
                     log_data)
        else None
  | _, _ => Some log_data
  end.

(** Every list under a key other than the four range-string keys holds
    shot points only. *)
Definition lists_hold_shot_points (log_data : gmap string value) : Prop :=
  ∀ k items, log_data !! k = Some (VItems items) → k ∉ range_keys →
             Forall (λ it, ∃ n, it = SInt n) items.

End LineLog.

(** ** Python sequence operations *)

Module PySeq.

(** [l[k]]: a negative [k] counts from the end; [None] is IndexError. *)
Definition index {A} (l : list A) (k : Z) : option A :=
  let n := Z.of_nat (length l) in
  if decide (0 ≤ k < n) then l !! Z.to_nat k
  else if decide (- n ≤ k < 0) then l !! Z.to_nat (k + n)
  else None.

(** A slice bound as Python normalises it for a list of length [n]. *)
Definition bound (n k : Z) : Z :=
  if k <? 0 then Z.max 0 (k + n) else Z.min k n.

(** [l[i:j]] *)
Definition slice {A} (l : list A) (i j : Z) : list A :=
  let n := Z.of_nat (length l) in
  take (Z.to_nat (bound n j - bound n i)) (drop (Z.to_nat (bound n i)) l).

(** [sum(l)] *)
Definition sum (l : list Z) : Z := foldr Z.add 0 l.

End PySeq.

(** ** qc_validator.py: the checks over the flagged table *)

Module Checks.
Import Py PySeq Frame Validator.

(** [a != b] on two shot points, in the [if] of the loops below.  A null
    shot point is the NA of the Int64 column the merge leaves; a comparison
    with it has no truth value and the [if] raises TypeError ([None]). *)
Definition sp_ne (a b : cell) : option bool :=
  match a, b with
  | CNull, _ | _, CNull => None
  | _, _ => Some (negb (cell_eqb a b))
  end.

(** [df[flag] == v] on one cell: false on a null and on a string. *)
Definition cell_is (v : Z) (c : cell) : bool :=
  match c with
  | CInt n => bool_decide (n = v)
  | CNum q => Qeq_bool q (inject_Z v)
  | CNull | CStr _ => false
  end.

(** The body of [for i in range(...)] in [_sliding_window_check]. *)
Definition window_step (flags_list : list Z) (shot_points : list cell)
    (window_size threshold : Z) (violations : list (cell * cell)) (i : Z)
  : option (list (cell * cell)) :=
  let window_flags := slice flags_list i (i + window_size) in
  let error_count := sum window_flags in
  if threshold <=? error_count then
    start_sp ← index shot_points i;
    end_sp ← index shot_points (i + window_size - 1);
    match last violations with
    | None => Some (violations ++ [(start_sp, end_sp)])
    | Some v =>
        differs ← sp_ne v.2 end_sp;
        if differs : bool then Some (violations ++ [(start_sp, end_sp)])
        else Some violations
    end
  else Some violations.

Definition _sliding_window_check (flags : list Z) (shot_points : list cell)
    (window_size threshold : Z) : option (list (cell * cell)) :=
  let flags_list := flags in
  foldM (window_step flags_list shot_points window_size threshold) []
        (range1 0 (Z.of_nat (length flags_list) - window_size + 1)).

(** The five flags that make a shot point a source error. *)
Definition source_flags : list string :=
  [ "volume_flag"; "gun_depth_flag"; "gun_pressure_flag";
    "gun_timing_flag"; "sma_flag" ].

(** [((df['volume_flag'] == 2) | ... | (df['sma_flag'] == 2)).astype(int)];
    [None] is the KeyError of a missing flag column. *)
Definition source_error_flags (df : DataFrame) : option (list Z) :=
  cols ← mapM (get df) source_flags;
  Some ((λ b : bool, if b then 1 else 0)
          <$> foldr (λ s acc, mask_or (cell_is 2 <$> s) acc)
                    (replicate (nrows df) false) cols).

(** The variables of the "7 consecutive" loop. *)
Record consec_state := mkConsec {
  consec_count : Z;
  consec_start : option cell;
  consec_found : list (option cell * cell * Z)
}.

(** The body of [for i, (sp, has_error) in enumerate(zip(...))]. *)
Definition consec_step (window : Z) (st : consec_state) (item : cell * Z)
  : option consec_state :=
  let '(sp, has_error) := item in
  if decide (has_error ≠ 0) then
    let consec_start :=
      if decide (consec_count st = 0) then Some sp else consec_start st in
    let consec_count := consec_count st + 1 in
    if window <=? consec_count then
      match last (consec_found st) with
      | None =>
          Some (mkConsec consec_count consec_start
                  (consec_found st ++ [(consec_start, sp, consec_count)]))
      | Some e =>
          differs ← sp_ne e.1.2 sp;
          if differs : bool then
            Some (mkConsec consec_count consec_start
                    (consec_found st ++ [(consec_start, sp, consec_count)]))
          else Some (mkConsec consec_count consec_start (consec_found st))
      end
    else Some (mkConsec consec_count consec_start (consec_found st))
  else Some (mkConsec 0 None (consec_found st)).

(** The dictionary [check_source_error_windows] returns. *)
Record windows := mkWindows {
  consec_7 : list (option cell * cell * Z);
  window_12_of_24 : list (cell * cell);
  window_16_of_40 : list (cell * cell);
  percent_3_total : bool
}.

Definition check_source_error_windows (th : QCThresholds) (df : DataFrame)
  : option windows :=
  source_error_flags ← source_error_flags df;
  let total_sp := Z.of_nat (nrows df) in
  let error_sp_count := sum source_error_flags in
  let error_percent :=
    if 0 <? total_sp
    then (inject_Z error_sp_count / inject_Z total_sp * 100)%Q
    else 0%Q in
  let percent := Qle_bool (consec_error_percent_total th) error_percent in
  match get df "shot_point" with
  | None => Some (mkWindows [] [] [] percent)
  | Some shot_points =>
      st ← foldM (consec_step (consec_error_window_7 th))
                 (mkConsec 0 None []) (zip shot_points source_error_flags);
      w24 ← _sliding_window_check source_error_flags shot_points
              (consec_error_window_24 th) (consec_error_threshold_12_of_24 th);
      w40 ← _sliding_window_check source_error_flags shot_points
              (consec_error_window_40 th) (consec_error_threshold_16_of_40 th);
      Some (mkWindows (consec_found st) w24 w40 percent)
  end.

(** The run of source errors that ends just before position [m] of
    [errs] has length [r]. *)
Definition run_before (errs : list Z) (m r : nat) : Prop :=
  (r ≤ m)%nat
  ∧ (∀ k, (m - r ≤ k < m)%nat → ∃ e, errs !! k = Some e ∧ e ≠ 0)
  ∧ ((r < m)%nat → errs !! (m - r - 1)%nat = Some 0).

(** The flags [check_consecutive_errors] looks at: all but [sti_flag]. *)
Definition error_flag_columns : list string :=
  [ "sub_array_sep_flag"; "cos_sep_flag"; "volume_flag"; "gun_depth_flag";
    "gun_pressure_flag"; "gun_timing_flag"; "repeatability_flag";
    "sma_flag" ].

(** The body of [for flag in flag_columns] of [check_consecutive_errors]. *)
Definition consecutive_step (th : QCThresholds) (df : DataFrame)
    (consecutive_errors : list (cell * cell * Z)) (flag : string)
  : option (list (cell * cell * Z)) :=
  match get df flag with
  | None => Some consecutive_errors
  | Some s =>
      mask ← mask_of Report.is_positive s;
      let flagged_records := Report.boolean_index mask df in
      if negb (NavQC.empty flagged_records) then
        sp ← get flagged_records "shot_point";
        start ← head sp;
        end_ ← last sp;
        let count := Z.of_nat (nrows flagged_records) in
        if consecutive_error_limit th <? count
        then Some (consecutive_errors ++ [(start, end_, count)])
        else Some consecutive_errors
      else Some consecutive_errors
  end.

Definition check_consecutive_errors (th : QCThresholds) (df : DataFrame)
  : option (list (cell * cell * Z)) :=
  foldM (consecutive_step th df) [] error_flag_columns.

End Checks.
(** ** What the rules decide, row by row *)

Module Outcome.
Import Py Frame Validator.

(** The number in row [i] of column [col]; the inner [None] is a null. *)
Definition reading (df : DataFrame) (col : string) (i : nat)
  : option (option Q) :=
  s ← get df col; c ← s !! i; num_of c.

(** The readings of row [i] in the columns [validate_gun_timing] checks. *)
Definition timing_readings (df : DataFrame) (i : nat) : list (option Q) :=
  omap (λ col, reading df col i) (filter (λ c, is_timing_col c) (names df)).

(** The gun-timing flag of a row with these readings whose flag was [z]. *)
Definition timing_flag (th : QCThresholds) (readings : list (option Q))
    (z : Z) : Z :=
  if existsb (timing_mask (timing_error th)) readings then 2
  else if existsb (timing_mask (timing_warning th)) readings then Z.max z 1
  else z.

(** The readings of row [i] in the gun-timing columns as [validate_volume]
    and the line-log report select them. *)
Definition report_readings (df : DataFrame) (i : nat)
  : list (option Q) :=
  omap (λ col, reading df col i)
       (filter (λ c, report_timing_col c) (names df)).

(** One of the readings is the misfire code, with either sign. *)
Definition misfired (readings : list (option Q)) : bool :=
  existsb (λ o, Qeq_bool (Qabs (fillna0 o)) 90) readings.

(** The volume flag of a row with the volume [v] whose flag was [z]. *)
Definition volume_flag (th : QCThresholds) (readings : list (option Q))
    (v : option Q) (z : Z) : Z :=
  if negb (Qeq_bool (fillna0 v) (volume_nominal th))
     && negb (misfired readings)
  then 2 else z.

(** The point code of a row is [code]. *)
Definition has_code (code : string) (c : cell) : bool :=
  match c with CStr t => bool_decide (t = code) | _ => false end.

(** The row has the point code of [entry] and one of the pressure
    columns of that code which the table has reads outside the limits. *)
Definition pressure_failed (th : QCThresholds) (df : DataFrame) (i : nat)
    (code : cell) (entry : string * list string) : bool :=
  has_code entry.1 code
  && existsb (outside (gun_pressure_min th) (gun_pressure_max th))
             (omap (λ col, reading df col i)
                   (filter (λ c, c ∈ names df) entry.2)).

(** The pressure flag of a row with the point code [code] whose flag
    was [z], in a table with a [point_code] column. *)
Definition pressure_flag (th : QCThresholds) (df : DataFrame) (i : nat)
    (code : cell) (z : Z) : Z :=
  if existsb (pressure_failed th df i code) point_code_pressure_mapping
  then 2 else z.

(** The readings of row [i] in the columns [validate_gun_depth]
    averages. *)
Definition depth_readings (df : DataFrame) (i : nat) : list (option Q) :=
  omap (λ col, reading df col i)
       (filter (λ c, is_gun_depth_col c) (names df)).

(** The mean of the readings that are not null; null when there is
    none. *)
Definition average (readings : list (option Q)) : option Q :=
  match omap id readings with
  | [] => None
  | vals => Some (Qsum vals / inject_Z (Z.of_nat (length vals)))%Q
  end.

(** The readings of row [i] in the separation columns the table has, as
    [validate_sub_array_separation] goes through them. *)
Definition separation_readings (df : DataFrame) (i : nat)
  : list (option Q) :=
  omap (λ col, reading df col i)
       (filter (λ c, c ∈ names df) separation_columns).

(** The readings of row [i] in the columns [validate_sma] goes
    through. *)
Definition sma_readings (df : DataFrame) (i : nat) : list (option Q) :=
  omap (λ col, reading df col i)
       (filter (λ c, is_sma_col c) (names df)).

(** The readings of row [i] in the pressure columns
    [validate_gun_pressure] goes through in a table without a
    [point_code] column. *)
Definition pressure_readings (df : DataFrame) (i : nat)
  : list (option Q) :=
  omap (λ col, reading df col i)
       (filter (λ c, is_pressure_col c) (names df)).

End Outcome.
(** ** qc_report_generator.py: the dither reference *)

Module Dither.
Import Py PySeq Frame.

Section Search.

(** The reference values as the dither file gives them (floats, in
    seconds) and [convert_dither_format], which rounds a value times 1000
    to an integer; the search below uses nothing else of either. *)
Variable seconds : Type.
Variable convert_dither_format : seconds → Z.

(** The inner loop [for j in range(pattern_length)], with its [break]:
    [match] stays false once a difference exceeds the tolerance. *)
Definition pattern_matches (reference_sps_format previous_dithers : list Z)
    (tolerance i : Z) : option bool :=
  foldM (λ (matched : bool) j,
           if matched then
             r ← index reference_sps_format (i + j);
             p ← index previous_dithers j;
             Some (negb (tolerance <? Z.abs (r - p)))
           else Some false)
        true (range1 0 (Z.of_nat (length previous_dithers))).

(** The outer loop [for i in range(...)] with its [return]: [Some (Some d)]
    is the value returned from inside the loop, [Some None] the [None]
    returned after it. *)
Fixpoint search (reference_sps_format previous_dithers : list Z)
    (tolerance : Z) (starts : list Z) : option (option Z) :=
  match starts with
  | [] => Some None
  | i :: rest =>
      matched ← pattern_matches reference_sps_format previous_dithers
                  tolerance i;
      let pattern_length := Z.of_nat (length previous_dithers) in
      if matched
         && (i + pattern_length <? Z.of_nat (length reference_sps_format))
      then Some <$> index reference_sps_format (i + pattern_length)
      else search reference_sps_format previous_dithers tolerance rest
  end.

Definition find_dither_pattern_match (previous_dithers : list Z)
    (reference_dithers : list seconds) (tolerance : Z)
  : option (option Z) :=
  match reference_dithers, previous_dithers with
  | [], _ | _, [] => Some None
  | _, _ =>
      let reference_sps_format :=
        convert_dither_format <$> reference_dithers in
      let pattern_length := Z.of_nat (length previous_dithers) in
      search reference_sps_format previous_dithers tolerance
             (range1 0 (Z.of_nat (length reference_sps_format)
                        - pattern_length))
  end.

End Search.

(** The pattern [previous] fits the reference at position [i] within
    [tolerance]. *)
Definition fits (reference previous : list Z) (tolerance : Z) (i : nat)
  : Prop :=
  ∀ j r p, reference !! (i + j)%nat = Some r → previous !! j = Some p →
           Z.abs (r - p) ≤ tolerance.

End Dither.
(** ** qc_validator.py: the gun depth sensors *)

Module Sensors.
Import Py Frame Validator.

Definition is_sensor_col (col : string) : bool :=
  starts_with "SSTGM1D" col && contains "DPT (P) Shot Event m" col.

(** [s.mean()]: nulls are skipped; [Some None] is the NaN of a column
    without a value, [None] the TypeError of a column with a string. *)
Definition series_mean (s : Series) : option (option Q) :=
  nums ← mapM num_of s;
  let vals := omap id nums in
  match vals with
  | [] => Some None
  | _ => Some (Some (Qsum vals / inject_Z (Z.of_nat (length vals)))%Q)
  end.

(** A match of [SSTGM1D(\d+)_DPT] at the head of [s]: its group 1. *)
Definition sensor_match (s : string) : option string :=
  rest ← strip_prefix "SSTGM1D" s;
  let '(digits, tail) := span_digits rest in
  if negb (bool_decide (digits = "")) && starts_with "_DPT" tail
  then Some digits else None.

(** [re.search(r'SSTGM1D(\d+)_DPT', s)]: group 1 of the first match. *)
Fixpoint search_sensor (s : string) : option string :=
  match sensor_match s with
  | Some digits => Some digits
  | None =>
      match s with
      | EmptyString => None
      | String _ s' => search_sensor s'
      end
  end.

(** The sensor number of a column: group 1 of the match, or the
    character at position 7; [None] is the IndexError of a name of fewer
    than eight characters. *)
Definition sensor_number (sensor_col : string) : option string :=
  match search_sensor sensor_col with
  | Some digits => Some digits
  | None => (λ c, String c EmptyString) <$> String.get 7 sensor_col
  end.

(** [avg < lo or avg > hi] *)
Definition out_of_range (lo hi avg : Q) : bool :=
  Qlt_bool avg lo || Qlt_bool hi avg.

Section Report.

(** [f"{x:.1f}"] *)
Variable fixed1 : Q → string.

Definition sensor_warning (sensor_number : string) (sensor_avg : Q)
  : string :=
  "Gun Depth Sensor " +:+ sensor_number +:+ " avg = "
  +:+ fixed1 (Qabs sensor_avg) +:+ " meters".

(** The body of [for sensor_col in gun_depth_sensor_cols].  Every
    comparison with a NaN average is false. *)
Definition sensor_step (th : QCThresholds) (df : DataFrame)
    (sensor_warnings : list string) (sensor_col : string)
  : option (list string) :=
  s ← get df sensor_col;
  sensor_avg ← series_mean s;
  sensor_number ← sensor_number sensor_col;
  match sensor_avg with
  | Some avg =>
      if out_of_range (gun_depth_sensor_min th) (gun_depth_sensor_max th) avg
      then Some (sensor_warnings ++ [sensor_warning sensor_number avg])
      else Some sensor_warnings
  | None => Some sensor_warnings
  end.

Definition validate_gun_depth_sensors (th : QCThresholds) (df : DataFrame)
  : option (list string) :=
  let gun_depth_sensor_cols := filter (λ c, is_sensor_col c) (names df) in
  match gun_depth_sensor_cols with
  | [] => Some []
  | _ => foldM (sensor_step th df) [] gun_depth_sensor_cols
  end.

End Report.

(** The column of sensor [d]. *)
Definition sensor_column (d : string) : string :=
  "SSTGM1D" +:+ d +:+ "_DPT (P) Shot Event m".

End Sensors.
(** ** Regular lines *)

Module Lines.

(** Each shot point of [zs] is its predecessor plus [d]. *)
Fixpoint regular (d : Z) (zs : list Z) : Prop :=
  match zs with
  | a :: (b :: _) as tl => b = a + d ∧ regular d tl
  | _ => True
  end.

End Lines.
(** ** The flag loop of [generate_line_log_report]

  [QCReportGenerator.log_shotpoints] has the same loop, line for line. *)

Module FlagLog.
Import Py Frame Validator.

(** The flags the report goes through; [sti_flag] is not one of them. *)
Definition report_flag_columns : list string :=
  [ "sub_array_sep_flag"; "cos_sep_flag"; "volume_flag"; "gun_depth_flag";
    "gun_pressure_flag"; "gun_timing_flag"; "repeatability_flag";
    "sma_flag" ].

(** The part of [log_data] the loop writes: the lists under the keys
    [log_<flag>], and the two timing lists, which exist only once a row
    of their level has been met. *)
Record log_data := mkLogData {
  log_flag : gmap string (list cell);
  log_timing_warning : option (list entry);
  log_timing_error : option (list entry)
}.

(** [timing_value not in [63, 61, 90] and
     min_threshold < timing_value <= max_threshold]; the upper limit
    [None] is [float('inf')]. *)
Definition in_band (min_threshold : Q) (max_threshold : option Q)
    (timing_value : Q) : bool :=
  negb (existsb (Qeq_bool timing_value) [63; 61; 90]%Q)
  && Qlt_bool min_threshold timing_value
  && match max_threshold with
     | Some m => Qle_bool timing_value m
     | None => true
     end.

(** The inner [for col in timing_cols] of one flagged row. *)
Definition matching_guns (df : DataFrame) (timing_cols : list string)
    (i : nat) (min_threshold : Q) (max_threshold : option Q)
  : option (list string) :=
  foldM (λ matching_guns col,
           s ← get df col;
           c ← s !! i;
           v ← timing_value c;
           if in_band min_threshold max_threshold v
           then Some (matching_guns ++ option_list (gun_info col))
           else Some matching_guns)
        [] timing_cols.

(** [if log_key not in log_data: log_data[log_key] = []], then
    [if matching_guns: log_data[log_key].append((row['shot_point'],
    matching_guns))]. *)
Definition append_guns (log : option (list entry)) (df : DataFrame)
    (i : nat) (guns : list string) : option (option (list entry)) :=
  let current := default [] log in
  match guns with
  | [] => Some (Some current)
  | _ => sp ← flag_at df "shot_point" i;
         Some (Some (current ++ [(sp, guns)]))
  end.

(** The gun-timing branch for row [i], whose flag is [level]. *)
Definition timing_row (df : DataFrame) (i : nat) (level : option Q)
    (log : log_data) : option log_data :=
  let timing_cols := filter (λ c, report_timing_col c) (names df) in
  if Report.equals 1 level then
    guns ← matching_guns df timing_cols i 1 (Some (3 # 2));
    w ← append_guns (log_timing_warning log) df i guns;
    Some (mkLogData (log_flag log) w (log_timing_error log))
  else if Report.equals 2 level then
    guns ← matching_guns df timing_cols i (3 # 2) None;
    e ← append_guns (log_timing_error log) df i guns;
    Some (mkLogData (log_flag log) (log_timing_warning log) e)
  else Some log.

(** The body of [for index, row in flagged_records.iterrows()]; [c] is
    [row[flag]]. *)
Definition flag_row (df : DataFrame) (flag : string) (i : nat) (c : cell)
    (log : log_data) : option log_data :=
  if bool_decide (flag = "gun_timing_flag") then
    level ← num_of c; timing_row df i level log
  else
    current ← log_flag log !! ("log_" +:+ flag);
    sp ← flag_at df "shot_point" i;
    Some (mkLogData (<["log_" +:+ flag := current ++ [sp]]> (log_flag log))
            (log_timing_warning log) (log_timing_error log)).

(** The index of the rows of [df[df[flag].fillna(0) > 0]]. *)
Definition flagged_rows (df : DataFrame) (mask : list bool) : list nat :=
  filter (λ i, default false (mask !! i)) (seq 0 (nrows df)).

(** The body of [for flag in flag_columns]. *)
Definition flag_rows (df : DataFrame) (log : log_data) (flag : string)
  : option log_data :=
  match get df flag with
  | None => Some log
  | Some s =>
      mask ← mask_of Report.is_positive s;
      foldM (λ log i, c ← s !! i; flag_row df flag i c log)
            log (flagged_rows df mask)
  end.

Definition initial_log : log_data :=
  mkLogData (list_to_map
               ((λ flag, ("log_" +:+ flag, [])) <$> report_flag_columns))
            None None.

(** The two loops over [flag_columns] at the head of the function. *)
Definition flag_loop (df : DataFrame) : option log_data :=
  foldM (flag_rows df) initial_log report_flag_columns.

(** The gun-timing flag of row [i], as a number. *)
Definition timing_level (df : DataFrame) (i : nat) : option Q :=
  default None (flag_at df "gun_timing_flag" i ≫= num_of).

(** What row [i] adds to the timing list of the level [level]. *)
Definition row_entries (df : DataFrame) (level : Q) (min_threshold : Q)
    (max_threshold : option Q) (i : nat) : list entry :=
  if Report.equals level (timing_level df i) then
    match matching_guns df (filter (λ c, report_timing_col c) (names df))
                        i min_threshold max_threshold,
          flag_at df "shot_point" i with
    | Some (g :: guns), Some sp => [(sp, g :: guns)]
    | _, _ => []
    end
  else [].

(** What the rows with a positive gun-timing flag add to the timing list
    of the level [level], in the order of the rows. *)
Definition timing_entries (df : DataFrame) (level : Q) (min_threshold : Q)
    (max_threshold : option Q) : list entry :=
  match get df "gun_timing_flag" ≫= mask_of Report.is_positive with
  | Some mask =>
      mjoin (row_entries df level min_threshold max_threshold
               <$> flagged_rows df mask)
  | None => []
  end.

(** The gun-timing flag of row [i] equals [level]. *)
Definition level_is (level : Q) (df : DataFrame) (i : nat) : Prop :=
  ∃ c o, flag_at df "gun_timing_flag" i = Some c
         ∧ num_of c = Some o ∧ Report.equals level o = true.

(** In row [i] the gun-timing column [col], which names the gun [g],
    holds a timing whose absolute value is in the band and is none of
    the codes. *)
Definition gun_in_band (df : DataFrame) (i : nat) (min_threshold : Q)
    (max_threshold : option Q) (col g : string) : Prop :=
  col ∈ names df ∧ report_timing_col col = true ∧ gun_info col = Some g
  ∧ ∃ s c v, get df col = Some s ∧ s !! i = Some c
             ∧ timing_value c = Some v
             ∧ in_band min_threshold max_threshold v = true.

(** The timing list [entries] holds the rows of the level [level] and,
    for each, the guns in the band. *)
Definition lists_level (df : DataFrame) (entries : list entry) (level : Q)
    (min_threshold : Q) (max_threshold : option Q) : Prop :=
  (∀ i col g sp,
     level_is level df i →
     gun_in_band df i min_threshold max_threshold col g →
     flag_at df "shot_point" i = Some sp →
     ∃ e, e ∈ entries ∧ e.1 = sp ∧ g ∈ e.2)
  ∧ (∀ e g, e ∈ entries → g ∈ e.2 →
       ∃ i col, level_is level df i
                ∧ gun_in_band df i min_threshold max_threshold col g
                ∧ flag_at df "shot_point" i = Some e.1)
  ∧ (∀ e, e ∈ entries → e.2 ≠ []).

End FlagLog.

(** ** The window entries of the line log, and what the production filter
     makes of them *)

Module WindowText.
Import Py.

(** [f"SP {start}-{end} ({count} consecutive)"], for integer shot
    points. *)
Definition consec_text (run : Z * Z * Z) : string :=
  "SP " +:+ str run.1.1 +:+ "-" +:+ str run.1.2
  +:+ " (" +:+ str run.2 +:+ " consecutive)".

(** [f"SP {start}-{end}"] *)
Definition window_text (w : Z * Z) : string :=
  "SP " +:+ str w.1 +:+ "-" +:+ str w.2.

(** The window [w] cut down to the shot points from [min_sp] to
    [max_sp]; nothing when it has none of them. *)
Definition clip_window (min_sp max_sp : Z) (w : Z * Z) : option string :=
  if bool_decide (min_sp ≤ w.2) && bool_decide (w.1 ≤ max_sp)
  then Some (window_text (Z.max w.1 min_sp, Z.min w.2 max_sp))
  else None.

End WindowText.

(** * Properties *)

(** ** Facts about the Python built-ins *)

Section PyFacts.
Import Py.

Lemma sorted_Sorted l : Sorted Z.le (sorted l).
Proof. apply (Sorted_merge_sort Z.le). Qed.

Lemma sorted_perm l : sorted l ≡ₚ l.
Proof. apply (merge_sort_Permutation Z.le). Qed.

Lemma sorted_of_perm l l' : l ≡ₚ l' → sorted l = sorted l'.
Proof.
  intros Hp.
  apply (Sorted_unique Z.le _ _ (sorted_Sorted l) (sorted_Sorted l')).
  by rewrite !sorted_perm.
Qed.

Lemma sorted_length l : length (sorted l) = length l.
Proof. apply Permutation_length, sorted_perm. Qed.

End PyFacts.

(** ** The merge loop *)

Section FrameFacts.
Import Frame.

Lemma assoc_get_set_eq name s cols :
  assoc_get name (assoc_set name s cols) = Some s.
Proof.
  induction cols as [|[n old] cols IH]; simpl.
  - by rewrite decide_True.
  - case_decide as Hn; simpl.
    + by rewrite decide_True.
    + by rewrite decide_False.
Qed.

Lemma assoc_get_set_ne name name' s cols :
  name ≠ name' →
  assoc_get name' (assoc_set name s cols) = assoc_get name' cols.
Proof.
  intros Hne. induction cols as [|[n old] cols IH]; simpl.
  - by rewrite decide_False.
  - case_decide as Hn; simpl.
    + subst n. by rewrite !decide_False.
    + case_decide; [done|exact IH].
Qed.

Lemma get_set_column_eq name s df : get (set_column name s df) name = Some s.
Proof. apply assoc_get_set_eq. Qed.

Lemma get_set_column_ne name name' s df :
  name ≠ name' → get (set_column name s df) name' = get df name'.
Proof. apply assoc_get_set_ne. Qed.

Lemma assoc_get_fmap (f : Series → Series) name cols :
  assoc_get name ((λ c, (c.1, f c.2)) <$> cols) = f <$> assoc_get name cols.
Proof.
  induction cols as [|[n s] cols IH]; simpl; [done|].
  case_decide; [done|exact IH].
Qed.

Lemma assoc_get_app_l name cols cols' s :
  assoc_get name cols = Some s → assoc_get name (cols ++ cols') = Some s.
Proof.
  induction cols as [|[n s0] cols IH]; simpl; [done|].
  case_decide; [done|exact IH].
Qed.

Lemma assoc_get_Some_elem name cols s :
  assoc_get name cols = Some s → (name, s) ∈ cols.
Proof.
  induction cols as [|[n s0] cols IH]; simpl; [done|].
  case_decide as Hn.
  - intros [= ->]. subst. by left.
  - intros H. right. by apply IH.
Qed.

Lemma assoc_get_is_Some name cols :
  name ∈ cols.*1 → is_Some (assoc_get name cols).
Proof.
  induction cols as [|[n s0] cols IH]; simpl.
  - by intros ?%elem_of_nil.
  - intros Hin. case_decide as Hn; [by eauto|].
    apply IH. apply elem_of_cons in Hin as [?|?]; [by subst|done].
Qed.

Lemma assoc_get_None name cols :
  name ∉ cols.*1 → assoc_get name cols = None.
Proof.
  induction cols as [|[n s0] cols IH]; simpl; [done|].
  intros Hin. rewrite decide_False.
  - apply IH. intros ?. apply Hin. by right.
  - intros ->. apply Hin. by left.
Qed.

Lemma has_column_get df name :
  has_column df name = true ↔ is_Some (get df name).
Proof.
  unfold has_column, get, names. rewrite bool_decide_eq_true. split.
  - apply assoc_get_is_Some.
  - intros [s Hs]. apply assoc_get_Some_elem in Hs.
    by apply (list_elem_of_fmap_2 fst) in Hs.
Qed.

Lemma get_well_formed df name s :
  well_formed df → get df name = Some s → length s = nrows df.
Proof.
  intros Hwf Hs. apply assoc_get_Some_elem in Hs.
  unfold well_formed in Hwf. rewrite Forall_forall in Hwf.
  by apply (Hwf (name, s)).
Qed.

End FrameFacts.

Section MergeRows.
Import Py Frame NavQC.

Variable to_number : string → option Q.
Variable float_text : Q → string.

Lemma positions_none k rk j :
  (∀ r, r ∈ rk → key_eqb k r = false) → positions k rk j = [].
Proof.
  revert j. induction rk as [|r rk IH]; intros j Hno; simpl; [done|].
  rewrite (Hno r) by by left. apply IH. intros r' Hr'. apply Hno. by right.
Qed.

Lemma key_eqb_eq a b : key_eqb a b = true → a = b.
Proof.
  destruct a, b; simpl; try done. by intros ->%bool_decide_eq_true.
Qed.

Lemma positions_NoDup k rk j :
  NoDup rk → (length (positions k rk j) ≤ 1)%nat.
Proof.
  revert j. induction rk as [|r rk IH]; intros j Hnd; simpl; [lia|].
  apply NoDup_cons in Hnd as [Hr Hnd].
  destruct (key_eqb k r) eqn:Hk; [|by apply IH].
  apply key_eqb_eq in Hk as ->.
  rewrite positions_none; [simpl; lia|].
  intros r' Hr'. destruct (key_eqb r r') eqn:E; [|done].
  apply key_eqb_eq in E as ->. done.
Qed.

Lemma positions_spec k rk j0 j :
  j ∈ positions k rk j0 →
  ∃ r, (j0 ≤ j)%nat ∧ rk !! (j - j0)%nat = Some r ∧ key_eqb k r = true.
Proof.
  revert j0. induction rk as [|r rk IH]; intros j0; simpl.
  - by intros ?%elem_of_nil.
  - destruct (key_eqb k r) eqn:Hk.
    + intros [->|Hin]%elem_of_cons.
      * exists r. rewrite Nat.sub_diag. by repeat split.
      * destruct (IH _ Hin) as (r' & Hle & Hr' & Hk').
        exists r'. split; [lia|]. split; [|done].
        replace (j - j0)%nat with (S (j - S j0)) by lia. done.
    + intros Hin. destruct (IH _ Hin) as (r' & Hle & Hr' & Hk').
      exists r'. split; [lia|]. split; [|done].
      replace (j - j0)%nat with (S (j - S j0)) by lia. done.
Qed.

Lemma match_rows_length lk rk i :
  NoDup rk → length (match_rows lk rk i) = length lk.
Proof.
  intros Hnd. revert i. induction lk as [|k lk IH]; intros i; simpl; [done|].
  rewrite length_app, IH. f_equal.
  pose proof (positions_NoDup k rk 0 Hnd) as Hle.
  destruct (positions k rk 0) as [|j [|j' js]]; simpl in *; lia.
Qed.

(** A left join never has fewer rows than its left side. *)
Lemma match_rows_length_ge lk rk i :
  (length lk ≤ length (match_rows lk rk i))%nat.
Proof.
  revert i. induction lk as [|k lk IH]; intros i; simpl; [lia|].
  rewrite length_app. specialize (IH (S i)).
  destruct (positions k rk 0); simpl; [lia|].
  rewrite length_fmap. lia.
Qed.

Lemma match_rows_unmatched lk rk i0 i k :
  lk !! i = Some k → (∀ r, r ∈ rk → key_eqb k r = false) →
  ((i0 + i)%nat, None) ∈ match_rows lk rk i0.
Proof.
  revert i0 i. induction lk as [|k0 lk IH]; intros i0 i; [done|].
  destruct i as [|i]; simpl.
  - intros [= ->] Hno. rewrite positions_none by done.
    rewrite Nat.add_0_r. by left.
  - intros Hk Hno. apply elem_of_app. right.
    replace (i0 + S i)%nat with (S i0 + i)%nat by lia. by apply IH.
Qed.

Lemma match_rows_matched lk rk i0 i j :
  (i, Some j) ∈ match_rows lk rk i0 →
  ∃ k r, (i0 ≤ i)%nat ∧ lk !! (i - i0)%nat = Some k ∧ rk !! j = Some r
         ∧ key_eqb k r = true.
Proof.
  revert i0. induction lk as [|k0 lk IH]; intros i0; simpl.
  - by intros ?%elem_of_nil.
  - intros [Hin|Hin]%elem_of_app.
    + destruct (positions k0 rk 0) as [|j0 js] eqn:Hpos.
      * apply list_elem_of_singleton in Hin. done.
      * assert ((i, Some j) ∈ (λ j, (i0, Some j)) <$> (j0 :: js)) as Hin'
          by exact Hin.
        apply list_elem_of_fmap in Hin' as (j' & [= -> ->] & Hj').
        rewrite <- Hpos in Hj'.
        apply positions_spec in Hj' as (r & _ & Hr & Hk).
        rewrite Nat.sub_0_r in Hr.
        exists k0, r. rewrite Nat.sub_diag. by repeat split.
    + destruct (IH _ Hin) as (k & r & Hle & Hk & Hr & Heq).
      exists k, r. split; [lia|]. split; [|done].
      replace (i - i0)%nat with (S (i - S i0)) by lia. done.
Qed.

Lemma take_right_unmatched rows s n i :
  rows !! n = Some (i, None) → take_right rows s !! n = Some CNull.
Proof.
  intros Hn. unfold take_right. by rewrite list_lookup_fmap, Hn.
Qed.

Lemma mapM_length {A B} (f : A → option B) l k :
  mapM f l = Some k → length k = length l.
Proof. intros H%mapM_Some. symmetry. by eapply Forall2_length. Qed.

Lemma numeric_Int64_length s s' :
  numeric_Int64 to_number s = Some s' → length s' = length s.
Proof. apply mapM_length. Qed.

Lemma key_text_length s : length (key_text float_text s) = length s.
Proof. unfold key_text. by rewrite length_fmap. Qed.

Lemma key_aligned_set_column df sp :
  length sp = nrows df → key_aligned (set_column "shot_point" sp df).
Proof. intros Hlen. exists sp. by rewrite get_set_column_eq. Qed.

Lemma pd_merge_rows left right name lk rk joined :
  get left "shot_point" = Some lk → get right "shot_point" = Some rk →
  pd_merge left right name = Some joined →
  nrows joined = length (match_rows lk rk 0)
  ∧ get joined "shot_point" = Some (take_left (match_rows lk rk 0) lk).
Proof.
  intros Hl Hr. unfold pd_merge. rewrite Hl, Hr. simpl.
  intros [= <-]. split; [done|]. unfold get. simpl.
  apply assoc_get_app_l.
  rewrite (assoc_get_fmap (take_left (match_rows lk rk 0))).
  unfold get in Hl. by rewrite Hl.
Qed.

Lemma try_merge_rows merged_df name df :
  key_aligned merged_df →
  (∀ ks, join_keys to_number float_text df = Some ks → NoDup ks) →
  ∀ d, (try_merge to_number float_text merged_df name df = inl d
        ∨ try_merge to_number float_text merged_df name df = inr d) →
       key_aligned d ∧ nrows d = nrows merged_df.
Proof.
  intros (sp & Hsp & Hlen) Hnd d. unfold try_merge.
  destruct (get df "shot_point" ≫= numeric_Int64 to_number)
    as [df_sp|] eqn:Hdf.
  2:{ intros [[= <-]|[=]]. split; [by exists sp|done]. }
  rewrite Hsp. simpl.
  destruct (numeric_Int64 to_number sp) as [merged_sp|] eqn:Hm.
  2:{ intros [[= <-]|[=]]. split; [by exists sp|done]. }
  apply numeric_Int64_length in Hm.
  set (left := set_column "shot_point" (key_text float_text merged_sp) merged_df).
  set (right := set_column "shot_point" (key_text float_text df_sp) df).
  assert (key_aligned left) as Hleft.
  { apply key_aligned_set_column. rewrite key_text_length. lia. }
  destruct (pd_merge left right name) as [joined|] eqn:Hj.
  2:{ intros [[= <-]|[=]]. by split. }
  eapply pd_merge_rows in Hj as [Hrows Hkey];
    [|apply get_set_column_eq|apply get_set_column_eq].
  rewrite match_rows_length in Hrows.
  2:{ apply Hnd. unfold join_keys. by rewrite Hdf. }
  rewrite key_text_length in Hrows.
  rewrite Hkey. simpl.
  assert (length (take_left
                    (match_rows (key_text float_text merged_sp)
                       (key_text float_text df_sp) 0)
                    (key_text float_text merged_sp)) = nrows joined) as Htl.
  { unfold take_left. rewrite length_fmap, match_rows_length.
    - rewrite key_text_length. lia.
    - apply Hnd. unfold join_keys. by rewrite Hdf. }
  destruct (numeric_Int64 to_number (take_left _ _)) as [sp'|] eqn:Hsp'.
  - intros [[=]|[= <-]]. split.
    + apply key_aligned_set_column.
      apply numeric_Int64_length in Hsp'. lia.
    + simpl. lia.
  - intros [[= <-]|[=]]. split; [|lia].
    eexists. split; [exact Hkey|exact Htl].
Qed.

Lemma merge_step_rows merged_df entry :
  key_aligned merged_df →
  (∀ ks, join_keys to_number float_text entry.2 = Some ks → NoDup ks) →
  key_aligned (merge_step to_number float_text merged_df entry)
  ∧ nrows (merge_step to_number float_text merged_df entry) = nrows merged_df.
Proof.
  intros Hal Hnd. destruct entry as [name df]. unfold merge_step.
  destruct (negb (empty df) && has_column df "shot_point"); [|done].
  destruct (try_merge to_number float_text merged_df name df) as [d|d] eqn:E;
    eapply try_merge_rows; eauto.
Qed.

Lemma merge_steps_rows secondaries : ∀ merged_df,
  key_aligned merged_df →
  (∀ name df ks, (name, df) ∈ secondaries →
                 join_keys to_number float_text df = Some ks → NoDup ks) →
  nrows (foldl (merge_step to_number float_text) merged_df secondaries)
  = nrows merged_df.
Proof.
  induction secondaries as [|[name df] secs IH]; intros merged_df Hal Hnd;
    [done|]. cbn [foldl].
  destruct (merge_step_rows merged_df (name, df) Hal) as [Hal' Hrows].
  { intros ks. apply (Hnd name df). by left. }
  rewrite IH, Hrows; [done|done|].
  intros name' df' ks Hin. apply (Hnd name' df'). by right.
Qed.

End MergeRows.

Section MergeClaims.
Import Py Frame NavQC.




(** Scenario 1 of the specification. *)
Example merge_scenario_1 :
  merge read_integer (λ _, "")
    (mkDataFrame 3 [("shot_point", [CInt 1001; CInt 1003; CInt 1005])])
    [("eol", mkDataFrame 2 [("shot_point", [CInt 1001; CInt 1005]);
                            ("radial", [CNum 5; CNum 7])])]
  = Some (mkDataFrame 3 [("shot_point", [CInt 1001; CInt 1003; CInt 1005]);
                         ("radial", [CNum 5; CNull; CNum 7])]).
Proof. vm_compute. reflexivity. Qed.

End MergeClaims.

Section FrameAssign.
Import Frame.

Lemma assign_length mask rhs old : length (assign mask rhs old) = length old.
Proof.
  revert mask rhs. induction old as [|o old IH]; intros mask rhs; [done|].
  destruct mask as [|m mask], rhs as [|r rhs]; simpl; try done.
  by rewrite IH.
Qed.

Lemma assign_lookup mask rhs old i :
  assign mask rhs old !! i
  = o ← old !! i;
    match mask !! i, rhs !! i with
    | Some true, Some r => Some r
    | _, _ => Some o
    end.
Proof.
  revert mask rhs i. induction old as [|o old IH]; intros mask rhs i;
    [done|].
  destruct mask as [|m mask], rhs as [|r rhs].
  - cbn [assign]. rewrite !lookup_nil. by destruct (_ !! i).
  - cbn [assign]. rewrite lookup_nil. by destruct (_ !! i).
  - cbn [assign]. rewrite lookup_nil.
    destruct (_ !! i); simpl; [|done]. by destruct (_ !! i) as [[]|].
  - destruct i as [|i]; simpl; [by destruct m|]. apply IH.
Qed.

Lemma assign_ints (P : Z → Prop) mask (rs vals : list Z) :
  Forall P rs → Forall P vals →
  ∃ vals', assign mask (CInt <$> rs) (CInt <$> vals) = CInt <$> vals'
           ∧ length vals' = length vals ∧ Forall P vals'.
Proof.
  intros Hrs Hvals. revert mask rs Hrs.
  induction Hvals as [|v vals Hv Hvals IH]; intros mask rs Hrs.
  - by exists [].
  - destruct mask as [|m mask], rs as [|r rs].
    + exists (v :: vals). by repeat split; try constructor.
    + exists (v :: vals). by repeat split; try constructor.
    + exists (v :: vals). by repeat split; try constructor.
    + apply Forall_cons in Hrs as [Hr Hrs].
      destruct (IH mask rs Hrs) as (vals' & Heq & Hlen & HP).
      exists ((if m then r else v) :: vals'). split.
      { rewrite !fmap_cons. cbn [assign]. rewrite Heq. by destruct m. }
      split; [simpl; lia|]. constructor; [by destruct m|done].
Qed.

Lemma nrows_set_column name s df : nrows (set_column name s df) = nrows df.
Proof. done. Qed.

Lemma nrows_loc_assign mask name rhs df :
  nrows (loc_assign mask name rhs df) = nrows df.
Proof. done. Qed.

Lemma get_loc_assign_eq mask name rhs df :
  get (loc_assign mask name rhs df) name
  = Some (assign mask rhs (default (replicate (nrows df) CNull) (get df name))).
Proof. apply get_set_column_eq. Qed.

Lemma get_loc_assign_ne mask name name' rhs df :
  name ≠ name' → get (loc_assign mask name rhs df) name' = get df name'.
Proof. apply get_set_column_ne. Qed.

Lemma names_assoc_set name s cols n :
  n ∈ (assoc_set name s cols).*1 → n ∈ cols.*1 ∨ n = name.
Proof.
  induction cols as [|[n0 s0] cols IH]; simpl.
  - intros ->%list_elem_of_singleton. by right.
  - case_decide as Hn; simpl.
    + intros H. by left.
    + intros [->|H]%elem_of_cons; [left; by left|].
      destruct (IH H) as [?|?]; [left; by right|by right].
Qed.

Lemma names_set_column name s df n :
  n ∈ names (set_column name s df) → n ∈ names df ∨ n = name.
Proof. apply names_assoc_set. Qed.

Lemma assoc_set_same name s cols :
  assoc_get name cols = Some s → assoc_set name s cols = cols.
Proof.
  induction cols as [|[n0 s0] cols IH]; simpl; [done|].
  case_decide as Hn.
  - by intros [= ->].
  - intros H. by rewrite IH.
Qed.

Lemma set_column_same name s df :
  get df name = Some s → set_column name s df = df.
Proof.
  intros H. unfold set_column. rewrite assoc_set_same by done.
  by destruct df.
Qed.

Lemma mask_of_lookup p s m i :
  mask_of p s = Some m → m !! i = c ← s !! i; p <$> num_of c.
Proof.
  unfold mask_of. intros H%mapM_Some.
  destruct (s !! i) as [c|] eqn:Hc; simpl.
  - destruct (Forall2_lookup_l _ _ _ _ _ H Hc) as (b & Hb & Hpb).
    by rewrite Hb, Hpb.
  - apply lookup_ge_None in Hc. apply lookup_ge_None.
    by rewrite <- (Forall2_length _ _ _ H).
Qed.

Lemma mask_of_is_Some p s :
  Forall (λ c, is_Some (num_of c)) s → is_Some (mask_of p s).
Proof.
  intros Hs. unfold mask_of. apply mapM_is_Some.
  eapply Forall_impl; [exact Hs|]. intros c [o Ho]. unfold compose.
  rewrite Ho. by eexists.
Qed.

Lemma foldM_invariant {A B} (I : A → Prop) (f : A → B → option A) l a :
  I a →
  (∀ a b, b ∈ l → I a → ∃ a', f a b = Some a' ∧ I a') →
  ∃ a', foldM f a l = Some a' ∧ I a'.
Proof.
  revert a. induction l as [|b l IH]; intros a Ha Hstep; simpl.
  - by exists a.
  - destruct (Hstep a b) as (a1 & -> & Ha1); [by left|done|]. simpl.
    apply IH; [done|]. intros a2 b2 Hb2. apply Hstep. by right.
Qed.

Lemma foldM_preserves {A B} (I : A → Prop) (f : A → B → option A) l a a' :
  I a →
  (∀ a b a', f a b = Some a' → I a → I a') →
  foldM f a l = Some a' → I a'.
Proof.
  revert a. induction l as [|b l IH]; intros a Ha Hstep; simpl.
  - by intros [= <-].
  - destruct (f a b) as [a1|] eqn:E; simpl; [|done].
    apply IH; [|done]. by eapply Hstep.
Qed.

End FrameAssign.

(** ** Range compaction *)

Section DetectRange.
Import Py LineLog.

Lemma range_loop_pairs rest : ∀ start end_ ranges,
  range_loop start end_ rest ranges
  = ranges ++ (render_range <$> range_pairs start end_ rest).
Proof.
  induction rest as [|c rest IH]; intros start end_ ranges; simpl; [done|].
  case_decide; rewrite IH; [done|].
  by rewrite <- app_assoc.
Qed.

Lemma expand_range_snoc s e :
  well_formed_range (s, e) →
  expand_range (s, e + 2) = expand_range (s, e) ++ [e + 2].
Proof.
  intros [Hle Hmod]; simpl in *. unfold expand_range; simpl.
  replace ((e + 2 - s) `div` 2 + 1) with (((e - s) `div` 2 + 1) + 1).
  2:{ replace (e + 2 - s) with ((e - s) + 1 * 2) by lia.
      rewrite Z.div_add by lia. lia. }
  rewrite seqZ_app by (try apply Z.add_nonneg_nonneg; try apply Z.div_pos; lia).
  rewrite fmap_app. f_equal. simpl.
  f_equal.
  pose proof (Z.div_mod (e - s) 2 ltac:(lia)). lia.
Qed.

Lemma well_formed_range_step s e :
  well_formed_range (s, e) → well_formed_range (s, e + 2).
Proof.
  intros [Hle Hmod]; simpl in *. split; simpl; [lia|].
  replace (e + 2 - s) with ((e - s) + 1 * 2) by lia.
  by rewrite Z.mod_add by lia.
Qed.

Lemma well_formed_range_single c : well_formed_range (c, c).
Proof. split; simpl; [lia|]. by rewrite Z.sub_diag. Qed.

Lemma expand_range_single c : expand_range (c, c) = [c].
Proof.
  unfold expand_range; simpl. rewrite Z.sub_diag. simpl.
  f_equal. lia.
Qed.

Lemma range_pairs_expand rest : ∀ s e,
  well_formed_range (s, e) →
  mjoin (expand_range <$> range_pairs s e rest) = expand_range (s, e) ++ rest.
Proof.
  induction rest as [|c rest IH]; intros s e Hwf; simpl.
  - by rewrite !app_nil_r.
  - case_decide as Hc.
    + subst c. rewrite IH by by apply well_formed_range_step.
      rewrite expand_range_snoc by done. by rewrite <- app_assoc.
    + simpl. rewrite IH by apply well_formed_range_single.
      by rewrite expand_range_single.
Qed.

Lemma range_pairs_well_formed rest : ∀ s e,
  well_formed_range (s, e) →
  Forall well_formed_range (range_pairs s e rest).
Proof.
  induction rest as [|c rest IH]; intros s e Hwf; simpl.
  - by constructor.
  - case_decide.
    + subst. by apply IH, well_formed_range_step.
    + constructor; [done|]. apply IH, well_formed_range_single.
Qed.

Lemma range_pairs_head rest : ∀ s e,
  ∃ e' tl, range_pairs s e rest = (s, e') :: tl.
Proof.
  induction rest as [|c rest IH]; intros s e; simpl; [by eauto|].
  case_decide; [apply IH | by eauto].
Qed.

Lemma range_pairs_maximal rest : ∀ s e, maximal (range_pairs s e rest).
Proof.
  induction rest as [|c rest IH]; intros s e; simpl; [done|].
  case_decide as Hc; [apply IH|].
  destruct (range_pairs_head rest c c) as (e' & tl & Heq).
  specialize (IH c c). rewrite Heq in *. simpl. by split.
Qed.

End DetectRange.

Section DetectRangeClaims.
Import Py LineLog.

Lemma detect_range_unfold (l : list Z) :
  l ≠ [] →
  ∃ p0 rest,
    sorted l = p0 :: rest ∧
    detect_range l
    = "Total " +:+ str (Z.of_nat (length l)) +:+ " SP. "
      +:+ join ", " (render_range <$> range_pairs p0 p0 rest).
Proof.
  intros Hne. destruct l as [|a l]; [done|].
  destruct (sorted (a :: l)) as [|p0 rest] eqn:Hs.
  { pose proof (sorted_length (a :: l)) as Hlen. by rewrite Hs in Hlen. }
  exists p0, rest. split; [done|].
  unfold detect_range. rewrite Hs. simpl hd. simpl tl.
  rewrite range_loop_pairs. simpl app.
  pose proof (sorted_length (a :: l)) as Hlen. rewrite Hs in Hlen.
  by rewrite Hlen.
Qed.

(** C9: [detect_range([])] is the empty string: no banner, no
    exception. *)
Theorem detect_range_empty : detect_range [] = "".
Proof. reflexivity. Qed.

(** C4: [detect_range] depends only on the multiset of its input.  For a
    non-empty list [l] it returns ["Total <n> SP. <ranges>"], where [n] is
    the length of [l] (duplicates counted), and the ranges, joined by
    [", "], are the maximal runs of the sorted input at step 2: their
    expansions concatenated give back the sorted input, no two neighbours
    could be merged, and a run renders as a bare number when it is a single
    point and as [start-end] otherwise.  On the documented example it
    returns ["Total 8 SP. 1001-1005, 1011-1017, 1031"], and any permutation
    [l'] of [l] gives the same text. *)
Theorem detect_range_order_independent (l l' : list Z) :
  l ≠ [] → l ≡ₚ l' →
  (∃ rs : list (Z * Z),
      detect_range l
      = "Total " +:+ str (Z.of_nat (length l)) +:+ " SP. "
        +:+ join ", " ((λ r, if decide (r.1 = r.2) then str r.1
                             else str r.1 +:+ "-" +:+ str r.2) <$> rs)
      ∧ mjoin (expand_range <$> rs) = sorted l
      ∧ Forall well_formed_range rs
      ∧ maximal rs)
  ∧ Sorted Z.le (sorted l) ∧ sorted l ≡ₚ l
  ∧ detect_range [1001; 1003; 1005; 1011; 1013; 1015; 1017; 1031]
    = "Total 8 SP. 1001-1005, 1011-1017, 1031"
  ∧ detect_range l' = detect_range l.
Proof.
  intros Hne Hperm. split; [|split; [|split; [|split]]].
  - destruct (detect_range_unfold l Hne) as (p0 & rest & Hs & Hd).
    exists (range_pairs p0 p0 rest). split; [exact Hd|]. split; [|split].
    + rewrite range_pairs_expand by apply well_formed_range_single.
      by rewrite expand_range_single, Hs.
    + apply range_pairs_well_formed, well_formed_range_single.
    + apply range_pairs_maximal.
  - apply sorted_Sorted.
  - apply sorted_perm.
  - vm_compute. reflexivity.
  - assert (l' ≠ []) as Hne'.
    { intros ->. by apply Permutation_nil_r in Hperm. }
    destruct (detect_range_unfold l Hne) as (p0 & rest & Hs & ->).
    destruct (detect_range_unfold l' Hne') as (p0' & rest' & Hs' & ->).
    rewrite <- (sorted_of_perm l l' Hperm), Hs in Hs'.
    injection Hs' as <- <-.
    by rewrite (Permutation_length Hperm).
Qed.

Lemma detect_range_order_independent_witness :
  detect_range [1001; 1005; 1003] = detect_range [1005; 1003; 1001].
Proof.
  refine (proj2 (proj2 (proj2 (proj2
    (detect_range_order_independent [1005; 1003; 1001] [1001; 1005; 1003]
       _ _))))).
  - discriminate.
  - apply perm_trans with [1005; 1001; 1003].
    + apply perm_skip, perm_swap.
    + apply perm_swap.
Defined.

End DetectRangeClaims.

(** ** Missing shot points *)

Section MissingShotPoints.
Import Py NavQC Validator.

Lemma adjacent_sorted (l : list Z) :
  Sorted Z.le l → Forall (λ p, p.1 ≤ p.2) (adjacent l).
Proof.
  induction 1 as [|a l Hs IH Hhd]; [constructor|].
  destruct Hhd as [|b l Hab]; simpl; [constructor|].
  constructor; [exact Hab | exact IH].
Qed.

Lemma Forall2_fmap_same {A B} (f : A → B) (P : A → B → Prop) (l : list A) :
  Forall (λ a, P a (f a)) l → Forall2 P l (f <$> l).
Proof. induction 1; simpl; constructor; auto. Qed.

Lemma range_up2_cadence (c n : Z) :
  range_up2 (c + 2) n = (λ k, c + 2 * k) <$> seqZ 1 ((n - c - 1) `div` 2).
Proof.
  unfold range_up2.
  replace (n - (c + 2) + 1) with (n - c - 1) by lia.
  rewrite <- (fmap_add_seqZ 1 0), <- list_fmap_compose.
  apply list_fmap_ext. intros _ k _. simpl. lia.
Qed.

Lemma elem_of_cadence (c n x : Z) :
  x ∈ (λ k, c + 2 * k) <$> seqZ 1 ((n - c - 1) `div` 2)
  ↔ ∃ k, 1 ≤ k ∧ x = c + 2 * k ∧ x < n.
Proof.
  rewrite list_elem_of_fmap. split.
  - intros (k & -> & Hk). apply elem_of_seqZ in Hk.
    exists k. split; [lia|]. split; [done|].
    pose proof (Z.div_mod (n - c - 1) 2 ltac:(lia)) as Hdm.
    pose proof (Z.mod_pos_bound (n - c - 1) 2 ltac:(lia)). lia.
  - intros (k & Hk & -> & Hlt). exists k. split; [done|].
    apply elem_of_seqZ.
    pose proof (Z.div_mod (n - c - 1) 2 ltac:(lia)) as Hdm.
    pose proof (Z.mod_pos_bound (n - c - 1) 2 ltac:(lia)). lia.
Qed.

(** C3, on [QCValidator.check_missing_shot_points]: the documented
    example does not give [[1005, 1007]], and a pair of neighbours two
    apart is reported as a miss. *)
Lemma check_missing_shot_points_differs :
  check_missing_shot_points (Some [1001; 1003; 1009; 1011]) ≠ [1005; 1007]
  ∧ check_missing_shot_points (Some [1001; 1003]) ≠ [].
Proof. split; vm_compute; discriminate. Qed.

(** C3, as the code has it.  [check_sp], which the pipeline runs, sorts
    the shot points and lets every pair of neighbours [(c, n)] contribute
    on its own: nothing when [n - c <= 2], and when [n - c > 2] exactly the
    values [c + 2, c + 4, ...] below [n], in ascending order; on
    [[1001, 1003, 1009, 1011]] it returns [[1005, 1007]].
    [QCValidator.check_missing_shot_points] sorts too, but a pair
    contributes nothing only when [n - c <= 1] and otherwise every integer
    strictly between [c] and [n]; on the same input it returns
    [[1002, 1004, 1005, 1006, 1007, 1008, 1010]]. *)
Theorem missing_shot_points (l : list Z) :
  (∃ contrib : list (list Z),
      check_sp l = mjoin contrib ∧
      Forall2 (λ p missed,
                 p.1 ≤ p.2
                 ∧ (p.2 - p.1 ≤ 2 → missed = [])
                 ∧ (2 < p.2 - p.1 →
                    missed = ((λ k, p.1 + 2 * k)
                                <$> seqZ 1 ((p.2 - p.1 - 1) `div` 2))
                    ∧ ∀ x, x ∈ missed
                           ↔ ∃ k, 1 ≤ k ∧ x = p.1 + 2 * k ∧ x < p.2))
              (adjacent (sorted l)) contrib)
  ∧ check_sp [1001; 1003; 1009; 1011] = [1005; 1007]
  ∧ (∃ contrib : list (list Z),
        check_missing_shot_points (Some l) = mjoin contrib ∧
        Forall2 (λ p missed,
                   p.1 ≤ p.2
                   ∧ (p.2 - p.1 ≤ 1 → missed = [])
                   ∧ (1 < p.2 - p.1 →
                      missed = seqZ (p.1 + 1) (p.2 - p.1 - 1)
                      ∧ ∀ x, x ∈ missed ↔ p.1 < x < p.2))
                (adjacent (sorted l)) contrib)
  ∧ check_missing_shot_points (Some [1001; 1003; 1009; 1011])
    = [1002; 1004; 1005; 1006; 1007; 1008; 1010].
Proof.
  split; [|split; [|split]].
  - eexists. split; [reflexivity|].
    apply Forall2_fmap_same.
    eapply Forall_impl; [apply adjacent_sorted, sorted_Sorted|].
    intros [c n] Hle; simpl in *. unfold missed_between; simpl.
    split; [done|]. split.
    + intros Hgap.
      destruct (2 <? Z.abs (n - c)) eqn:Hb; [|done].
      apply Z.ltb_lt in Hb. lia.
    + intros Hgap.
      assert ((2 <? Z.abs (n - c)) = true) as -> by (apply Z.ltb_lt; lia).
      assert ((0 <? n - c) = true) as -> by (apply Z.ltb_lt; lia).
      rewrite range_up2_cadence. split; [done|].
      intros x. apply elem_of_cadence.
  - vm_compute. reflexivity.
  - eexists. split; [reflexivity|].
    apply Forall2_fmap_same.
    eapply Forall_impl; [apply adjacent_sorted, sorted_Sorted|].
    intros [c n] Hle; simpl in *.
    split; [done|]. split.
    + intros Hgap.
      destruct (1 <? n - c) eqn:Hb; [|done].
      apply Z.ltb_lt in Hb. lia.
    + intros Hgap.
      assert ((1 <? n - c) = true) as -> by (apply Z.ltb_lt; lia).
      unfold range1. replace (n - (c + 1)) with (n - c - 1) by lia.
      split; [done|].
      intros x. rewrite elem_of_seqZ. lia.
  - vm_compute. reflexivity.
Qed.

End MissingShotPoints.

(** ** The shot-point order scan on short inputs *)

Section SpSorting.
Import Frame Report.

(** C10: [detect_sp_sorting] returns the empty issue list, without
    raising, for every frame that has no [shot_point] column, or has two
    rows or fewer, or has fewer than three non-null shot points. *)
Theorem detect_sp_sorting_short (df : DataFrame) :
  has_column df "shot_point" = false
  ∨ (nrows df ≤ 2)%nat
  ∨ (∃ col, get df "shot_point" = Some col ∧ (length (dropna col) < 3)%nat) →
  detect_sp_sorting df = Some [].
Proof.
  intros H. unfold detect_sp_sorting.
  destruct (has_column df "shot_point") eqn:Hcol; simpl; [|done].
  case_bool_decide as Hrows; simpl; [|done].
  destruct H as [H|[H|(col & Hget & Hshort)]]; [done|lia|].
  rewrite Hget. simpl.
  by rewrite bool_decide_eq_true_2.
Qed.

Lemma detect_sp_sorting_short_witness :
  detect_sp_sorting
    (mkDataFrame 4 [("shot_point", [CInt 1005; CNull; CNull; CInt 1001])])
  = Some [].
Proof.
  apply detect_sp_sorting_short. right. right.
  exists [CInt 1005; CNull; CNull; CInt 1001]. split; [reflexivity|].
  vm_compute. lia.
Defined.

End SpSorting.

(** ** Production-range filtering of the log entries *)

Section FilterLog.
Import Py LineLog.

Lemma mapM_SInt (sps : list Z) :
  mapM (λ it, match it with SInt n => Some n | SStr _ => None end)
       (SInt <$> sps) = Some sps.
Proof.
  apply mapM_Some. induction sps; simpl; constructor; auto.
Qed.

Lemma omap_clip_SInt (lo hi : Z) (sps : list Z) :
  omap (clip_item lo hi) (SInt <$> sps)
  = SInt <$> filter (λ sp, sp < 0 ∨ lo ≤ sp ≤ hi) sps.
Proof.
  induction sps as [|n sps IH]; [done|].
  rewrite fmap_cons, filter_cons. cbn [omap list_omap clip_item].
  rewrite IH. unfold in_range.
  destruct (n <? 0) eqn:Hn.
  - apply Z.ltb_lt in Hn. rewrite decide_True by auto. done.
  - apply Z.ltb_ge in Hn. case_bool_decide.
    + rewrite decide_True by auto. done.
    + rewrite decide_False by lia. done.
Qed.

Lemma filter_in_range (lo hi : Z) (sps : list Z) :
  filter (λ sp, in_range lo hi sp) sps = filter (λ sp, lo ≤ sp ≤ hi) sps.
Proof.
  apply list_filter_iff. intros sp. unfold in_range.
  by rewrite bool_decide_spec.
Qed.

Lemma filter_in_range_tuples (lo hi : Z) (ts : list (Z * list string)) :
  filter (λ t, in_range lo hi t.1) ts = filter (λ t, lo ≤ t.1 ≤ hi) ts.
Proof.
  apply list_filter_iff. intros t. unfold in_range.
  by rewrite bool_decide_spec.
Qed.

Lemma keep_if_nonempty_truthy {A} (wrap : list A → value) (l : list A) v :
  (∀ l', l' ≠ [] → truthy (wrap l') = true) →
  keep_if_nonempty wrap l = Some v → truthy v = true.
Proof.
  intros Hw. destruct l as [|a l]; [done|].
  intros [= <-]. by apply Hw.
Qed.

Lemma filter_value_truthy lo hi k v v' :
  filter_value lo hi k v = Some (Some v') → truthy v' = true.
Proof.
  unfold filter_value. destruct (truthy v) eqn:Htr; simpl; [|done].
  destruct v as [s|ts|items|n].
  - by intros [= <-].
  - intros [= Heq]. revert Heq. apply keep_if_nonempty_truthy.
    intros l' Hl'. simpl. by rewrite bool_decide_eq_false_2.
  - case_bool_decide.
    + intros [= Heq]. revert Heq. apply keep_if_nonempty_truthy.
      intros l' Hl'. simpl. by rewrite bool_decide_eq_false_2.
    + destruct (mapM _ items); simpl; [|done].
      intros [= Heq]. revert Heq. apply keep_if_nonempty_truthy.
      intros l' Hl'. simpl. by rewrite bool_decide_eq_false_2.
  - by intros [= <-].
Qed.

Lemma filter_value_total lo hi (log_data : gmap string value) k v :
  lists_hold_shot_points log_data → log_data !! k = Some v →
  is_Some (filter_value lo hi k v).
Proof.
  intros Hwt Hk. unfold filter_value.
  destruct (truthy v); simpl; [|by eauto].
  destruct v as [s|ts|items|n]; try by eauto.
  case_bool_decide as Hkey; [by eauto|].
  specialize (Hwt k items Hk Hkey).
  assert (∃ sps, items = SInt <$> sps) as [sps ->].
  { clear Hk. induction Hwt as [|it items [n ->] _ [sps ->]].
    - by exists [].
    - by exists (n :: sps). }
  rewrite mapM_SInt. simpl. by eauto.
Qed.

Lemma filter_lookup (log_data : gmap string value) f l m' k :
  _filter_log_data_by_range log_data (Some f) (Some l) = Some m' →
  m' !! k = log_data !! k ≫= λ v, mjoin (filter_value (Z.min f l) (Z.max f l) k v).
Proof.
  unfold _filter_log_data_by_range. case_decide as Hempty.
  - intros [= <-]. subst. by rewrite lookup_empty.
  - case_decide; [|done]. intros [= <-]. by rewrite map_lookup_imap.
Qed.




End FilterLog.

(** ** Gun timing *)

Section GunTiming.
Import Py Frame Validator.

Variable th : QCThresholds.

Lemma mapM_maximum1_lookup current raised i :
  mapM maximum1 current = Some raised →
  raised !! i = c ← current !! i; maximum1 c.
Proof.
  intros H%mapM_Some.
  destruct (current !! i) as [c|] eqn:Hc; simpl.
  - destruct (Forall2_lookup_l _ _ _ _ _ H Hc) as (b & Hb & Hpb).
    by rewrite Hb, Hpb.
  - apply lookup_ge_None in Hc. apply lookup_ge_None.
    by rewrite <- (Forall2_length _ _ _ H).
Qed.

Lemma warning_write_keeps_error df col df' i :
  warning_write th df col = Some df' →
  flag_at df "gun_timing_flag" i = Some (CInt 2) →
  flag_at df' "gun_timing_flag" i = Some (CInt 2).
Proof.
  unfold warning_write, flag_at.
  destruct (get df "gun_timing_flag") as [current|] eqn:Hcur; simpl; [|done].
  destruct (mapM maximum1 current) as [raised|] eqn:Hr; simpl; [|done].
  destruct (get df col) as [s|]; simpl; [|done].
  destruct (mask_of _ s) as [mask|]; simpl; [|done].
  intros [= <-] Hi. rewrite get_loc_assign_eq, Hcur. simpl.
  rewrite assign_lookup, Hi. simpl.
  rewrite (mapM_maximum1_lookup _ _ _ Hr), Hi. simpl.
  by destruct (mask !! i) as [[]|].
Qed.

Lemma error_write_keeps_error df col df' i :
  error_write th df col = Some df' →
  flag_at df "gun_timing_flag" i = Some (CInt 2) →
  flag_at df' "gun_timing_flag" i = Some (CInt 2).
Proof.
  unfold error_write, flag_at.
  destruct (get df col) as [s|]; simpl; [|done].
  destruct (mask_of _ s) as [mask|]; simpl; [|done].
  intros [= <-] Hi. unfold loc_set. rewrite get_loc_assign_eq.
  destruct (get df "gun_timing_flag") as [current|] eqn:Hcur; [|done].
  simpl in *. rewrite assign_lookup, Hi. simpl.
  destruct (mask !! i) as [[]|]; try done.
  destruct (replicate (nrows df) (CInt 2) !! i) as [c|] eqn:Hc; [|done].
  by apply lookup_replicate in Hc as [-> _].
Qed.

Lemma timing_column_step_keeps_error df col df' i :
  timing_column_step th df col = Some df' →
  flag_at df "gun_timing_flag" i = Some (CInt 2) →
  flag_at df' "gun_timing_flag" i = Some (CInt 2).
Proof.
  unfold timing_column_step.
  destruct (warning_write th df col) as [df1|] eqn:Hw; simpl; [|done].
  intros He Hi. eapply error_write_keeps_error; [exact He|].
  by eapply warning_write_keeps_error.
Qed.

End GunTiming.
(** ** Gun column names *)

Section GunColumns.
Import Py Frame Validator.

Lemma app_String c s t : String c s +:+ t = String c (s +:+ t).
Proof. done. Qed.

Lemma string_app_assoc x y z : (x +:+ y) +:+ z = x +:+ (y +:+ z).
Proof. induction x as [|ch x IH]; [done|]. by rewrite !app_String, IH. Qed.

Lemma prefix_app n y : String.prefix n (n +:+ y) = true.
Proof.
  induction n as [|c n IH]; simpl; [by destruct y|].
  destruct (Ascii.ascii_dec c c); [exact IH|done].
Qed.

Lemma contains_unfold n s :
  contains n s
  = String.prefix n s
    || match s with EmptyString => false | String _ s' => contains n s' end.
Proof. by destruct s. Qed.

Lemma contains_app n x y : contains n (x +:+ n +:+ y) = true.
Proof.
  induction x as [|c x IH].
  - change (EmptyString +:+ n +:+ y) with (n +:+ y).
    rewrite contains_unfold, prefix_app. done.
  - rewrite app_String. simpl. rewrite IH. apply orb_true_r.
Qed.

Lemma contains_String n c s : contains n s = true → contains n (String c s) = true.
Proof. intros H. simpl. rewrite H. apply orb_true_r. Qed.

Lemma free_of_app ch x y : free_of ch (x +:+ y) = free_of ch x && free_of ch y.
Proof.
  induction x as [|c x IH]; [done|].
  rewrite app_String. simpl. rewrite IH. by rewrite andb_assoc.
Qed.

Lemma all_digits_free_of ch d :
  is_digit ch = false → all_digits d = true → free_of ch d = true.
Proof.
  intros Hch. induction d as [|c d IH]; [done|]. simpl.
  intros [Hc Hd]%andb_true_iff. rewrite IH by done.
  rewrite bool_decide_eq_false_2; [done|]. intros ->. congruence.
Qed.

Lemma split_free sep x : free_of sep x = true → split sep x = [x].
Proof.
  induction x as [|c x IH]; [done|]. simpl.
  intros [Hc Hx]%andb_true_iff. apply negb_true_iff, bool_decide_eq_false in Hc.
  rewrite decide_False by done. by rewrite IH.
Qed.

Lemma split_app sep x rest :
  free_of sep x = true →
  split sep (x +:+ String sep rest) = x :: split sep rest.
Proof.
  induction x as [|c x IH].
  - intros _. simpl. by rewrite decide_True.
  - simpl. intros [Hc Hx]%andb_true_iff.
    apply negb_true_iff, bool_decide_eq_false in Hc.
    rewrite decide_False by done. by rewrite IH.
Qed.

Lemma replace_app a b x y :
  replace a b (x +:+ y) = replace a b x +:+ replace a b y.
Proof. induction x as [|c x IH]; [done|]. simpl. by rewrite IH. Qed.

Lemma replace_free a b x : free_of a x = true → replace a b x = x.
Proof.
  induction x as [|c x IH]; [done|]. simpl.
  intros [Hc Hx]%andb_true_iff.
  apply negb_true_iff, bool_decide_eq_false in Hc.
  rewrite decide_False by done. by rewrite IH.
Qed.

Lemma strip_prefix_app p s : strip_prefix p (p +:+ s) = Some s.
Proof.
  induction p as [|c p IH]; [done|]. simpl. by rewrite decide_True.
Qed.

Lemma span_digits_app d r :
  all_digits d = true →
  (match r with String ch _ => is_digit ch = false | EmptyString => True end) →
  span_digits (d +:+ r) = (d, r).
Proof.
  intros Hd Hr. induction d as [|c d IH].
  - simpl. destruct r as [|ch r]; [done|]. simpl. by rewrite Hr.
  - simpl in Hd. apply andb_true_iff in Hd as [Hc Hd].
    rewrite app_String. simpl. rewrite Hc, IH by done. done.
Qed.

Lemma last_char_app x y : y ≠ "" → last_char (x +:+ y) = last_char y.
Proof.
  intros Hy. induction x as [|c x IH]; [done|].
  rewrite app_String. simpl. rewrite IH.
  destruct (x +:+ y) eqn:E; [|done].
  destruct x, y; done.
Qed.

Lemma ends_with_suffix suf s :
  ends_with suf s = true → ∃ x, s = x +:+ suf.
Proof.
  induction s as [|c s IH]; simpl.
  - rewrite orb_false_r. intros ->%bool_decide_eq_true. by exists "".
  - intros [->%bool_decide_eq_true|H]%orb_true_iff.
    + by exists "".
    + destruct (IH H) as [x ->]. by exists (String c x).
Qed.

Lemma last_char_digit d :
  decimal d → ∃ ch, last_char d = Some ch ∧ is_digit ch = true.
Proof.
  intros [Hne Hd]. induction d as [|c d IH]; [done|].
  simpl in Hd. apply andb_true_iff in Hd as [Hc Hd].
  destruct d as [|c' d]; [by exists c|].
  destruct IH as (ch & Hch & Hdig); [done|done|].
  exists ch. by split.
Qed.

Lemma ends_with_digit suf s ch ch' :
  suf ≠ "" → last_char suf = Some ch' → is_digit ch' = false →
  last_char s = Some ch → is_digit ch = true →
  ends_with suf s = false.
Proof.
  intros Hne Hsuf Hch' Hs Hch.
  destruct (ends_with suf s) eqn:E; [|done].
  apply ends_with_suffix in E as [x ->].
  rewrite last_char_app in Hs by done. congruence.
Qed.

Section Names.
Variables a b c : string.
Hypothesis Ha : decimal a.
Hypothesis Hb : decimal b.
Hypothesis Hc : decimal c.

Lemma gun_column_last :
  ∃ ch, last_char (gun_column a b c) = Some ch ∧ is_digit ch = true.
Proof.
  destruct (last_char_digit c Hc) as (ch & Hch & Hdig).
  exists ch. split; [|done]. unfold gun_column.
  destruct Hc as [Hne _].
  repeat (rewrite last_char_app;
          [|first [exact Hne | by destruct a | by destruct b | done]]).
  done.
Qed.

Lemma gun_column_matches : matches_base_pattern (gun_column a b c) = true.
Proof.
  destruct Ha as [Hane Had], Hb as [Hbne Hbd], Hc as [Hcne Hcd].
  unfold matches_base_pattern, gun_column.
  rewrite strip_prefix_app.
  rewrite (span_digits_app a) by done.
  rewrite strip_prefix_app.
  rewrite (span_digits_app b) by done.
  rewrite strip_prefix_app.
  replace c with (c +:+ "") at 1
    by (clear; induction c as [|? ? IH]; [done|by rewrite app_String, IH]).
  rewrite (span_digits_app c "") by done.
  rewrite !bool_decide_eq_false_2 by done.
  by rewrite bool_decide_eq_true_2.
Qed.

Lemma gun_column_no_suffix suf ch' :
  suf ≠ "" → last_char suf = Some ch' → is_digit ch' = false →
  ends_with suf (gun_column a b c) = false.
Proof.
  intros Hne Hsuf Hch'.
  destruct gun_column_last as (ch & Hch & Hdig).
  by eapply ends_with_digit.
Qed.

Lemma gun_column_is_timing_col : is_timing_col (gun_column a b c) = true.
Proof.
  unfold is_timing_col. rewrite gun_column_matches.
  by rewrite (gun_column_no_suffix "-Depth" "h"),
    (gun_column_no_suffix "-Pressure" "e").
Qed.

Lemma gun_column_report_timing_col :
  report_timing_col (gun_column a b c) = true.
Proof.
  unfold report_timing_col.
  rewrite (gun_column_no_suffix "-Depth" "h"),
    (gun_column_no_suffix "-Pressure" "e") by done.
  unfold gun_column.
  assert (starts_with "String" ("String_" +:+ a +:+ "-Cluster_" +:+ b
                                 +:+ "-Gun_" +:+ c) = true) as ->.
  { reflexivity. }
  assert (contains "Cluster" ("String_" +:+ a +:+ "-Cluster_" +:+ b
                               +:+ "-Gun_" +:+ c) = true) as ->.
  { replace ("String_" +:+ a +:+ "-Cluster_" +:+ b +:+ "-Gun_" +:+ c)
      with (("String_" +:+ a +:+ "-") +:+ "Cluster"
            +:+ ("_" +:+ b +:+ "-Gun_" +:+ c));
      [apply contains_app|].
    rewrite !string_app_assoc. reflexivity. }
  assert (contains "Gun" ("String_" +:+ a +:+ "-Cluster_" +:+ b
                           +:+ "-Gun_" +:+ c) = true) as ->; [|done].
  replace ("String_" +:+ a +:+ "-Cluster_" +:+ b +:+ "-Gun_" +:+ c)
    with (("String_" +:+ a +:+ "-Cluster_" +:+ b +:+ "-") +:+ "Gun"
          +:+ ("_" +:+ c));
    [apply contains_app|].
  rewrite !string_app_assoc. reflexivity.
Qed.

Lemma gun_column_info :
  gun_info (gun_column a b c)
  = Some ("String " +:+ a +:+ " Cluster " +:+ b +:+ " Gun " +:+ c).
Proof.
  destruct Ha as [Hane Had], Hb as [Hbne Hbd], Hc as [Hcne Hcd].
  assert (∀ ch d, is_digit ch = false → all_digits d = true →
                  free_of ch d = true) as Hfree
    by (intros; by apply all_digits_free_of).
  unfold gun_info, gun_column.
  change ("String_" +:+ a +:+ "-Cluster_" +:+ b +:+ "-Gun_" +:+ c)
    with ("String_" +:+ (a +:+ String "-" ("Cluster_" +:+ b +:+ "-Gun_" +:+ c))).
  pose proof (λ x y z, eq_sym (string_app_assoc x y z)) as Hassoc.
  rewrite (Hassoc "String_" a).
  rewrite split_app by (rewrite free_of_app, (Hfree "-"%char a); done).
  change ("Cluster_" +:+ b +:+ "-Gun_" +:+ c)
    with ("Cluster_" +:+ (b +:+ String "-" ("Gun_" +:+ c))).
  rewrite (Hassoc "Cluster_" b).
  rewrite split_app by (rewrite free_of_app, (Hfree "-"%char b); done).
  rewrite split_free by (rewrite free_of_app, (Hfree "-"%char c); done).
  rewrite !replace_app.
  rewrite !(replace_free "_" " " a), !(replace_free "_" " " b),
    !(replace_free "_" " " c) by (by apply Hfree).
  apply (f_equal Some). rewrite !string_app_assoc. reflexivity.
Qed.

  End Names.

End GunColumns.
(** ** Sentinel codes and the misfire log *)

Section Sentinels.
Import Py Frame Validator.

Variable th : QCThresholds.

Lemma timing_mask_sentinel limit v :
  (v == 63 ∨ v == 61 ∨ v == 90)%Q → timing_mask limit (Some v) = false.
Proof.
  intros H. unfold timing_mask.
  destruct H as [H|[H|H]]; apply Qeq_eq_bool in H; rewrite H; simpl;
    by rewrite ?andb_false_r.
Qed.

Lemma loc_assign_unmasked mask name rhs df i current :
  get df name = Some current →
  mask !! i = Some false →
  flag_at (loc_assign mask name rhs df) name i = flag_at df name i.
Proof.
  intros Hcur Hm. unfold flag_at.
  rewrite get_loc_assign_eq, Hcur. simpl.
  rewrite assign_lookup, Hm. by destruct (current !! i).
Qed.

Lemma sentinel_mask limit s mask i c v :
  mask_of (timing_mask limit) s = Some mask →
  s !! i = Some c → num_of c = Some (Some v) →
  (v == 63 ∨ v == 61 ∨ v == 90)%Q →
  mask !! i = Some false.
Proof.
  intros Hmask Hc Hv Hs.
  rewrite (mask_of_lookup _ _ _ i Hmask), Hc.
  change (timing_mask limit <$> num_of c = Some false). rewrite Hv.
  change (Some (timing_mask limit (Some v)) = Some false).
  by rewrite timing_mask_sentinel.
Qed.

Lemma timing_step_sentinel df col df' i s c v :
  col ≠ "gun_timing_flag" →
  get df col = Some s → s !! i = Some c → num_of c = Some (Some v) →
  (v == 63 ∨ v == 61 ∨ v == 90)%Q →
  timing_column_step th df col = Some df' →
  flag_at df' "gun_timing_flag" i = flag_at df "gun_timing_flag" i.
Proof.
  intros Hne Hs Hc Hv Hsent. unfold timing_column_step, warning_write.
  destruct (get df "gun_timing_flag") as [current|] eqn:Hcur; simpl; [|done].
  destruct (mapM maximum1 current) as [raised|]; simpl; [|done].
  rewrite Hs. simpl.
  destruct (mask_of _ s) as [wmask|] eqn:Hw; simpl; [|done].
  unfold error_write. rewrite get_loc_assign_ne by done. rewrite Hs. simpl.
  destruct (mask_of (timing_mask (timing_error th)) s) as [emask|] eqn:He;
    simpl; [|done].
  intros [= <-]. unfold loc_set.
  erewrite loc_assign_unmasked;
    [|apply get_loc_assign_eq|by eapply sentinel_mask].
  erewrite loc_assign_unmasked; [done|exact Hcur|by eapply sentinel_mask].
Qed.

Lemma cell_eqb_refl c : cell_eqb c c = true.
Proof.
  destruct c; simpl; try done; try apply Qeq_bool_refl.
  by apply bool_decide_eq_true.
Qed.

Lemma append_new_mono e log e' : e' ∈ log → e' ∈ append_new e log.
Proof.
  intros H. unfold append_new. destruct (existsb _ log); [done|].
  apply elem_of_app. by left.
Qed.

Lemma append_new_has (sp : cell) guns log :
  ∃ e, e ∈ append_new (sp, guns) log ∧ cell_eqb sp e.1 = true ∧ e.2 = guns.
Proof.
  unfold append_new. destruct (existsb _ log) eqn:E.
  - apply existsb_exists in E as (e & Hin & Heq).
    apply andb_true_iff in Heq as [Hsp Hguns]. simpl in *.
    apply bool_decide_eq_true in Hguns.
    exists e. split; [by apply list_elem_of_In|]. by split.
  - exists (sp, guns). split; [apply elem_of_app; right; by left|].
    split; [apply cell_eqb_refl|done].
Qed.

Section Rows.
Variable df : DataFrame.
Hypothesis Hwf : well_formed df.
Hypothesis Hnum :
  ∀ col s, get df col = Some s → report_timing_col col = true → numeric s.

Local Abbreviation misfire_at := (misfire_at df).

Lemma row_guns_fold i timing_cols : ∀ acc,
  (i < nrows df)%nat →
  (∀ col, col ∈ timing_cols →
          col ∈ names df ∧ report_timing_col col = true) →
  ∃ res,
    foldM (λ acc col,
             s ← get df col;
             c ← s !! i;
             v ← timing_value c;
             if Qeq_bool v 90
             then Some (acc.1 ++ option_list (gun_info col), acc.2)
             else if Qeq_bool v 61
             then Some (acc.1, acc.2 ++ option_list (gun_info col))
             else Some acc)
          acc timing_cols = Some res
    ∧ (∀ g, g ∈ acc.1 → g ∈ res.1)
    ∧ (∀ col g, col ∈ timing_cols → misfire_at col i →
                gun_info col = Some g → g ∈ res.1).
Proof.
  intros acc Hi Hcols. revert acc.
  induction timing_cols as [|col cols IH]; intros acc.
  - exists acc. split; [done|]. split; [done|].
    intros col g Hin. by apply elem_of_nil in Hin.
  - destruct (Hcols col) as [Hin Hrep]; [by left|].
    destruct (assoc_get_is_Some col (columns df) Hin) as [s Hs].
    fold (get df col) in Hs.
    assert (length s = nrows df) as Hlen by by eapply get_well_formed.
    destruct (lookup_lt_is_Some_2 s i) as [c Hc]; [lia|].
    pose proof (Hnum col s Hs Hrep) as Hnums.
    unfold numeric in Hnums. rewrite Forall_lookup in Hnums.
    destruct (Hnums i c Hc) as [o Ho].
    assert (timing_value c = Some (Qabs (fillna0 o))) as Hv
      by (unfold timing_value; by rewrite Ho).
    cbn [foldM]. rewrite Hs. simpl. rewrite Hc. simpl. rewrite Hv. simpl.
    destruct (Qeq_bool (Qabs (fillna0 o)) 90) eqn:E90.
    + simpl.
      destruct (IH (λ col' Hin', Hcols col' (list_elem_of_further _ _ _ Hin'))
                   (acc.1 ++ option_list (gun_info col), acc.2))
        as (res & Hres & Hacc & Hmis).
      exists res. split; [done|]. split.
      * intros g Hg. apply Hacc. simpl. apply elem_of_app. by left.
      * intros col' g [->|Hin']%elem_of_cons Hm Hg; [|by eapply Hmis].
        apply Hacc. simpl. apply elem_of_app. right.
        rewrite Hg. by left.
    + assert (misfire_at col i → False) as Hnot.
      { intros (s' & c' & v' & Hs' & Hc' & Hv' & H90).
        rewrite Hs in Hs'. injection Hs' as <-.
        rewrite Hc in Hc'. injection Hc' as <-.
        rewrite Hv in Hv'. injection Hv' as <-. congruence. }
      destruct (Qeq_bool (Qabs (fillna0 o)) 61); simpl.
      * destruct (IH (λ col' Hin', Hcols col' (list_elem_of_further _ _ _ Hin'))
                     (acc.1, acc.2 ++ option_list (gun_info col)))
          as (res & Hres & Hacc & Hmis).
        exists res. split; [done|]. split; [done|].
        intros col' g [->|Hin']%elem_of_cons Hm Hg; [|by eapply Hmis].
        by destruct Hnot.
      * destruct (IH (λ col' Hin', Hcols col' (list_elem_of_further _ _ _ Hin'))
                     acc) as (res & Hres & Hacc & Hmis).
        exists res. split; [by destruct acc|]. split; [done|].
        intros col' g [->|Hin']%elem_of_cons Hm Hg; [|by eapply Hmis].
        by destruct Hnot.
Qed.

Lemma row_guns_total i :
  (i < nrows df)%nat →
  ∃ guns, row_guns df (filter (λ c, report_timing_col c) (names df)) i
          = Some guns
          ∧ (∀ col g, col ∈ names df → report_timing_col col = true →
                      misfire_at col i → gun_info col = Some g →
                      g ∈ guns.1).
Proof.
  intros Hi.
  destruct (row_guns_fold i (filter (λ c, report_timing_col c) (names df))
              ([], []) Hi) as (res & Hres & _ & Hmis).
  { intros col [Hrep Hin]%list_elem_of_filter. split; [done|].
    by apply Is_true_true. }
  exists res. split; [exact Hres|].
  intros col g Hin Hrep. apply Hmis. apply list_elem_of_filter.
  split; [by apply Is_true_true|done].
Qed.

Lemma rows_fold sps rows : ∀ logs,
  get df "shot_point" = Some sps →
  (∀ i, i ∈ rows → (i < nrows df)%nat) →
  ∃ res,
    foldM (λ logs i,
             guns ← row_guns df (filter (λ c, report_timing_col c) (names df)) i;
             misfire ←
               match guns.1 with
               | [] => Some logs.1
               | _ => sp ← get df "shot_point" ≫= (.!! i);
                      Some (append_new (sp, guns.1) logs.1)
               end;
             disabled ←
               match guns.2 with
               | [] => Some logs.2
               | _ => sp ← get df "shot_point" ≫= (.!! i);
                      Some (append_new (sp, guns.2) logs.2)
               end;
             Some (misfire, disabled))
          logs rows = Some res
    ∧ (∀ e, e ∈ logs.1 → e ∈ res.1)
    ∧ (∀ i col g sp,
         i ∈ rows → col ∈ names df → report_timing_col col = true →
         misfire_at col i → gun_info col = Some g → sps !! i = Some sp →
         ∃ e, e ∈ res.1 ∧ cell_eqb sp e.1 = true ∧ g ∈ e.2).
Proof.
  intros logs Hsps Hrows. revert logs.
  assert (length sps = nrows df) as Hlen by by eapply get_well_formed.
  match goal with |- context [foldM ?f _ _] => set (F := f) end.
  induction rows as [|i rows IH]; intros logs.
  - exists logs. split; [done|]. split; [done|].
    intros i col g sp Hin. by apply elem_of_nil in Hin.
  - assert (i < nrows df)%nat as Hi by (apply Hrows; by left).
    destruct (row_guns_total i Hi) as (guns & Hguns & Hmis).
    destruct (lookup_lt_is_Some_2 sps i) as [sp Hsp]; [lia|].
    set (misfire := match guns.1 with
                    | [] => logs.1
                    | _ => append_new (sp, guns.1) logs.1
                    end).
    set (disabled := match guns.2 with
                     | [] => logs.2
                     | _ => append_new (sp, guns.2) logs.2
                     end).
    assert (F logs i = Some (misfire, disabled)) as HF.
    { unfold F. rewrite Hguns, Hsps. simpl. rewrite Hsp. simpl.
      subst misfire disabled. by destruct guns.1, guns.2. }
    cbn [foldM]. rewrite HF. simpl.
    assert (∀ j, j ∈ rows → (j < nrows df)%nat) as Hrows'
      by (intros j Hj; apply Hrows; by right).
    destruct (IH Hrows' (misfire, disabled))
      as (res & Hres & Hkeep & Hfound).
    exists res. split; [exact Hres|].
    assert (∀ e, e ∈ logs.1 → e ∈ misfire) as Hmono.
    { intros e He. subst misfire. destruct guns.1; [done|].
      by apply append_new_mono. }
    split; [intros e He; by apply Hkeep, Hmono|].
    intros i' col g sp' [->|Hin]%elem_of_cons Hcol Hrep Hm Hg Hsp';
      [|by eapply Hfound].
    rewrite Hsp in Hsp'. injection Hsp' as <-.
    pose proof (Hmis col g Hcol Hrep Hm Hg) as Hgin.
    destruct (append_new_has sp guns.1 logs.1) as (e & He & Heq & He2).
    exists e. split; [|split; [done|by rewrite He2]].
    apply Hkeep. simpl. subst misfire.
    destruct guns.1; [by apply elem_of_nil in Hgin|done].
Qed.

Lemma misfire_logged col i s c v g sp :
  get df col = Some s → s !! i = Some c → num_of c = Some (Some v) →
  (v == 90)%Q →
  report_timing_col col = true → gun_info col = Some g →
  flag_at df "shot_point" i = Some sp →
  ∃ logs e, misfire_and_disabled df = Some logs
            ∧ e ∈ logs.1 ∧ cell_eqb sp e.1 = true ∧ g ∈ e.2.
Proof.
  intros Hs Hc Hv H90 Hrep Hg Hsp. unfold flag_at in Hsp.
  destruct (get df "shot_point") as [sps|] eqn:Hsps; [|done].
  simpl in Hsp.
  assert (i < nrows df)%nat as Hi.
  { erewrite <- get_well_formed by done. by eapply lookup_lt_Some. }
  destruct (rows_fold sps (seq 0 (nrows df)) ([], []) Hsps)
    as (res & Hres & _ & Hfound).
  { intros j Hj. apply elem_of_seq in Hj. lia. }
  destruct (Hfound i col g sp) as (e & He & Heq & Hge); try done.
  - apply elem_of_seq. lia.
  - apply assoc_get_Some_elem in Hs.
    by apply (list_elem_of_fmap_2 fst) in Hs.
  - exists s, c, (Qabs v). repeat split; try done.
    + unfold timing_value. by rewrite Hv.
    + apply Qeq_eq_bool. rewrite H90. reflexivity.
  - exists res, e. by repeat split.
Qed.

End Rows.

(** C6: a sentinel reading never feeds the gun-timing flag, and a misfire
    is logged under its gun.  Let [cell], the value of the gun-timing
    column [String_<a>-Cluster_<b>-Gun_<c>] in row [i], be the number [v].
    The column is one [validate_gun_timing] processes and one the report
    scans.  If [v] is 63, 61 or 90, processing the column leaves the
    [gun_timing_flag] of row [i] as it was.  If [v] is 90 then, in a
    well-formed frame whose gun-timing columns are numeric,
    [log_misfire_flag] has an entry with the shot point of row [i] that
    lists the gun ["String <a> Cluster <b> Gun <c>"].  For the row with 90
    on gun 1 and 0.5 on gun 2, [validate_data] leaves the flag at 0 and the
    misfire log is [[(1001, ["String 1 Cluster 1 Gun 1"])]]. *)
Theorem gun_timing_sentinel_exclusion (df : DataFrame) (a b c : string)
    (i : nat) (s : Series) (cell : cell) (v : Q) :
  decimal a → decimal b → decimal c →
  get df (gun_column a b c) = Some s →
  s !! i = Some cell →
  num_of cell = Some (Some v) →
  is_timing_col (gun_column a b c) = true
  ∧ report_timing_col (gun_column a b c) = true
  ∧ ((v == 63 ∨ v == 61 ∨ v == 90)%Q →
     ∀ df', timing_column_step th df (gun_column a b c) = Some df' →
            flag_at df' "gun_timing_flag" i = flag_at df "gun_timing_flag" i)
  ∧ ((v == 90)%Q →
     well_formed df →
     (∀ col s, get df col = Some s → report_timing_col col = true →
               numeric s) →
     ∀ sp, flag_at df "shot_point" i = Some sp →
           ∃ logs e,
             misfire_and_disabled df = Some logs
             ∧ e ∈ logs.1 ∧ cell_eqb sp e.1 = true
             ∧ "String " +:+ a +:+ " Cluster " +:+ b +:+ " Gun " +:+ c ∈ e.2)
  ∧ (validate_data default_thresholds misfire_row
     ≫= λ d, flag_at d "gun_timing_flag" 0)
    = Some (CInt 0)
  ∧ (validate_data default_thresholds misfire_row ≫= misfire_and_disabled)
    = Some ([(CInt 1001, ["String 1 Cluster 1 Gun 1"])], []).
Proof.
  intros Ha Hb Hc Hs Hcell Hv.
  split; [by apply gun_column_is_timing_col|].
  split; [by apply gun_column_report_timing_col|].
  split; [|split; [|split]].
  - intros Hsent df' Hstep.
    eapply timing_step_sentinel; [|exact Hs|exact Hcell|exact Hv|done|done].
    by unfold gun_column.
  - intros H90 Hwf Hnum sp Hsp.
    eapply (misfire_logged df Hwf Hnum); try done.
    + by apply gun_column_report_timing_col.
    + by apply gun_column_info.
  - vm_compute. reflexivity.
  - vm_compute. reflexivity.
Qed.

End Sentinels.

Section SentinelWitness.
Import Py Frame Validator.

Lemma gun_timing_sentinel_exclusion_witness :
  ∃ logs e,
    misfire_and_disabled misfire_row = Some logs
    ∧ e ∈ logs.1 ∧ cell_eqb (CInt 1001) e.1 = true
    ∧ "String 1 Cluster 1 Gun 1" ∈ e.2.
Proof.
  refine (proj1 (proj2 (proj2 (proj2
    (gun_timing_sentinel_exclusion default_thresholds misfire_row
       "1" "1" "1" 0 [CNum 90] (CNum 90) 90 _ _ _ _ _ _))))
    _ _ _ (CInt 1001) _); try (split; [discriminate|reflexivity]);
    try reflexivity.
  - repeat constructor.
  - intros col s Hget _. unfold get in Hget. simpl in Hget.
    repeat case_decide; simplify_eq; repeat constructor; by eexists.
Defined.

End SentinelWitness.
(** ** Totality of [validate_data] *)

Section Touches.
Import Py Frame Validator.

Lemma touches_refl f df : touches f df df.
Proof. repeat split; auto. Qed.

Lemma touches_trans f a b c : touches f a b → touches f b c → touches f a c.
Proof.
  intros (Hn1 & Hg1 & Hnm1 & Hf1) (Hn2 & Hg2 & Hnm2 & Hf2).
  split; [congruence|]. split; [|split].
  - intros col H1 H2. rewrite Hg2, Hg1; done.
  - intros col Hc. destruct (Hnm2 col Hc) as [H|H]; [|by right].
    by apply Hnm1.
  - intros H. rewrite <- Hn1. apply Hf2. rewrite Hn1. by apply Hf1.
Qed.

Lemma touches_loc_assign f df mask (rs : list Z) :
  Forall (λ z, 0 ≤ z ≤ 2) rs →
  touches f df (loc_assign mask f (CInt <$> rs) df).
Proof.
  intros Hrs. split; [done|]. split; [|split].
  - intros col H1 H2. by apply get_loc_assign_ne.
  - intros col Hc. apply names_set_column in Hc as [?|?]; auto.
  - intros (vals & Hget & Hlen & Hb).
    destruct (assign_ints (λ z, 0 ≤ z ≤ 2) mask rs vals Hrs Hb)
      as (vals' & Heq & Hlen' & Hb').
    exists vals'. rewrite get_loc_assign_eq, Hget. simpl. rewrite Heq.
    split; [done|]. split; [lia|done].
Qed.

Lemma touches_loc_set f df mask v :
  0 ≤ v ≤ 2 → touches f df (loc_set mask f v df).
Proof.
  intros Hv. unfold loc_set.
  replace (replicate (nrows df) (CInt v))
    with (CInt <$> replicate (nrows df) v) by apply fmap_replicate.
  apply touches_loc_assign. by apply Forall_replicate.
Qed.

Lemma touches_set_average f df s :
  f ≠ "average_gun_depth" →
  touches f df (set_column "average_gun_depth" s df).
Proof.
  intros Hf. split; [done|]. split; [|split].
  - intros col H1 H2. by apply get_set_column_ne.
  - intros col Hc. apply names_set_column in Hc as [?|?]; auto.
  - intros (vals & Hget & Hlen & Hb). exists vals.
    by rewrite get_set_column_ne by done.
Qed.

Lemma fold_touches {B} f (step : DataFrame → B → option DataFrame)
    (cols : list B) df :
  (∀ d col, col ∈ cols → touches f df d →
            ∃ d', step d col = Some d' ∧ touches f d d') →
  ∃ df', foldM step df cols = Some df' ∧ touches f df df'.
Proof.
  intros Hstep.
  apply (foldM_invariant (touches f df)); [apply touches_refl|].
  intros d col Hcol Hd. destruct (Hstep d col Hcol Hd) as (d' & Hd' & Ht).
  exists d'. split; [done|]. by eapply touches_trans.
Qed.

Lemma measured_expects r col : expects r col = true → measured col = true.
Proof.
  intros H. unfold measured. apply orb_true_iff. left.
  apply existsb_exists. exists r. split; [|done].
  destruct r; simpl; tauto.
Qed.

Lemma measured_report_timing col :
  report_timing_col col = true → measured col = true.
Proof. intros H. unfold measured. rewrite H. apply orb_true_r. Qed.

Lemma measured_not_target col :
  measured col = true →
  (col ∉ flag_columns) ∧ (col ≠ "average_gun_depth").
Proof.
  intros Hm. split.
  - intros Hin. unfold flag_columns in Hin.
    repeat (apply elem_of_cons in Hin as [->|Hin];
            [vm_compute in Hm; discriminate|]).
    by apply elem_of_nil in Hin.
  - intros ->. vm_compute in Hm. discriminate.
Qed.

Lemma flag_of_in_flag_columns r : flag_of r ∈ flag_columns.
Proof.
  apply list_elem_of_In. destruct r; simpl; tauto.
Qed.

Lemma flag_of_not_average r : flag_of r ≠ "average_gun_depth".
Proof. by destruct r. Qed.

Lemma flag_of_inj r r' : flag_of r = flag_of r' → r = r'.
Proof. by destruct r, r'. Qed.

Lemma get_touched_measured f df d col :
  f ∈ flag_columns → touches f df d → measured col = true →
  get d col = get df col.
Proof.
  intros Hf (_ & Hg & _) Hm.
  destruct (measured_not_target col Hm) as [Hnf Hna].
  apply Hg; [|done]. intros ->. done.
Qed.

Lemma in_names_get df col : col ∈ names df → is_Some (get df col).
Proof. apply assoc_get_is_Some. Qed.

Lemma get_in_names df col s : get df col = Some s → col ∈ names df.
Proof.
  intros H. apply assoc_get_Some_elem in H.
  by apply (list_elem_of_fmap_2 fst) in H.
Qed.

End Touches.

Section Rules.
Import Py Frame Validator.

Variable th : QCThresholds.

(** The frame a rule starts from, with its measured columns numeric. *)
Variable df : DataFrame.
Hypothesis Hnum : measurements_numeric df.

Lemma numeric_column f d col :
  f ∈ flag_columns → touches f df d → col ∈ names d → measured col = true →
  ∃ s, get d col = Some s ∧ numeric s.
Proof.
  intros Hf Ht Hin Hm. destruct (in_names_get d col Hin) as [s Hs].
  exists s. split; [done|].
  rewrite (get_touched_measured f df d col Hf Ht Hm) in Hs.
  by eapply Hnum.
Qed.

Lemma mask_step f d col p v (g : list bool → list bool) :
  f ∈ flag_columns → touches f df d → col ∈ names d → measured col = true →
  0 ≤ v ≤ 2 →
  ∃ d', (s ← get d col; mask ← mask_of p s; Some (loc_set (g mask) f v d))
        = Some d' ∧ touches f d d'.
Proof.
  intros Hf Ht Hin Hm Hv.
  destruct (numeric_column f d col Hf Ht Hin Hm) as (s & Hs & Hnums).
  destruct (mask_of_is_Some p s Hnums) as [mask Hmask].
  rewrite Hs. simpl. rewrite Hmask. simpl.
  eexists. split; [done|]. by apply touches_loc_set.
Qed.

Lemma flag_outside_step f lo hi d col :
  f ∈ flag_columns → touches f df d → col ∈ names d → measured col = true →
  ∃ d', flag_outside lo hi f d col = Some d' ∧ touches f d d'.
Proof.
  intros Hf Ht Hin Hm. unfold flag_outside.
  apply (mask_step f d col _ 2 id); auto. lia.
Qed.

Lemma names_touched f d col :
  f ∈ flag_columns → touches f df d → measured col = true →
  col ∈ names df → col ∈ names d.
Proof.
  intros Hf Ht Hm Hin. destruct (in_names_get df col Hin) as [s Hs].
  rewrite <- (get_touched_measured f df d col Hf Ht Hm) in Hs.
  by eapply get_in_names.
Qed.

Lemma fold_flag_outside f lo hi (cols : list string) :
  f ∈ flag_columns →
  (∀ col, col ∈ cols → col ∈ names df ∧ measured col = true) →
  ∃ df', foldM (flag_outside lo hi f) df cols = Some df' ∧ touches f df df'.
Proof.
  intros Hf Hcols. apply fold_touches. intros d col Hcol Ht.
  destruct (Hcols col Hcol) as [Hin Hm].
  apply flag_outside_step; auto. by eapply names_touched.
Qed.

Lemma validate_sti_touches :
  ∃ df', validate_sti th df = Some df' ∧ touches "sti_flag" df df'.
Proof.
  unfold validate_sti. destruct (get df sti_col) as [s|] eqn:Hs.
  - destruct (mask_step "sti_flag" df sti_col
                (λ o, Qlt_bool (fillna0 o) (sti_error th)) 2 id)
      as (d' & Hd' & Ht); try done.
    + apply (flag_of_in_flag_columns STI).
    + apply touches_refl.
    + by eapply get_in_names.
    + rewrite Hs in Hd'. by exists d'.
  - exists df. split; [done|apply touches_refl].
Qed.

Lemma validate_radial_touches :
  ∃ df', validate_radial th df = Some df'
         ∧ touches "repeatability_flag" df df'.
Proof.
  unfold validate_radial. destruct (get df radial_col) as [s|] eqn:Hs.
  - destruct (mask_step "repeatability_flag" df radial_col
                (outside (- radial_limit th) (radial_limit th)) 1 id)
      as (d' & Hd' & Ht); try done.
    + apply (flag_of_in_flag_columns Radial).
    + apply touches_refl.
    + by eapply get_in_names.
    + rewrite Hs in Hd'. by exists d'.
  - exists df. split; [done|apply touches_refl].
Qed.

Lemma validate_sub_array_separation_touches :
  ∃ df', validate_sub_array_separation th df = Some df'
         ∧ touches "sub_array_sep_flag" df df'.
Proof.
  unfold validate_sub_array_separation.
  destruct (fold_flag_outside "sub_array_sep_flag"
              (sub_array_sep_min th) (sub_array_sep_max th)
              (filter (λ c, c ∈ names df) separation_columns))
    as (d' & Hd' & Ht).
  - apply (flag_of_in_flag_columns SubArraySeparation).
  - intros col [Hin Hsep]%list_elem_of_filter. split; [done|].
    apply (measured_expects SubArraySeparation). simpl.
    by apply bool_decide_eq_true.
  - destruct (filter _ separation_columns) eqn:E.
    + exists df. split; [done|apply touches_refl].
    + by exists d'.
Qed.

Lemma validate_cos_separation_touches :
  ∃ df', validate_cos_separation th df = Some df'
         ∧ touches "cos_sep_flag" df df'.
Proof.
  unfold validate_cos_separation.
  destruct (has_column df cos_dual) eqn:Hdual.
  - apply bool_decide_eq_true in Hdual.
    apply flag_outside_step; [apply (flag_of_in_flag_columns CosSeparation)
                             |apply touches_refl|done|by vm_compute].
  - apply fold_flag_outside; [apply (flag_of_in_flag_columns CosSeparation)|].
    intros col [Hin Hc]%list_elem_of_filter. split; [done|].
    apply (measured_expects CosSeparation). simpl.
    by apply bool_decide_eq_true.
Qed.

Lemma validate_sma_touches :
  ∃ df', validate_sma th df = Some df' ∧ touches "sma_flag" df df'.
Proof.
  unfold validate_sma.
  destruct (fold_touches "sma_flag"
              (λ df col,
                 s ← get df col;
                 mask ← mask_of (λ o, Qlt_bool (sma_limit th) (fillna0 o)) s;
                 Some (loc_set mask "sma_flag" 2 df))
              (filter (λ c, is_sma_col c) (names df)) df)
    as (d' & Hd' & Ht).
  - intros d col [Hsma Hin]%list_elem_of_filter Hd.
    apply Is_true_true in Hsma.
    assert (measured col = true) as Hm by by apply (measured_expects SMA).
    apply (mask_step "sma_flag" d col _ 2 id); auto.
    + apply (flag_of_in_flag_columns SMA).
    + eapply names_touched; eauto. apply (flag_of_in_flag_columns SMA).
    + lia.
  - destruct (filter _ (names df)) eqn:E.
    + exists df. split; [done|apply touches_refl].
    + by exists d'.
Qed.

Lemma validate_volume_touches :
  ∃ df', validate_volume th df = Some df' ∧ touches "volume_flag" df df'.
Proof.
  unfold validate_volume. destruct (get df "VOLUME") as [volume|] eqn:Hv.
  2:{ exists df. split; [done|apply touches_refl]. }
  destruct (foldM_invariant (λ _ : list bool, True)
              (λ acc col,
                 s ← get df col;
                 m ← mask_of (λ o, Qeq_bool (Qabs (fillna0 o)) 90) s;
                 Some (mask_or acc m))
              (filter (λ c, report_timing_col c) (names df))
              (replicate (nrows df) false) I) as (misfire & Hmis & _).
  { intros acc col [Hrep Hin]%list_elem_of_filter _.
    apply Is_true_true in Hrep.
    destruct (in_names_get df col Hin) as [s Hs].
    assert (numeric s) as Hnums
      by (eapply Hnum; [done|by apply measured_report_timing]).
    destruct (mask_of_is_Some (λ o, Qeq_bool (Qabs (fillna0 o)) 90) s Hnums)
      as [m Hm].
    rewrite Hs. simpl. rewrite Hm. simpl. by eexists. }
  rewrite Hmis. simpl.
  assert (numeric volume) as Hnumv by (eapply Hnum; [done|by vm_compute]).
  destruct (mask_of_is_Some
              (λ o, negb (Qeq_bool (fillna0 o) (volume_nominal th)))
              volume Hnumv) as [differs Hd].
  rewrite Hd. simpl. eexists. split; [done|].
  apply touches_loc_set. lia.
Qed.

End Rules.

Section MoreRules.
Import Py Frame Validator.

Variable th : QCThresholds.
Variable df : DataFrame.
Hypothesis Hnum : measurements_numeric df.

Lemma row_mean_total (cells : list cell) :
  Forall (λ c, is_Some (num_of c)) cells →
  row_mean cells = Some CNull ∨ ∃ q, row_mean cells = Some (CNum q).
Proof.
  intros Hc. unfold row_mean.
  destruct (mapM_is_Some_2 num_of cells) as [nums Hn]; [done|].
  rewrite Hn. simpl. destruct (omap id nums); [by left|right; by eexists].
Qed.

Lemma mean_axis1_total (ss : list Series) n :
  Forall numeric ss →
  ∃ avg, mean_axis1 ss n = Some avg ∧ numeric avg.
Proof.
  intros Hss. unfold mean_axis1.
  assert (∀ i, row_mean (row_cells ss i) = Some CNull
               ∨ ∃ q, row_mean (row_cells ss i) = Some (CNum q)) as Hrow.
  { intros i. apply row_mean_total. unfold row_cells.
    apply Forall_fmap. eapply Forall_impl; [exact Hss|].
    intros s Hs. simpl. destruct (s !! i) as [c|] eqn:Hc; simpl.
    - unfold numeric in Hs. rewrite Forall_lookup in Hs. by eapply Hs.
    - by eexists. }
  destruct (mapM_is_Some_2 (λ i, row_mean (row_cells ss i)) (seq 0 n))
    as [avg Havg].
  { apply Forall_forall. intros i _. unfold compose.
    destruct (Hrow i) as [Hr|[q Hr]]; rewrite Hr; by eexists. }
  exists avg. split; [done|].
  apply mapM_Some in Havg. unfold numeric.
  induction Havg as [|i c l avg Hc _ IH]; constructor; [|done].
  destruct (Hrow i) as [Hr|[q Hr]]; rewrite Hr in Hc;
    injection Hc as <-; by eexists.
Qed.

Lemma validate_gun_depth_touches :
  ∃ df', validate_gun_depth th df = Some df'
         ∧ touches "gun_depth_flag" df df'.
Proof.
  unfold validate_gun_depth.
  destruct (filter (λ c, is_gun_depth_col c) (names df)) as [|c0 cols] eqn:E.
  { exists df. split; [done|apply touches_refl]. }
  rewrite <- E.
  assert (∃ ss, mapM (get df) (filter (λ c, is_gun_depth_col c) (names df))
                = Some ss ∧ Forall numeric ss) as (ss & Hss & Hnss).
  { assert (Forall (λ col, ∃ s, get df col = Some s ∧ numeric s)
              (filter (λ c, is_gun_depth_col c) (names df))) as Hall.
    { apply Forall_forall. intros col [Hd Hin]%list_elem_of_filter.
      apply Is_true_true in Hd.
      destruct (in_names_get df col Hin) as [s Hs]. exists s.
      split; [done|]. eapply Hnum; [done|].
      by apply (measured_expects GunDepth). }
    destruct (mapM_is_Some_2 (get df)
                (filter (λ c, is_gun_depth_col c) (names df))) as [ss Hss].
    { eapply Forall_impl; [exact Hall|]. intros col (s & Hs & _).
      unfold compose. rewrite Hs. by eexists. }
    exists ss. split; [done|]. apply mapM_Some in Hss.
    clear E. induction Hss as [|col s l ss Hs _ IH]; constructor.
    - apply Forall_cons in Hall as [(s' & Hs' & Hn') _]. congruence.
    - apply IH. by apply Forall_cons in Hall as [_ ?]. }
  rewrite Hss. simpl.
  destruct (mean_axis1_total ss (nrows df) Hnss) as (avg & Havg & Hnavg).
  rewrite Havg. simpl.
  destruct (mask_of_is_Some
              (outside (gun_depth_min th) (gun_depth_max th)) avg Hnavg)
    as [mask Hmask].
  rewrite Hmask. simpl. eexists. split; [done|].
  eapply touches_trans.
  - by apply (touches_set_average "gun_depth_flag").
  - apply touches_loc_set. lia.
Qed.

Lemma pressure_columns_measured entry col :
  entry ∈ point_code_pressure_mapping → col ∈ entry.2 →
  is_pressure_col col = true.
Proof.
  intros He Hc. unfold point_code_pressure_mapping in He.
  repeat (apply elem_of_cons in He as [->|He];
          [simpl in Hc;
           repeat (apply elem_of_cons in Hc as [->|Hc]; [by vm_compute|]);
           by apply elem_of_nil in Hc|]).
  by apply elem_of_nil in He.
Qed.

Lemma validate_gun_pressure_touches :
  ∃ df', validate_gun_pressure th df = Some df'
         ∧ touches "gun_pressure_flag" df df'.
Proof.
  pose proof (flag_of_in_flag_columns GunPressure) as Hf. simpl in Hf.
  unfold validate_gun_pressure.
  destruct (has_column df "point_code") eqn:Hpc.
  - apply has_column_get in Hpc as [pcs Hpcs].
    apply fold_touches. intros d entry Hentry Hd.
    unfold pressure_for_code.
    assert (get d "point_code" = Some pcs) as ->.
    { destruct Hd as (_ & Hg & _). rewrite Hg; done. }
    simpl. destruct (existsb id _).
    2:{ exists d. split; [done|apply touches_refl]. }
    destruct (fold_touches "gun_pressure_flag"
                (λ df col,
                   s ← get df col;
                   m ← mask_of (outside (gun_pressure_min th)
                                  (gun_pressure_max th)) s;
                   Some (loc_set (mask_and (point_code_rows entry.1 pcs) m)
                           "gun_pressure_flag" 2 df))
                (filter (λ c, c ∈ names d) entry.2) d)
      as (d' & Hd' & Ht); [|by exists d'].
    intros d1 col [Hin Hc]%list_elem_of_filter Hd1.
    assert (measured col = true) as Hm.
    { apply (measured_expects GunPressure).
      by eapply pressure_columns_measured. }
    assert (touches "gun_pressure_flag" df d1) as Hd1'
      by by eapply touches_trans.
    apply (mask_step df Hnum "gun_pressure_flag" d1 col _ 2
             (mask_and (point_code_rows entry.1 pcs))); auto; [|lia].
    destruct (in_names_get d col Hin) as [s Hs].
    destruct (measured_not_target col Hm) as [Hnf Hna].
    destruct Hd1 as (_ & Hg & _).
    rewrite <- Hg in Hs; [by eapply get_in_names| |done].
    intros ->. done.
  - apply (fold_flag_outside df Hnum); [done|].
    intros col [Hp Hin]%list_elem_of_filter. apply Is_true_true in Hp.
    split; [done|]. by apply (measured_expects GunPressure).
Qed.

Lemma mapM_maximum1_ints (vals : list Z) :
  mapM maximum1 (CInt <$> vals) = Some (CInt <$> ((λ z, Z.max z 1) <$> vals)).
Proof.
  apply mapM_Some. induction vals; simpl; constructor; auto.
Qed.

Lemma timing_column_step_touches d col :
  touches "gun_timing_flag" df d →
  flag_ok (nrows df) df "gun_timing_flag" →
  col ∈ names d → is_timing_col col = true →
  ∃ d', timing_column_step th d col = Some d'
        ∧ touches "gun_timing_flag" d d'.
Proof.
  intros Hd Hok Hin Ht.
  pose proof (flag_of_in_flag_columns GunTiming) as Hf. simpl in Hf.
  assert (measured col = true) as Hm by by apply (measured_expects GunTiming).
  destruct (measured_not_target col Hm) as [Hnf Hna].
  assert (col ≠ "gun_timing_flag") as Hne by (intros ->; done).
  destruct (numeric_column df Hnum "gun_timing_flag" d col Hf Hd Hin Hm)
    as (s & Hs & Hnums).
  destruct Hd as (Hn & Hg & Hnm & Hflag).
  destruct (Hflag Hok) as (vals & Hvals & Hlen & Hb).
  unfold timing_column_step, warning_write.
  rewrite Hvals. simpl. rewrite mapM_maximum1_ints. simpl.
  rewrite Hs. simpl.
  destruct (mask_of_is_Some (timing_mask (timing_warning th)) s Hnums)
    as [wmask Hw].
  rewrite Hw. simpl. unfold error_write.
  rewrite get_loc_assign_ne by done. rewrite Hs. simpl.
  destruct (mask_of_is_Some (timing_mask (timing_error th)) s Hnums)
    as [emask He].
  rewrite He. simpl. eexists. split; [done|].
  eapply touches_trans;
    [apply (touches_loc_assign _ _ wmask ((λ z, Z.max z 1) <$> vals))
    |apply touches_loc_set; lia].
  rewrite Forall_fmap.
  eapply Forall_impl; [exact Hb|]. intros z Hz. unfold compose. simpl in *. lia.
Qed.

Lemma timing_loop_total (timing_cols : list string) :
  flag_ok (nrows df) df "gun_timing_flag" →
  (∀ col, col ∈ timing_cols → col ∈ names df ∧ is_timing_col col = true) →
  ∃ df', foldM (timing_column_step th) df timing_cols = Some df'
         ∧ touches "gun_timing_flag" df df'.
Proof.
  intros Hok Hcols. apply fold_touches. intros d col Hcol Hd.
  destruct (Hcols col Hcol) as [Hin Ht].
  apply timing_column_step_touches; auto.
  eapply (names_touched df "gun_timing_flag"); eauto.
  - apply (flag_of_in_flag_columns GunTiming).
  - by apply (measured_expects GunTiming).
Qed.

Lemma validate_gun_timing_touches :
  flag_ok (nrows df) df "gun_timing_flag" →
  ∃ df', validate_gun_timing th df = Some df'
         ∧ touches "gun_timing_flag" df df'.
Proof.
  intros Hok. unfold validate_gun_timing.
  destruct (timing_loop_total
              (filter (λ c, is_timing_col c) (names df)) Hok)
    as (d' & Hd' & Ht).
  - intros col [Hc Hin]%list_elem_of_filter. split; [done|].
    by apply Is_true_true.
  - destruct (filter _ (names df)) eqn:E.
    + exists df. split; [done|apply touches_refl].
    + by exists d'.
Qed.

(** Every rule returns, and changes at most its own flag column (and
    [average_gun_depth]). *)
Lemma run_touches (r : rule) :
  flag_ok (nrows df) df (flag_of r) →
  ∃ df', run r th df = Some df' ∧ touches (flag_of r) df df'.
Proof.
  intros Hok. destruct r; simpl.
  - by apply validate_sti_touches.
  - by apply validate_sub_array_separation_touches.
  - by apply validate_cos_separation_touches.
  - by apply validate_volume_touches.
  - by apply validate_gun_depth_touches.
  - by apply validate_gun_pressure_touches.
  - by apply validate_gun_timing_touches.
  - by apply validate_radial_touches.
  - by apply validate_sma_touches.
Qed.

End MoreRules.

Section ValidateData.
Import Py Frame Validator.

Variable th : QCThresholds.

Lemma filter_none {A} (P : A → Prop) `{∀ x, Decision (P x)} (l : list A) :
  (∀ x, x ∈ l → ¬ P x) → filter P l = [].
Proof.
  induction l as [|x l IH]; intros Hno; [done|].
  rewrite filter_cons, decide_False by (apply Hno; by left).
  apply IH. intros y Hy. apply Hno. by right.
Qed.

Lemma absent_get r df col :
  absent r df → expects r col = true → get df col = None.
Proof.
  intros Hab He. apply assoc_get_None. intros Hin.
  specialize (Hab col Hin). congruence.
Qed.

Lemma absent_filter r df (cols : list string) :
  absent r df → (∀ col, col ∈ cols → expects r col = true) →
  filter (λ c, c ∈ names df) cols = [].
Proof.
  intros Hab Hcols. apply filter_none. intros col Hcol Hin.
  specialize (Hab col Hin). rewrite Hcols in Hab; done.
Qed.

(** A rule whose expected columns are all missing returns the frame
    as it got it. *)
Lemma run_absent r df : absent r df → run r th df = Some df.
Proof.
  intros Hab. destruct r; simpl.
  - unfold validate_sti. by rewrite (absent_get STI) by done.
  - unfold validate_sub_array_separation.
    rewrite (absent_filter SubArraySeparation); [done|done|].
    intros col Hc. simpl. by apply bool_decide_eq_true.
  - unfold validate_cos_separation.
    assert (has_column df cos_dual = false) as ->.
    { apply bool_decide_eq_false. intros Hin.
      specialize (Hab _ Hin). done. }
    rewrite (absent_filter CosSeparation); [done|done|].
    intros col Hc. simpl. by apply bool_decide_eq_true.
  - unfold validate_volume. by rewrite (absent_get Volume) by done.
  - unfold validate_gun_depth. rewrite filter_none; [done|].
    intros col Hin Hd. specialize (Hab col Hin). simpl in Hab.
    rewrite Hab in Hd. done.
  - unfold validate_gun_pressure.
    destruct (has_column df "point_code") eqn:Hpc.
    + apply has_column_get in Hpc as [pcs Hpcs].
      assert (∀ entry, entry ∈ point_code_pressure_mapping →
                       pressure_for_code th df entry = Some df) as Hstep.
      { intros entry Hentry. unfold pressure_for_code. rewrite Hpcs. simpl.
        destruct (existsb id _); [|done].
        rewrite (absent_filter GunPressure); [done|done|].
        intros col Hc. simpl. by eapply pressure_columns_measured. }
      unfold point_code_pressure_mapping in *. cbn [foldM].
      rewrite Hstep by (apply list_elem_of_In; simpl; tauto). simpl.
      rewrite Hstep by (apply list_elem_of_In; simpl; tauto). simpl.
      rewrite Hstep by (apply list_elem_of_In; simpl; tauto). done.
    + rewrite filter_none; [done|].
      intros col Hin Hd. specialize (Hab col Hin). simpl in Hab.
      rewrite Hab in Hd. done.
  - unfold validate_gun_timing. rewrite filter_none; [done|].
    intros col Hin Hd. specialize (Hab col Hin). simpl in Hab.
    rewrite Hab in Hd. done.
  - unfold validate_radial. by rewrite (absent_get Radial) by done.
  - unfold validate_sma. rewrite filter_none; [done|].
    intros col Hin Hd. specialize (Hab col Hin). simpl in Hab.
    rewrite Hab in Hd. done.
Qed.

Lemma get_init (fl : list string) : ∀ df f,
  get (foldl (λ d col, set_scalar col 0 d) df fl) f
  = if decide (f ∈ fl) then Some (replicate (nrows df) (CInt 0))
    else get df f.
Proof.
  induction fl as [|c fl IH]; intros df f; cbn [foldl].
  - case_decide as H; [by apply elem_of_nil in H|done].
  - rewrite IH.
    change (nrows (set_scalar c 0 df)) with (nrows df). unfold set_scalar.
    destruct (decide (f ∈ fl)) as [Hin|Hin].
    + rewrite decide_True; [done|by right].
    + destruct (decide (f = c)) as [->|Hne].
      * rewrite get_set_column_eq. rewrite decide_True; [done|by left].
      * rewrite get_set_column_ne by done.
        rewrite decide_False; [done|].
        intros [?|?]%elem_of_cons; done.
Qed.

Lemma nrows_init (fl : list string) : ∀ df,
  nrows (foldl (λ d col, set_scalar col 0 d) df fl) = nrows df.
Proof. induction fl as [|c fl IH]; intros df; simpl; [done|]. by rewrite IH. Qed.

Lemma names_init (fl : list string) : ∀ df col,
  col ∈ names (foldl (λ d col, set_scalar col 0 d) df fl) →
  col ∈ names df ∨ col ∈ fl.
Proof.
  induction fl as [|c fl IH]; intros df col; simpl; [by left|].
  intros [Hin|Hin]%IH.
  - apply names_set_column in Hin as [?| ->]; [by left|right; by left].
  - right. by right.
Qed.

Lemma average_not_flag : "average_gun_depth" ∉ flag_columns.
Proof.
  intros Hin. unfold flag_columns in Hin.
  repeat (apply elem_of_cons in Hin as [?|Hin]; [done|]).
  by apply elem_of_nil in Hin.
Qed.

Lemma to_int_ints (vals : list Z) :
  mapM to_int (CInt <$> vals) = Some (CInt <$> vals).
Proof. apply mapM_Some. induction vals; simpl; constructor; auto. Qed.

Lemma astype_int_flags df :
  (∀ f, f ∈ flag_columns → flag_ok (nrows df) df f) →
  foldM astype_int df flag_columns = Some df.
Proof.
  intros Hok.
  destruct (foldM_invariant (λ d, d = df) astype_int flag_columns df eq_refl)
    as (d & Hd & ->); [|done].
  intros d f Hf ->. destruct (Hok f Hf) as (vals & Hvals & _).
  exists df. split; [|done]. unfold astype_int.
  rewrite Hvals. simpl. rewrite to_int_ints. simpl.
  by rewrite set_column_same.
Qed.

Lemma log_flagged_total df :
  (∀ f, f ∈ flag_columns → is_Some (get df f)) →
  is_Some (get df "shot_point") →
  log_flagged df = Some ().
Proof.
  intros Hflags [sp Hsp]. unfold log_flagged.
  destruct (foldM_invariant (λ _ : unit, True)
              (λ _ flag_col,
                 s ← get df flag_col;
                 if 0 <? int_sum s
                 then _ ← get df "shot_point"; Some ()
                 else Some ())
              flag_columns () I) as ([] & Hres & _); [|done].
  intros [] f Hf _. destruct (Hflags f Hf) as [s Hs].
  rewrite Hs, Hsp. simpl. exists (). by destruct (0 <? int_sum s).
Qed.

Section Run.
Variable df : DataFrame.
Hypothesis Hsp : has_column df "shot_point" = true.
Hypothesis Hnum : measurements_numeric df.

Local Abbreviation n := (nrows df).
Local Abbreviation start :=
  (foldl (λ d col, set_scalar col 0 d) df flag_columns).

Local Abbreviation between_rules := (between_rules df).

Lemma between_rules_start : between_rules start.
Proof.
  split; [apply nrows_init|]. split; [|split].
  - intros f Hf. exists (replicate n 0).
    rewrite get_init, decide_True by done.
    split; [by rewrite fmap_replicate|].
    split; [apply length_replicate|]. apply Forall_replicate. lia.
  - intros col Hcol _. by rewrite get_init, decide_False.
  - intros col Hcol. apply names_init in Hcol as [?|?]; auto.
Qed.

Lemma between_rules_numeric d :
  between_rules d → measurements_numeric d.
Proof.
  intros (_ & _ & Hg & _) col s Hs Hm.
  destruct (measured_not_target col Hm) as [Hnf Hna].
  rewrite Hg in Hs by done. by eapply Hnum.
Qed.

Lemma between_rules_absent d r :
  between_rules d → absent r df → absent r d.
Proof.
  intros (_ & _ & _ & Hnm) Hab col Hin.
  destruct (Hnm col Hin) as [H|[H|H]]; [by apply Hab| |].
  - destruct (expects r col) eqn:E; [|done].
    apply measured_expects, measured_not_target in E as [E _]. done.
  - destruct (expects r col) eqn:E; [|done].
    apply measured_expects, measured_not_target in E as [_ E]. done.
Qed.

Lemma between_rules_step d r :
  between_rules d →
  ∃ d', run r th d = Some d' ∧ between_rules d'
        ∧ (∀ f, f ≠ flag_of r → f ∈ flag_columns → get d' f = get d f)
        ∧ (absent r df → d' = d).
Proof.
  intros Hd. pose proof Hd as (Hn & Hok & Hg & Hnm).
  destruct (run_touches th d (between_rules_numeric d Hd) r)
    as (d' & Hrun & Hn' & Hg' & Hnm' & Hok').
  { rewrite Hn. apply Hok, flag_of_in_flag_columns. }
  exists d'. split; [done|].
  assert (∀ f, f ≠ flag_of r → f ∈ flag_columns → get d' f = get d f)
    as Hother.
  { intros f Hne Hf. apply Hg'; [done|]. intros ->.
    by apply average_not_flag in Hf. }
  split; [|split; [done|]].
  - split; [congruence|]. split; [|split].
    + intros f Hf. destruct (decide (f = flag_of r)) as [->|Hne].
      * rewrite <- Hn. apply Hok'. rewrite Hn. by apply Hok.
      * destruct (Hok f Hf) as (vals & Hvals & Hrest).
        exists vals. by rewrite Hother.
    + intros col Hcol Hna. rewrite Hg', Hg; try done.
      intros ->. apply Hcol, flag_of_in_flag_columns.
    + intros col Hcol. destruct (Hnm' col Hcol) as [H|[ -> | -> ]]; auto.
      right. left. apply flag_of_in_flag_columns.
  - intros Hab. pose proof (run_absent r d (between_rules_absent d r Hd Hab)).
    congruence.
Qed.

Lemma rules_total (rules : list rule) : ∀ d,
  between_rules d →
  (∀ r, absent r df → get d (flag_of r) = Some (replicate n (CInt 0))) →
  ∃ d', foldM (λ d r, run r th d) d rules = Some d'
        ∧ between_rules d'
        ∧ (∀ r, absent r df →
                get d' (flag_of r) = Some (replicate n (CInt 0))).
Proof.
  induction rules as [|r rules IH]; intros d Hd Hzero.
  - by exists d.
  - destruct (between_rules_step d r Hd) as (d1 & Hrun & Hd1 & Hother & Hab).
    cbn [foldM]. rewrite Hrun. simpl. apply IH; [done|].
    intros r0 Hab0.
    destruct (decide (flag_of r0 = flag_of r)) as [Heq|Hne].
    + apply flag_of_inj in Heq as ->. rewrite (Hab Hab0). by apply Hzero.
    + rewrite Hother; [by apply Hzero|done|apply flag_of_in_flag_columns].
Qed.

Lemma validate_data_total :
  ∃ df',
    validate_data th df = Some df'
    ∧ between_rules df'
    ∧ (∀ r, absent r df →
            get df' (flag_of r) = Some (replicate n (CInt 0))).
Proof.
  destruct (rules_total all_rules start between_rules_start)
    as (d & Hd & Hbetween & Hzero).
  { intros r _. rewrite get_init, decide_True; [done|].
    apply flag_of_in_flag_columns. }
  exists d. split; [|by split].
  pose proof Hbetween as (Hn & Hok & Hg & _).
  assert (validate_data th df
          = (d ← foldM (λ d r, run r th d) start all_rules;
             d ← foldM astype_int d flag_columns;
             _ ← log_flagged d; Some d)) as ->.
  { unfold validate_data, all_rules. cbn [foldM run].
    repeat (destruct (_ th _); [cbn [mbind option_bind]|done]). done. }
  rewrite Hd. cbn [mbind option_bind].
  rewrite astype_int_flags by (intros f Hf; rewrite Hn; by apply Hok).
  cbn [mbind option_bind]. rewrite log_flagged_total; [done| |].
  - intros f Hf. destruct (Hok f Hf) as (vals & -> & _). by eexists.
  - rewrite Hg; [by apply has_column_get| |done].
    intros Hin. unfold flag_columns in Hin.
    repeat (apply elem_of_cons in Hin as [?|Hin]; [done|]).
    by apply elem_of_nil in Hin.
Qed.

End Run.

(** C8: [validate_data] does not raise on missing columns.  For every
    frame that has its [shot_point] column and whose measured columns,
    where present, hold numbers or nulls, with any subset of the physical
    columns absent, [validate_data] returns a frame of the same length in
    which each of the nine flag columns exists and holds one integer 0, 1
    or 2 per row, and in which the flag of every rule whose expected
    columns are all absent is 0 in every row. *)
Theorem validate_data_total_on_missing_columns (df : DataFrame) :
  has_column df "shot_point" = true →
  measurements_numeric df →
  ∃ df',
    validate_data th df = Some df'
    ∧ nrows df' = nrows df
    ∧ (∀ f, f ∈ flag_columns →
            ∃ vals : list Z,
              get df' f = Some (CInt <$> vals)
              ∧ length vals = nrows df
              ∧ Forall (λ z, z = 0 ∨ z = 1 ∨ z = 2) vals)
    ∧ (∀ r, absent r df →
            get df' (flag_of r) = Some (replicate (nrows df) (CInt 0))).
Proof.
  intros Hsp Hnum.
  destruct (validate_data_total df Hsp Hnum)
    as (df' & Hrun & (Hn & Hok & _) & Hzero).
  exists df'. split; [done|]. split; [done|]. split; [|done].
  intros f Hf. destruct (Hok f Hf) as (vals & Hvals & Hlen & Hb).
  exists vals. split; [done|]. split; [done|].
  eapply Forall_impl; [exact Hb|]. intros z Hz. simpl in Hz. lia.
Qed.

End ValidateData.

Section ValidateDataWitness.
Import Py Frame Validator.

Lemma validate_data_total_on_missing_columns_witness :
  ∃ df',
    validate_data default_thresholds
      (mkDataFrame 2 [("shot_point", [CInt 1001; CInt 1003]);
                      ("Radial (m)", [CNum 12; CNull])]) = Some df'
    ∧ get df' "sti_flag" = Some [CInt 0; CInt 0].
Proof.
  destruct (validate_data_total_on_missing_columns default_thresholds
              (mkDataFrame 2 [("shot_point", [CInt 1001; CInt 1003]);
                              ("Radial (m)", [CNum 12; CNull])]))
    as (df' & Hrun & _ & _ & Hzero).
  - reflexivity.
  - intros col s Hget _. unfold get in Hget. simpl in Hget.
    repeat case_decide; simplify_eq; repeat constructor; by eexists.
  - exists df'. split; [exact Hrun|].
    apply (Hzero STI). intros col Hin.
    apply list_elem_of_In in Hin. simpl in Hin.
    destruct Hin as [<-|[<-|[]]]; reflexivity.
Defined.

End ValidateDataWitness.

(** ** Monotonicity of the gun-timing flag *)

Section GunTimingMonotone.
Import Py Frame Validator.

Variable th : QCThresholds.

(** C7: once the gun-timing flag of row [i] is 2, it stays 2.  Neither
    the warning-tier write (the maximum of the current flag and 1) nor the
    error-tier write (the constant 2) of any later column changes it, and
    so no run of the column loop does, whatever columns are left.  The
    loop does run to its end on a frame whose measured columns are numeric
    and whose flag column holds flags. *)
Theorem gun_timing_flag_stays_error (df : DataFrame) (i : nat) :
  flag_at df "gun_timing_flag" i = Some (CInt 2) →
  (∀ col df', warning_write th df col = Some df' →
              flag_at df' "gun_timing_flag" i = Some (CInt 2))
  ∧ (∀ col df', error_write th df col = Some df' →
                flag_at df' "gun_timing_flag" i = Some (CInt 2))
  ∧ (∀ timing_cols df',
       foldM (timing_column_step th) df timing_cols = Some df' →
       flag_at df' "gun_timing_flag" i = Some (CInt 2))
  ∧ (∀ timing_cols,
       measurements_numeric df →
       flag_ok (nrows df) df "gun_timing_flag" →
       (∀ col, col ∈ timing_cols →
               col ∈ names df ∧ is_timing_col col = true) →
       is_Some (foldM (timing_column_step th) df timing_cols)).
Proof.
  intros Hi. split; [|split; [|split]].
  - intros col df' Hw. by eapply warning_write_keeps_error.
  - intros col df' He. by eapply error_write_keeps_error.
  - intros timing_cols df' Hloop.
    eapply (foldM_preserves
              (λ d, flag_at d "gun_timing_flag" i = Some (CInt 2)));
      [exact Hi| |exact Hloop].
    intros d col d' Hstep Hd. by eapply timing_column_step_keeps_error.
  - intros timing_cols Hnum Hok Hcols.
    destruct (timing_loop_total th df Hnum timing_cols Hok Hcols)
      as (df' & Hdf' & _).
    by exists df'.
Qed.

End GunTimingMonotone.

Section GunTimingMonotoneWitness.
Import Py Frame Validator.

Lemma gun_timing_flag_stays_error_witness :
  (foldM (timing_column_step default_thresholds) after_first_gun
     ["String_1-Cluster_1-Gun_2"]
   ≫= λ d, flag_at d "gun_timing_flag" 0)
  = Some (CInt 2).
Proof.
  pose proof (proj1 (proj2 (proj2
    (gun_timing_flag_stays_error default_thresholds after_first_gun 0
       eq_refl)))) as Hloop.
  destruct (foldM (timing_column_step default_thresholds) after_first_gun
              ["String_1-Cluster_1-Gun_2"]) as [d|] eqn:E.
  - exact (Hloop _ _ E).
  - vm_compute in E. discriminate E.
Defined.

End GunTimingMonotoneWitness.

(** ** Percentages *)

Section Percentages.
Import Frame Validator Report.

(** C2 at FGSP = LGSP = 1002 on [approach_and_production]: the statistics
    of each flag column come from the one production row (the STI entry
    counts no flagged row, N = 1), but the 'overall' entry sums the flags
    of both rows (total 2, one error) and divides by N times nine, 200/9
    per cent, where the production row alone gives 0. *)
Theorem calculate_percentages_overall_uses_all_rows :
  ∃ p q,
    calculate_percentages approach_and_production (Some 2)
      (Some 1002) (Some 1002) = Some p
    ∧ calculate_percentages production_only None None None = Some q
    ∧ per_flag p = per_flag q
    ∧ per_flag p !! "sti_flag"
      = Some (mkStats (Some 0%Q) (Some 0%Q) (Some 0%Q) 0 0 0)
    ∧ total_count (overall p) = 2%Q
    ∧ error_count (overall p) = 1%Q
    ∧ total (overall p) = Some (200 # 9)%Q
    ∧ total_count (overall q) = 0%Q
    ∧ total (overall q) = Some (0 # 9)%Q.
Proof.
  eexists _, _.
  split; [vm_compute; reflexivity|].
  split; [vm_compute; reflexivity|].
  repeat split; vm_compute; reflexivity.
Qed.

End Percentages.

(** ** The source-error windows and the consecutive-error check *)

Section SeqFacts.
Import Py PySeq Frame Validator Checks.

Lemma foldM_app {A B} (f : A → B → option A) (l1 l2 : list B) (a : A) :
  foldM f a (l1 ++ l2) = foldM f a l1 ≫= λ a', foldM f a' l2.
Proof.
  revert a. induction l1 as [|b l1 IH]; intros a; simpl; [done|].
  destruct (f a b) as [a'|]; simpl; [apply IH|done].
Qed.

Lemma index_nonneg {A} (l : list A) (i : nat) :
  (i < length l)%nat → index l (Z.of_nat i) = l !! i.
Proof.
  intros Hi. unfold index. rewrite decide_True by lia.
  by rewrite Nat2Z.id.
Qed.

Lemma slice_window {A} (l : list A) (i w : nat) :
  (i + w ≤ length l)%nat →
  slice l (Z.of_nat i) (Z.of_nat i + Z.of_nat w) = take w (drop i l).
Proof.
  intros Hi. unfold slice, bound.
  destruct (Z.ltb_spec (Z.of_nat i) 0); [lia|].
  destruct (Z.ltb_spec (Z.of_nat i + Z.of_nat w) 0); [lia|].
  rewrite !Z.min_l by lia.
  replace (Z.to_nat (Z.of_nat i + Z.of_nat w - Z.of_nat i)) with w by lia.
  by rewrite Nat2Z.id.
Qed.

Lemma Qeq_bool_inject_Z (a b : Z) :
  Qeq_bool (inject_Z a) (inject_Z b) = bool_decide (a = b).
Proof.
  destruct (Qeq_bool (inject_Z a) (inject_Z b)) eqn:E.
  - apply Qeq_bool_iff in E. unfold Qeq in E; simpl in E.
    rewrite bool_decide_eq_true_2; [done|]. lia.
  - rewrite bool_decide_eq_false_2; [done|]. intros ->.
    assert (Qeq_bool (inject_Z b) (inject_Z b) = true) as E'
      by (apply Qeq_bool_iff; reflexivity).
    congruence.
Qed.

Lemma sp_ne_ints (a b : Z) :
  sp_ne (CInt a) (CInt b) = Some (bool_decide (a ≠ b)).
Proof.
  unfold sp_ne, cell_eqb; simpl. rewrite Qeq_bool_inject_Z.
  f_equal. by repeat case_bool_decide.
Qed.

End SeqFacts.

Section SlidingWindow.
Import Py PySeq Frame Validator Checks.

Variable flags : list Z.
Variable sps : list Z.
Variable w : nat.
Variable t : Z.
Hypothesis Hw : (0 < w)%nat.
Hypothesis Hlen : length sps = length flags.
Hypothesis Hnodup : NoDup sps.

Local Abbreviation violating :=
  (λ i : nat, t ≤ sum (take w (drop i flags))).
Local Abbreviation window_of :=
  (λ i : nat, (CInt (sps !!! i), CInt (sps !!! (i + w - 1)%nat))).

Lemma sliding_prefix (k : nat) :
  (k + w ≤ length flags + 1)%nat →
  foldM (window_step flags (CInt <$> sps) (Z.of_nat w) t) []
        (seqZ 0 (Z.of_nat k))
  = Some (window_of <$> filter violating (seq 0 k)).
Proof.
  induction k as [|k IH]; intros Hk; [done|].
  rewrite seqZ_S, foldM_app, IH by lia.
  rewrite seq_S, filter_app, fmap_app.
  cbn [mbind option_bind foldM]. rewrite !Z.add_0_l, Nat.add_0_l.
  unfold window_step at 1.
  rewrite slice_window by lia.
  assert (is_Some (sps !! k)) as [x Hx] by (apply lookup_lt_is_Some; lia).
  assert (is_Some (sps !! (k + w - 1)%nat)) as [y Hy]
    by (apply lookup_lt_is_Some; lia).
  rewrite filter_cons, filter_nil.
  destruct (Z.leb_spec t (sum (take w (drop k flags)))) as [Hv|Hv].
  - rewrite decide_True by done.
    rewrite index_nonneg by (rewrite length_fmap; lia).
    replace (Z.of_nat k + Z.of_nat w - 1) with (Z.of_nat (k + w - 1)) by lia.
    rewrite index_nonneg by (rewrite length_fmap; lia).
    rewrite !list_lookup_fmap, Hx, Hy. simpl.
    rewrite (list_lookup_total_correct _ _ _ Hx),
            (list_lookup_total_correct _ _ _ Hy).
    destruct (last (window_of <$> filter violating (seq 0 k)))
      as [v|] eqn:Hlast; [|by rewrite app_nil_r || done].
    rewrite fmap_last in Hlast.
    destruct (last (filter violating (seq 0 k))) as [j|] eqn:Hj;
      simplify_eq/=.
    apply last_Some_elem_of, list_elem_of_filter in Hj as [_ Hj].
    apply elem_of_seq in Hj.
    assert (is_Some (sps !! (j + w - 1)%nat)) as [z Hz]
      by (apply lookup_lt_is_Some; lia).
    rewrite (list_lookup_total_correct _ _ _ Hz), Qeq_bool_inject_Z.
    rewrite bool_decide_eq_false_2; [done|].
    intros ->.
    pose proof (NoDup_lookup _ _ _ _ Hnodup Hz Hy). lia.
  - rewrite decide_False by lia. by rewrite app_nil_r.
Qed.

End SlidingWindow.

Section SlidingWindowTotal.
Import Py PySeq Frame Validator Checks.

Lemma sliding_window_total (flags sps : list Z) (w : nat) (t : Z) :
  (0 < w)%nat → length sps = length flags → NoDup sps →
  is_Some (_sliding_window_check flags (CInt <$> sps) (Z.of_nat w) t).
Proof.
  intros Hw Hlen Hnodup. unfold _sliding_window_check, range1.
  destruct (decide (w ≤ length flags + 1)%nat) as [Hle|Hgt].
  - replace (Z.of_nat (length flags) - Z.of_nat w + 1 - 0)
      with (Z.of_nat (length flags + 1 - w)) by lia.
    rewrite sliding_prefix by (done || lia). by eexists.
  - unfold seqZ. replace (Z.to_nat _) with 0%nat by lia. by eexists.
Qed.

End SlidingWindowTotal.

Section ConsecutiveRun.
Import Py PySeq Frame Validator Checks.

Variable errs : list Z.
Variable sps : list Z.
Variable w : Z.
Hypothesis Hlen : length sps = length errs.
Hypothesis Hnodup : NoDup sps.

Lemma run_before_unique m r1 r2 :
  run_before errs m r1 → run_before errs m r2 → r1 = r2.
Proof.
  intros (Hle1 & Hrun1 & Hstop1) (Hle2 & Hrun2 & Hstop2).
  destruct (Nat.lt_trichotomy r1 r2) as [Hlt|[->|Hlt]]; [|done|].
  - destruct (Hrun2 (m - r1 - 1)%nat) as (e & He & Hne); [lia|].
    rewrite Hstop1 in He by lia. congruence.
  - destruct (Hrun1 (m - r2 - 1)%nat) as (e & He & Hne); [lia|].
    rewrite Hstop2 in He by lia. congruence.
Qed.

Local Abbreviation items := (zip (CInt <$> sps) errs).

Local Abbreviation reported :=
  (λ (m : nat) (e : option cell * cell * Z),
     ∃ j r, (j < m)%nat ∧ run_before errs (S j) r ∧ (0 < r)%nat
            ∧ w ≤ Z.of_nat r
            ∧ e = (Some (CInt (sps !!! (S j - r)%nat)), CInt (sps !!! j),
                   Z.of_nat r)).

Lemma consec_prefix (m : nat) :
  (m ≤ length errs)%nat →
  ∃ st r,
    foldM (consec_step w) (mkConsec 0 None []) (take m items) = Some st
    ∧ consec_count st = Z.of_nat r
    ∧ run_before errs m r
    ∧ ((0 < r)%nat →
       consec_start st = Some (CInt (sps !!! (m - r)%nat)))
    ∧ (∀ e, e ∈ consec_found st ↔ reported m e).
Proof.
  induction m as [|m IH]; intros Hm.
  { exists (mkConsec 0 None []), 0%nat. simpl.
    split_and!; [done|done| |lia|].
    - split_and!; [lia|intros; lia|lia].
    - intros e. split; [by intros ?%elem_of_nil|].
      intros (j & ? & ? & _); lia. }
  destruct IH as (st & r & Hst & Hcount & Hrun & Hstart & Hfound); [lia|].
  assert (is_Some (errs !! m)) as [x Hx] by (apply lookup_lt_is_Some; lia).
  assert (is_Some (sps !! m)) as [sp Hsp] by (apply lookup_lt_is_Some; lia).
  assert (items !! m = Some (CInt sp, x)) as Hitem.
  { apply lookup_zip_with_Some. exists (CInt sp), x.
    by rewrite list_lookup_fmap, Hsp, Hx. }
  rewrite (take_S_r _ _ _ Hitem), foldM_app, Hst.
  cbn [mbind option_bind foldM].
  pose proof (list_lookup_total_correct _ _ _ Hsp) as Hsp'.
  destruct Hrun as (Hle & Hall & Hstop).
  unfold consec_step at 1.
  destruct (decide (x ≠ 0)) as [Hne|Heq].
  - (* a source error: the run grows *)
    assert (run_before errs (S m) (S r)) as Hrun'.
    { split_and!; [lia| |].
      - intros k Hk. destruct (decide (k = m)) as [->|]; [by eauto|].
        apply Hall; lia.
      - intros ?. replace (S m - S r - 1)%nat with (m - r - 1)%nat by lia.
        apply Hstop; lia. }
    set (start' := if decide (consec_count st = 0) then Some (CInt sp)
                   else consec_start st).
    assert (start' = Some (CInt (sps !!! (S m - S r)%nat))) as Hstart'.
    { unfold start'. case_decide as Hc.
      - assert (r = 0%nat) as -> by lia.
        replace (S m - 1)%nat with m by lia.
        by rewrite (list_lookup_total_correct _ _ _ Hsp).
      - rewrite Hstart by lia. do 3 f_equal. }
    assert (∀ e, reported (S m) e ↔
                 reported m e
                 ∨ (w ≤ Z.of_nat (S r)
                    ∧ e = (Some (CInt (sps !!! (S m - S r)%nat)),
                           CInt sp, Z.of_nat (S r)))) as Hrep.
    { intros e. split.
      - intros (j & r' & Hj & Hr' & Hpos & Hw & ->).
        destruct (decide (j = m)) as [->|]; [|left; exists j, r'; by auto with lia].
        right. rewrite (run_before_unique _ _ _ Hr' Hrun') in *.
        by rewrite (list_lookup_total_correct _ _ _ Hsp).
      - intros [(j & r' & Hj & Hrest)|[Hw ->]].
        + exists j, r'. split; [lia|done].
        + exists m, (S r). rewrite (list_lookup_total_correct _ _ _ Hsp).
          split_and!; [lia|done|lia|done|done]. }
    destruct (Z.leb_spec w (consec_count st + 1)) as [Hw|Hw].
    + assert (∃ st', match last (consec_found st) with
                     | None =>
                         Some (mkConsec (consec_count st + 1) start'
                                 (consec_found st
                                  ++ [(start', CInt sp, consec_count st + 1)]))
                     | Some e =>
                         differs ← sp_ne e.1.2 (CInt sp);
                         (if differs : bool
                          then Some (mkConsec (consec_count st + 1) start'
                                       (consec_found st
                                        ++ [(start', CInt sp,
                                             consec_count st + 1)]))
                          else Some (mkConsec (consec_count st + 1) start'
                                       (consec_found st)))
                     end = Some st'
                   ∧ st' = mkConsec (consec_count st + 1) start'
                             (consec_found st
                              ++ [(start', CInt sp, consec_count st + 1)]))
        as (st' & -> & ->).
      { destruct (last (consec_found st)) as [e|] eqn:Hlast; [|by eexists].
        apply last_Some_elem_of, Hfound in Hlast
          as (j & r' & Hj & _ & _ & _ & ->). simpl.
        assert (is_Some (sps !! j)) as [z Hz]
          by (apply lookup_lt_is_Some; lia).
        rewrite (list_lookup_total_correct _ _ _ Hz), Qeq_bool_inject_Z.
        rewrite bool_decide_eq_false_2; [by eexists|].
        intros ->. pose proof (NoDup_lookup _ _ _ _ Hnodup Hz Hsp). lia. }
      eexists _, (S r). split; [done|]. simpl.
      split_and!; [lia|done|done|].
      intros e. rewrite elem_of_app, list_elem_of_singleton, Hfound, Hrep.
      rewrite Hstart', Hcount.
      replace (Z.of_nat r + 1) with (Z.of_nat (S r)) by lia.
      split; (intros [?|?]; [by left|right]); [split; [lia|done]|tauto].
    + eexists _, (S r). split; [done|]. simpl.
      split_and!; [lia|done|done|].
      intros e. rewrite Hfound, Hrep. split; [auto|].
      intros [?|[? _]]; [done|lia].
  - (* no source error: the run ends *)
    assert (x = 0) as -> by (destruct (decide (x = 0)); [done|tauto]).
    exists (mkConsec 0 None (consec_found st)), 0%nat.
    split; [done|]. simpl. split_and!; [done| |lia|].
    + split_and!; [lia|intros; lia|].
      intros _. by replace (S m - 0 - 1)%nat with m by lia.
    + intros e. rewrite Hfound. split.
      * intros (j & r' & Hj & Hrest). exists j, r'. split; [lia|done].
      * intros (j & r' & Hj & Hr' & Hpos & Hrest).
        exists j, r'. split; [|done].
        destruct (decide (j = m)) as [->|]; [|lia].
        destruct Hr' as (_ & Hall' & _).
        destruct (Hall' m) as (e' & He' & Hne'); [lia|]. congruence.
Qed.

End ConsecutiveRun.

Section SourceErrorWindows.
Import Py PySeq Frame Validator Checks.

Variable th : QCThresholds.

Lemma consec_loop_total (errs sps : list Z) :
  length sps = length errs → NoDup sps →
  ∃ st,
    foldM (consec_step (consec_error_window_7 th)) (mkConsec 0 None [])
          (zip (CInt <$> sps) errs) = Some st
    ∧ ∀ e, e ∈ consec_found st ↔
           ∃ j r, (j < length errs)%nat ∧ run_before errs (S j) r
                  ∧ (0 < r)%nat
                  ∧ consec_error_window_7 th ≤ Z.of_nat r
                  ∧ e = (Some (CInt (sps !!! (S j - r)%nat)),
                         CInt (sps !!! j), Z.of_nat r).
Proof.
  intros Hlen Hnodup.
  destruct (consec_prefix errs sps (consec_error_window_7 th) Hlen Hnodup
              (length errs)) as (st & r & Hst & _ & _ & _ & Hfound); [done|].
  exists st. split; [|done].
  rewrite take_ge in Hst; [done|].
  rewrite length_zip_with, length_fmap. lia.
Qed.


End SourceErrorWindows.

Section SourceErrorWindowsWitness.
Import Py PySeq Frame Validator Checks.


(** X1: with distinct shot points [_sliding_window_check] reports every
    window that holds at least [threshold] errors, overlapping or not;
    its guard against duplicates never fires. *)
Theorem sliding_window_reports_every_window (flags sps : list Z) (w : nat)
    (t : Z) :
  (0 < w)%nat → length sps = length flags → NoDup sps →
  _sliding_window_check flags (CInt <$> sps) (Z.of_nat w) t
  = Some ((λ i : nat, (CInt (sps !!! i), CInt (sps !!! (i + w - 1)%nat)))
            <$> filter (λ i : nat, t ≤ sum (take w (drop i flags)))
                       (seq 0 (length flags + 1 - w))).
Proof.
  intros Hw Hlen Hnodup. unfold _sliding_window_check, range1.
  destruct (decide (w ≤ length flags + 1)%nat) as [Hle|Hgt].
  - replace (Z.of_nat (length flags) - Z.of_nat w + 1 - 0)
      with (Z.of_nat (length flags + 1 - w)) by lia.
    apply sliding_prefix; [done..|lia].
  - replace (length flags + 1 - w)%nat with 0%nat by lia.
    unfold seqZ. replace (Z.to_nat _) with 0%nat by lia. done.
Qed.

Lemma sliding_window_reports_every_window_witness :
  _sliding_window_check [1; 1; 1; 0]
    (CInt <$> [1001; 1003; 1005; 1007]) 2 2
  = Some [(CInt 1001, CInt 1003); (CInt 1003, CInt 1005)].
Proof.
  apply (sliding_window_reports_every_window [1; 1; 1; 0]
           [1001; 1003; 1005; 1007] 2 2).
  - lia.
  - reflexivity.
  - apply (bool_decide_unpack _). vm_compute. exact I.
Defined.

End SourceErrorWindowsWitness.

Section ConsecutiveErrors.
Import Py PySeq Frame Validator Checks.

Variable th : QCThresholds.
Variable df : DataFrame.
Hypothesis Hwf : well_formed df.

Lemma select_length (mask : list bool) (s : Series) :
  length mask = length s →
  length (Report.select mask s) = length (filter (λ b, b = true) mask).
Proof.
  revert s. induction mask as [|b mask IH]; intros [|c s] Hlen;
    simplify_eq/=; [done|].
  destruct b.
  - rewrite filter_cons_True by done. simpl. by rewrite IH.
  - rewrite filter_cons_False by done. by rewrite IH.
Qed.

Lemma filter_true_length (mask : list bool) :
  (length (filter (λ b, b = true) mask) ≤ length mask)%nat.
Proof. apply length_filter. Qed.

(** What is known of one entry of the result. *)
Local Abbreviation counted :=
  (λ e : cell * cell * Z,
     consecutive_error_limit th < e.2 ≤ Z.of_nat (nrows df)
     ∧ ∃ flag s mask sp,
         flag ∈ error_flag_columns
         ∧ get df flag = Some s
         ∧ mask_of Report.is_positive s = Some mask
         ∧ get df "shot_point" = Some sp
         ∧ e.2 = Z.of_nat (length (filter (λ b, b = true) mask))
         ∧ head (Report.select mask sp) = Some e.1.1
         ∧ last (Report.select mask sp) = Some e.1.2).

Lemma consecutive_step_counted acc flag :
  has_column df "shot_point" = true →
  (∀ s, get df flag = Some s → numeric s) →
  flag ∈ error_flag_columns →
  Forall counted acc →
  ∃ acc', consecutive_step th df acc flag = Some acc'
          ∧ Forall counted acc'.
Proof.
  intros Hsp Hnum Hflag Hacc. unfold consecutive_step.
  destruct (get df flag) as [s|] eqn:Hs; [|by eauto].
  destruct (mask_of_is_Some Report.is_positive s) as [mask Hmask];
    [by apply Hnum|].
  rewrite Hmask. cbn [mbind option_bind].
  apply has_column_get in Hsp as [sp Hsp].
  pose proof (get_well_formed _ _ _ Hwf Hs) as Hls.
  pose proof (get_well_formed _ _ _ Hwf Hsp) as Hlsp.
  pose proof (mapM_length _ _ _ Hmask) as Hlm.
  assert (nrows (Report.boolean_index mask df)
          = length (filter (λ b, b = true) mask)) as Hn.
  { unfold Report.boolean_index; simpl. by rewrite take_ge by lia. }
  assert (get (Report.boolean_index mask df) "shot_point"
          = Some (Report.select mask sp)) as Hsel.
  { unfold get, Report.boolean_index; simpl.
    rewrite assoc_get_fmap. unfold get in Hsp. by rewrite Hsp. }
  destruct (NavQC.empty (Report.boolean_index mask df)) eqn:Hempty;
    simpl; [by eauto|].
  rewrite Hsel. cbn [mbind option_bind].
  assert (length (Report.select mask sp)
          = length (filter (λ b, b = true) mask)) as Hlen
    by (apply select_length; lia).
  unfold NavQC.empty in Hempty. apply orb_false_iff in Hempty as [Hrows _].
  apply bool_decide_eq_false in Hrows. rewrite Hn in Hrows.
  destruct (Report.select mask sp) as [|c sel] eqn:Hsel';
    [simpl in Hlen; lia|].
  cbn [head mbind option_bind].
  destruct (last (c :: sel)) as [l|] eqn:Hlast;
    [|by apply last_None in Hlast].
  cbn [mbind option_bind]. rewrite (take_ge mask) by lia.
  destruct (Z.ltb_spec (consecutive_error_limit th)
              (Z.of_nat (length (filter (λ b, b = true) mask))));
    [|by eauto].
  eexists. split; [done|]. apply Forall_app. split; [done|].
  apply Forall_singleton. simpl. split.
  - pose proof (filter_true_length mask). lia.
  - exists flag, s, mask, sp. rewrite Hsel'. by split_and!.
Qed.

End ConsecutiveErrors.

Section ConsecutiveErrorsClaim.
Import Py PySeq Frame Validator Checks.

Variable th : QCThresholds.

(** X3: an entry of [check_consecutive_errors] counts all the flagged rows
    of one flag column, adjacent or not, between the first and the last
    of them; a table with no more rows than the limit is never
    reported. *)
Theorem check_consecutive_errors_counts_all_flagged_rows (df : DataFrame) :
  well_formed df →
  has_column df "shot_point" = true →
  (∀ flag s, flag ∈ error_flag_columns → get df flag = Some s →
             numeric s) →
  ∃ res,
    check_consecutive_errors th df = Some res
    ∧ (∀ start end_ count, (start, end_, count) ∈ res →
         consecutive_error_limit th < count ≤ Z.of_nat (nrows df)
         ∧ ∃ flag s mask sp,
             flag ∈ error_flag_columns
             ∧ get df flag = Some s
             ∧ mask_of Report.is_positive s = Some mask
             ∧ get df "shot_point" = Some sp
             ∧ count = Z.of_nat (length (filter (λ b, b = true) mask))
             ∧ head (Report.select mask sp) = Some start
             ∧ last (Report.select mask sp) = Some end_)
    ∧ (Z.of_nat (nrows df) ≤ consecutive_error_limit th → res = []).
Proof.
  intros Hwf Hsp Hnum. unfold check_consecutive_errors.
  destruct (foldM_invariant
              (Forall (λ e : cell * cell * Z,
                 consecutive_error_limit th < e.2 ≤ Z.of_nat (nrows df)
                 ∧ ∃ flag s mask sp,
                     flag ∈ error_flag_columns
                     ∧ get df flag = Some s
                     ∧ mask_of Report.is_positive s = Some mask
                     ∧ get df "shot_point" = Some sp
                     ∧ e.2 = Z.of_nat (length (filter (λ b, b = true) mask))
                     ∧ head (Report.select mask sp) = Some e.1.1
                     ∧ last (Report.select mask sp) = Some e.1.2))
              (consecutive_step th df) error_flag_columns [])
    as (res & Hres & Hall).
  - constructor.
  - intros acc flag Hflag Hacc.
    apply consecutive_step_counted; eauto.
  - exists res. split; [done|]. split.
    + intros start end_ count Hin.
      rewrite Forall_forall in Hall. exact (Hall _ Hin).
    + intros Hsmall. destruct res as [|[[a b] c] res]; [done|].
      apply Forall_cons in Hall as [[Hc _] _]. simpl in Hc. lia.
Qed.

End ConsecutiveErrorsClaim.

Section ConsecutiveErrorsWitness.
Import Py PySeq Frame Validator Checks.

Lemma check_consecutive_errors_counts_all_flagged_rows_witness :
  check_consecutive_errors default_thresholds
    (mkDataFrame 3 [ ("shot_point", [CInt 1001; CInt 1003; CInt 1005]);
                     ("sma_flag", [CInt 2; CInt 0; CInt 2]) ])
  = Some [].
Proof.
  destruct (check_consecutive_errors_counts_all_flagged_rows
              default_thresholds
              (mkDataFrame 3
                 [ ("shot_point", [CInt 1001; CInt 1003; CInt 1005]);
                   ("sma_flag", [CInt 2; CInt 0; CInt 2]) ]))
    as (res & Hres & _ & Hsmall).
  - repeat constructor.
  - reflexivity.
  - intros flag s _ Hget. unfold get in Hget. simpl in Hget.
    repeat case_decide; simplify_eq; repeat constructor; by eexists.
  - rewrite Hres, Hsmall; [done|]. simpl. lia.
Defined.

End ConsecutiveErrorsWitness.
(** ** The flag a rule leaves on each row *)

Section TimingOutcome.
Import Py Frame Validator Outcome.

Variable th : QCThresholds.

(** The flag of one row after one column with the reading [o]. *)
Local Abbreviation step_value :=
  (λ (z : Z) (o : option Q),
     if timing_mask (timing_error th) o then 2
     else if timing_mask (timing_warning th) o then Z.max z 1 else z).

Lemma assign_ints_lookup mask (rs vals vals' : list Z) i z :
  assign mask (CInt <$> rs) (CInt <$> vals) = CInt <$> vals' →
  vals !! i = Some z →
  vals' !! i = Some (match mask !! i, rs !! i with
                     | Some true, Some r => r
                     | _, _ => z
                     end).
Proof.
  intros Heq Hz. apply (f_equal (.!! i)) in Heq.
  rewrite assign_lookup, !list_lookup_fmap, Hz in Heq. simpl in Heq.
  destruct (vals' !! i) as [z'|]; simpl in Heq.
  - destruct (mask !! i) as [[]|]; destruct (rs !! i); simpl in Heq;
      by simplify_eq.
  - destruct (mask !! i) as [[]|]; destruct (rs !! i); simpl in Heq; done.
Qed.

Lemma fold_step_value (os : list (option Q)) : ∀ z,
  foldl step_value z os = timing_flag th os z.
Proof.
  unfold timing_flag.
  induction os as [|o os IH]; intros z; [done|].
  cbn [foldl existsb]. rewrite IH.
  destruct (timing_mask (timing_error th) o),
           (timing_mask (timing_warning th) o),
           (existsb (timing_mask (timing_error th)) os),
           (existsb (timing_mask (timing_warning th)) os);
    simpl; lia.
Qed.

Lemma timing_column_step_value d col s (f : list Z) :
  get d "gun_timing_flag" = Some (CInt <$> f) →
  length f = nrows d →
  col ≠ "gun_timing_flag" →
  get d col = Some s → numeric s → length s = nrows d →
  ∃ d' f',
    timing_column_step th d col = Some d'
    ∧ get d' "gun_timing_flag" = Some (CInt <$> f')
    ∧ length f' = length f
    ∧ nrows d' = nrows d
    ∧ (∀ col', col' ≠ "gun_timing_flag" → get d' col' = get d col')
    ∧ (∀ i z, f !! i = Some z →
         ∃ o, reading d col i = Some o ∧ f' !! i = Some (step_value z o)).
Proof.
  intros Hf Hlen Hne Hs Hnum Hls.
  unfold timing_column_step, warning_write.
  rewrite Hf. simpl. rewrite mapM_maximum1_ints. simpl. rewrite Hs. simpl.
  destruct (mask_of_is_Some (timing_mask (timing_warning th)) s Hnum)
    as [wmask Hw].
  rewrite Hw. simpl. unfold error_write.
  rewrite get_loc_assign_ne by done. rewrite Hs. simpl.
  destruct (mask_of_is_Some (timing_mask (timing_error th)) s Hnum)
    as [emask He].
  rewrite He. simpl.
  destruct (assign_ints (λ _, True) wmask ((λ z, Z.max z 1) <$> f) f)
    as (f1 & Hf1 & Hl1 & _); [by apply Forall_true..|].
  destruct (assign_ints (λ _, True) emask (replicate (nrows d) 2) f1)
    as (f2 & Hf2 & Hl2 & _); [by apply Forall_true..|].
  eexists _, f2. split; [done|].
  unfold loc_set. rewrite get_loc_assign_eq, nrows_loc_assign.
  rewrite get_loc_assign_eq, Hf. simpl.
  rewrite Hf1, <- fmap_replicate, Hf2.
  split_and!; [done|lia|done| |].
  - intros col' Hc. by rewrite !get_loc_assign_ne.
  - intros i z Hz. unfold reading. rewrite Hs. simpl.
    assert (i < nrows d)%nat as Hi
      by (rewrite <- Hlen; by eapply lookup_lt_Some).
    assert (is_Some (s !! i)) as [c Hc] by (apply lookup_lt_is_Some; lia).
    rewrite Hc. simpl.
    pose proof Hnum as Hall. unfold numeric in Hall.
    rewrite Forall_forall in Hall.
    destruct (Hall c) as [o Ho]; [by eapply list_elem_of_lookup_2|].
    exists o. split; [done|].
    pose proof (assign_ints_lookup _ _ _ _ i z Hf1 Hz) as H1.
    rewrite (mask_of_lookup _ _ _ i Hw), Hc in H1. simpl in H1.
    rewrite Ho in H1. simpl in H1.
    rewrite list_lookup_fmap, Hz in H1. simpl in H1.
    pose proof (assign_ints_lookup _ _ _ _ i _ Hf2 H1) as H2.
    rewrite (mask_of_lookup _ _ _ i He), Hc in H2. simpl in H2.
    rewrite Ho in H2. simpl in H2.
    rewrite lookup_replicate_2 in H2 by done.
    exact H2.
Qed.

Lemma timing_loop_value (df : DataFrame) (cols : list string) : ∀ d f,
  (∀ col, col ∈ cols →
          col ≠ "gun_timing_flag"
          ∧ ∃ s, get df col = Some s ∧ numeric s ∧ length s = nrows df) →
  nrows d = nrows df →
  (∀ col, col ≠ "gun_timing_flag" → get d col = get df col) →
  get d "gun_timing_flag" = Some (CInt <$> f) →
  length f = nrows df →
  ∃ d' f',
    foldM (timing_column_step th) d cols = Some d'
    ∧ get d' "gun_timing_flag" = Some (CInt <$> f')
    ∧ length f' = length f
    ∧ (∀ col, col ≠ "gun_timing_flag" → get d' col = get df col)
    ∧ (∀ i z, f !! i = Some z →
         f' !! i
         = Some (foldl step_value z (omap (λ col, reading df col i) cols))).
Proof.
  induction cols as [|col cols IH]; intros d f Hcols Hn Hsame Hf Hlen.
  { exists d, f. by split_and!. }
  destruct (Hcols col) as (Hne & s & Hs & Hnum & Hls); [by left|].
  destruct (timing_column_step_value d col s f)
    as (d1 & f1 & Hstep & Hf1 & Hl1 & Hn1 & Hsame1 & Hval1);
    [done|lia|done|by rewrite Hsame|done|lia|].
  destruct (IH d1 f1) as (d' & f' & Hrun & Hf' & Hl' & Hsame' & Hval');
    [|lia| |done|lia|].
  { intros c Hc. apply Hcols. by right. }
  { intros c Hc. rewrite Hsame1 by done. by apply Hsame. }
  exists d', f'. cbn [foldM]. rewrite Hstep. cbn [mbind option_bind].
  split_and!; [done|done|lia|done|].
  intros i z Hz. destruct (Hval1 i z Hz) as (o & Ho & Hz1).
  rewrite (Hval' i _ Hz1). f_equal. cbn [omap list_omap].
  assert (reading df col i = Some o) as ->.
  { unfold reading in *. by rewrite <- Hsame. }
  done.
Qed.

(** X4: after [validate_gun_timing] the flag of a row is 2 when one of its
    timing readings passes the error limit, otherwise at least 1 when one
    passes the warning limit, otherwise what it was; the codes 63, 61 and
    90 and nulls pass no limit. *)
Theorem gun_timing_flag_value (df : DataFrame) (f0 : list Z) :
  well_formed df →
  (∀ col s, get df col = Some s → is_timing_col col = true → numeric s) →
  get df "gun_timing_flag" = Some (CInt <$> f0) →
  ∃ df' f1,
    validate_gun_timing th df = Some df'
    ∧ get df' "gun_timing_flag" = Some (CInt <$> f1)
    ∧ length f1 = length f0
    ∧ ∀ i z, f0 !! i = Some z →
             f1 !! i = Some (timing_flag th (timing_readings df i) z).
Proof.
  intros Hwf Hnum Hf0.
  pose proof (get_well_formed _ _ _ Hwf Hf0) as Hlen.
  rewrite length_fmap in Hlen.
  destruct (timing_loop_value df
              (filter (λ c, is_timing_col c) (names df)) df f0)
    as (d' & f' & Hrun & Hf' & Hl' & _ & Hval); [|done|done|done|done|].
  { intros col [Ht Hin]%list_elem_of_filter.
    apply Is_true_true in Ht.
    split; [intros ->; by vm_compute in Ht|].
    destruct (in_names_get df col Hin) as [s Hs].
    exists s. split_and!; [done|by eapply Hnum|by eapply get_well_formed]. }
  unfold validate_gun_timing.
  destruct (filter (λ c, is_timing_col c) (names df)) as [|c cs] eqn:Hcols.
  - exists df, f0. split_and!; [done..|].
    intros i z Hz. unfold timing_readings, timing_flag.
    by rewrite Hcols.
  - exists d', f'. split_and!; [done..|].
    intros i z Hz. rewrite (Hval i z Hz), fold_step_value.
    unfold timing_readings. by rewrite Hcols.
Qed.

End TimingOutcome.

Section TimingOutcomeWitness.
Import Py Frame Validator Outcome.

Lemma gun_timing_flag_value_witness :
  ∃ df' f1,
    validate_gun_timing default_thresholds after_first_gun = Some df'
    ∧ get df' "gun_timing_flag" = Some (CInt <$> f1)
    ∧ f1 !! 0%nat = Some 2.
Proof.
  destruct (gun_timing_flag_value default_thresholds after_first_gun [2])
    as (df' & f1 & Hrun & Hf1 & _ & Hval).
  - repeat constructor.
  - intros col s Hget _. unfold get in Hget. simpl in Hget.
    repeat case_decide; simplify_eq; repeat constructor; by eexists.
  - reflexivity.
  - exists df', f1. split_and!; [done..|]. by rewrite (Hval 0%nat 2).
Defined.

End TimingOutcomeWitness.
Section FlagWrites.
Import Py Frame Validator Outcome.

Lemma loc_set_value d flag (vals : list Z) mask v :
  get d flag = Some (CInt <$> vals) →
  length vals = nrows d →
  ∃ vals',
    get (loc_set mask flag v d) flag = Some (CInt <$> vals')
    ∧ length vals' = length vals
    ∧ ∀ i z, vals !! i = Some z →
             vals' !! i
             = Some (if default false (mask !! i) then v else z).
Proof.
  intros Hf Hlen.
  destruct (assign_ints (λ _, True) mask (replicate (nrows d) v) vals)
    as (vals' & Hvals' & Hl' & _); [by apply Forall_true..|].
  exists vals'. unfold loc_set. rewrite get_loc_assign_eq, Hf. simpl.
  rewrite <- fmap_replicate, Hvals'. split_and!; [done..|].
  intros i z Hz.
  rewrite (assign_ints_lookup _ _ _ _ i z Hvals' Hz).
  assert (i < nrows d)%nat
    by (rewrite <- Hlen; by eapply lookup_lt_Some).
  rewrite lookup_replicate_2 by done.
  by destruct (mask !! i) as [[]|].
Qed.

Lemma mask_of_reading df col s p mask i :
  get df col = Some s → mask_of p s = Some mask →
  mask !! i = p <$> reading df col i.
Proof.
  intros Hs Hm. rewrite (mask_of_lookup _ _ _ i Hm).
  unfold reading. rewrite Hs. simpl.
  destruct (s !! i) as [c|]; simpl; [|done]. by destruct (num_of c).
Qed.

Lemma reading_is_Some df col s i :
  well_formed df → get df col = Some s → numeric s → (i < nrows df)%nat →
  is_Some (reading df col i).
Proof.
  intros Hwf Hs Hnum Hi. unfold reading. rewrite Hs. simpl.
  assert (is_Some (s !! i)) as [c Hc].
  { apply lookup_lt_is_Some. by rewrite (get_well_formed _ _ _ Hwf Hs). }
  rewrite Hc. simpl. unfold numeric in Hnum.
  rewrite Forall_forall in Hnum. apply Hnum.
  by eapply list_elem_of_lookup_2.
Qed.

End FlagWrites.

Section VolumeOutcome.
Import Py Frame Validator Outcome.

Variable th : QCThresholds.
Variable df : DataFrame.
Hypothesis Hwf : well_formed df.

Lemma misfire_mask_value (cols : list string) : ∀ acc,
  length acc = nrows df →
  (∀ col, col ∈ cols → ∃ s, get df col = Some s ∧ numeric s) →
  ∃ mask,
    foldM (λ acc col,
             s ← get df col;
             m ← mask_of (λ o, Qeq_bool (Qabs (fillna0 o)) 90) s;
             Some (mask_or acc m)) acc cols = Some mask
    ∧ length mask = nrows df
    ∧ ∀ i b, acc !! i = Some b →
             mask !! i
             = Some (b || misfired (omap (λ col, reading df col i) cols)).
Proof.
  induction cols as [|col cols IH]; intros acc Hlen Hcols.
  { exists acc. split_and!; [done..|]. intros i b Hb.
    by rewrite orb_false_r. }
  destruct (Hcols col) as (s & Hs & Hnum); [by left|].
  destruct (mask_of_is_Some (λ o, Qeq_bool (Qabs (fillna0 o)) 90) s Hnum)
    as [m Hm].
  pose proof (mapM_length _ _ _ Hm) as Hlm.
  pose proof (get_well_formed _ _ _ Hwf Hs) as Hls.
  destruct (IH (mask_or acc m)) as (mask & Hrun & Hl & Hval).
  { unfold mask_or. rewrite length_zip_with. lia. }
  { intros c Hc. apply Hcols. by right. }
  exists mask. cbn [foldM]. rewrite Hs. cbn [mbind option_bind].
  rewrite Hm. cbn [mbind option_bind]. split_and!; [done..|].
  intros i b Hb.
  assert (i < nrows df)%nat as Hi
    by (rewrite <- Hlen; by eapply lookup_lt_Some).
  destruct (reading_is_Some df col s i Hwf Hs Hnum Hi) as [o Ho].
  pose proof (mask_of_reading df col s _ m i Hs Hm) as Hmi.
  rewrite Ho in Hmi. simpl in Hmi.
  rewrite (Hval i (b || Qeq_bool (Qabs (fillna0 o)) 90)).
  - cbn [omap list_omap]. rewrite Ho. unfold misfired. cbn [existsb].
    by rewrite orb_assoc.
  - unfold mask_or. rewrite lookup_zip_with, Hb. simpl. by rewrite Hmi.
Qed.

(** X5: [validate_volume] never flags a row in which a gun-timing column
    holds the misfire code 90 (with either sign); any other row is
    flagged 2 exactly when its volume, a null counting as 0, is not the
    nominal volume: larger volumes are flagged like smaller ones. *)
Theorem volume_flag_exempts_misfires (vol : Series) (f0 : list Z) :
  get df "VOLUME" = Some vol →
  numeric vol →
  (∀ col s, get df col = Some s → report_timing_col col = true →
            numeric s) →
  get df "volume_flag" = Some (CInt <$> f0) →
  ∃ df' f1,
    validate_volume th df = Some df'
    ∧ get df' "volume_flag" = Some (CInt <$> f1)
    ∧ length f1 = length f0
    ∧ ∀ i z, f0 !! i = Some z →
             ∃ v, reading df "VOLUME" i = Some v
                  ∧ f1 !! i
                    = Some (volume_flag th (report_readings df i) v z).
Proof.
  intros Hvol Hnv Hnum Hf0.
  pose proof (get_well_formed _ _ _ Hwf Hf0) as Hlen.
  rewrite length_fmap in Hlen.
  unfold validate_volume. rewrite Hvol.
  destruct (misfire_mask_value
              (filter (λ c, report_timing_col c) (names df))
              (replicate (nrows df) false))
    as (mm & Hmm & Hlmm & Hmv).
  { by rewrite length_replicate. }
  { intros col [Ht Hin]%list_elem_of_filter.
    apply Is_true_true in Ht.
    destruct (in_names_get df col Hin) as [s Hs].
    exists s. split; [done|]. by eapply Hnum. }
  rewrite Hmm. cbn [mbind option_bind].
  destruct (mask_of_is_Some
              (λ o, negb (Qeq_bool (fillna0 o) (volume_nominal th)))
              vol Hnv) as [differs Hd].
  rewrite Hd. cbn [mbind option_bind].
  destruct (loc_set_value df "volume_flag" f0
              (mask_and differs (mask_not mm)) 2 Hf0 Hlen)
    as (f1 & Hf1 & Hl1 & Hval).
  eexists _, f1. split_and!; [done..|].
  intros i z Hz.
  assert (i < nrows df)%nat as Hi
    by (rewrite <- Hlen; by eapply lookup_lt_Some).
  destruct (reading_is_Some df "VOLUME" vol i Hwf Hvol Hnv Hi) as [v Hv].
  exists v. split; [done|]. rewrite (Hval i z Hz). f_equal.
  pose proof (mask_of_reading df "VOLUME" vol _ differs i Hvol Hd) as Hdi.
  rewrite Hv in Hdi. simpl in Hdi.
  unfold mask_and, mask_not.
  rewrite lookup_zip_with, Hdi, list_lookup_fmap. simpl.
  rewrite (Hmv i false) by (by apply lookup_replicate_2).
  simpl. unfold volume_flag, report_readings. done.
Qed.

End VolumeOutcome.

Section VolumeOutcomeWitness.
Import Py Frame Validator Outcome.

Lemma volume_flag_exempts_misfires_witness :
  ∃ df' f1,
    validate_volume default_thresholds
      (mkDataFrame 2
         [ ("VOLUME", [CNum 2900; CNum 3100]);
           ("String_1-Cluster_1-Gun_1", [CNum (-90); CNum 0]);
           ("volume_flag", [CInt 0; CInt 0]) ]) = Some df'
    ∧ get df' "volume_flag" = Some (CInt <$> f1)
    ∧ f1 !! 0%nat = Some 0 ∧ f1 !! 1%nat = Some 2.
Proof.
  destruct (volume_flag_exempts_misfires default_thresholds
              (mkDataFrame 2
                 [ ("VOLUME", [CNum 2900; CNum 3100]);
                   ("String_1-Cluster_1-Gun_1", [CNum (-90); CNum 0]);
                   ("volume_flag", [CInt 0; CInt 0]) ])
              ltac:(repeat constructor)
              [CNum 2900; CNum 3100] [0; 0])
    as (df' & f1 & Hrun & Hf1 & _ & Hval).
  - reflexivity.
  - repeat constructor; by eexists.
  - intros col s Hget _. unfold get in Hget. simpl in Hget.
    repeat case_decide; simplify_eq; repeat constructor; by eexists.
  - reflexivity.
  - exists df', f1. split_and!; [done..| |].
    + destruct (Hval 0%nat 0) as (v & Hv & ->); [done|].
      vm_compute in Hv. by simplify_eq.
    + destruct (Hval 1%nat 0) as (v & Hv & ->); [done|].
      vm_compute in Hv. by simplify_eq.
Defined.

End VolumeOutcomeWitness.
Section PressureOutcome.
Import Py Frame Validator Outcome.

Variable th : QCThresholds.
Variable df : DataFrame.
Hypothesis Hwf : well_formed df.

Local Abbreviation flag := "gun_pressure_flag".

(** The running table [d] agrees with [df] but for the flag column,
    which holds the integers [f]. *)
Local Abbreviation agrees :=
  (λ (d : DataFrame) (f : list Z),
     nrows d = nrows df
     ∧ (∀ col, col ≠ flag → get d col = get df col)
     ∧ (∀ col, col ∈ names d ↔ col ∈ names df)
     ∧ get d flag = Some (CInt <$> f)
     ∧ length f = nrows df).

Lemma filter_iff_list {A} (P Q : A → Prop) `{∀ x, Decision (P x)}
    `{∀ x, Decision (Q x)} (l : list A) :
  (∀ x, P x ↔ Q x) → filter P l = filter Q l.
Proof.
  intros HPQ. induction l as [|x l IH]; [done|].
  rewrite !filter_cons, IH.
  destruct (decide (P x)), (decide (Q x)); try done; by apply HPQ in p || (exfalso; apply n; apply HPQ).
Qed.

Lemma names_assoc_set_present name s cols :
  name ∈ cols.*1 → (assoc_set name s cols).*1 = cols.*1.
Proof.
  induction cols as [|[n old] cols IH]; simpl; [by intros ?%elem_of_nil|].
  intros Hin. case_decide; simpl; [by subst|].
  f_equal. apply IH. apply elem_of_cons in Hin as [?|?]; [by subst|done].
Qed.

Lemma names_loc_set_present d mask name v s :
  get d name = Some s → names (loc_set mask name v d) = names d.
Proof.
  intros Hs. unfold loc_set, loc_assign, set_column, names. simpl.
  apply names_assoc_set_present. by eapply get_in_names.
Qed.

Lemma agrees_loc_set d f mask :
  agrees d f →
  ∃ f', agrees (loc_set mask flag 2 d) f'
        ∧ ∀ i z, f !! i = Some z →
                 f' !! i = Some (if default false (mask !! i) then 2 else z).
Proof.
  intros (Hn & Hsame & Hnames & Hf & Hlen).
  destruct (loc_set_value d flag f mask 2 Hf) as (f' & Hf' & Hl' & Hval);
    [lia|].
  exists f'. split; [|done]. split_and!.
  - unfold loc_set. by rewrite nrows_loc_assign.
  - intros col Hc. unfold loc_set. rewrite get_loc_assign_ne by done.
    by apply Hsame.
  - intros col. by rewrite (names_loc_set_present _ _ _ _ _ Hf).
  - done.
  - lia.
Qed.

Lemma pressure_cols_value (rows : list bool) (cols : list string) :
  ∀ d f,
  agrees d f →
  (∀ col, col ∈ cols →
          col ≠ flag ∧ ∃ s, get df col = Some s ∧ numeric s) →
  ∃ d' f',
    foldM (λ df col,
             s ← get df col;
             m ← mask_of (outside (gun_pressure_min th)
                            (gun_pressure_max th)) s;
             Some (loc_set (mask_and rows m) flag 2 df)) d cols = Some d'
    ∧ agrees d' f'
    ∧ ∀ i z, f !! i = Some z →
             f' !! i
             = Some (if default false (rows !! i)
                        && existsb (outside (gun_pressure_min th)
                                      (gun_pressure_max th))
                                   (omap (λ col, reading df col i) cols)
                     then 2 else z).
Proof.
  induction cols as [|col cols IH]; intros d f Hd Hcols.
  { exists d, f. split; [done|]. split; [exact Hd|]. intros i z Hz.
    by rewrite andb_false_r. }
  destruct (Hcols col) as (Hne & s & Hs & Hnum); [by left|].
  destruct (mask_of_is_Some (outside (gun_pressure_min th)
                               (gun_pressure_max th)) s Hnum) as [m Hm].
  destruct (agrees_loc_set d f (mask_and rows m) Hd) as (f1 & Hd1 & Hv1).
  destruct (IH _ f1 Hd1) as (d' & f' & Hrun & Hd' & Hv').
  { intros c Hc. apply Hcols. by right. }
  exists d', f'. cbn [foldM].
  destruct Hd as (Hn & Hsame & _ & Hf & Hlen).
  rewrite (Hsame col Hne), Hs. cbn [mbind option_bind].
  rewrite Hm. cbn [mbind option_bind].
  split; [done|]. split; [exact Hd'|].
  intros i z Hz. rewrite (Hv' i _ (Hv1 i z Hz)). f_equal.
  assert (i < nrows df)%nat as Hi
    by (rewrite <- Hlen; by eapply lookup_lt_Some).
  destruct (reading_is_Some df col s i Hwf Hs Hnum Hi) as [o Ho].
  pose proof (mask_of_reading df col s _ m i Hs Hm) as Hmi.
  rewrite Ho in Hmi. simpl in Hmi.
  cbn [omap list_omap]. rewrite Ho. cbn [existsb].
  unfold mask_and. rewrite lookup_zip_with, Hmi.
  destruct (rows !! i) as [[]|]; simpl;
    destruct (outside _ _ o); simpl; try done;
    by destruct (existsb _ _).
Qed.

Lemma point_code_rows_lookup code pcs i :
  point_code_rows code pcs !! i = has_code code <$> pcs !! i.
Proof. unfold point_code_rows. by rewrite list_lookup_fmap. Qed.

Lemma existsb_id_false (rows : list bool) i :
  existsb id rows = false → default false (rows !! i) = false.
Proof.
  revert i. induction rows as [|b rows IH]; intros [|i] H; simpl in *;
    try done.
  - by apply orb_false_iff in H as [-> _].
  - apply IH. by apply orb_false_iff in H as [_ ->].
Qed.

Lemma pressure_for_code_value (pcs : Series) (entry : string * list string) :
  ∀ d f,
  get df "point_code" = Some pcs →
  agrees d f →
  (∀ col, col ∈ entry.2 → col ∈ names df →
          col ≠ flag ∧ ∃ s, get df col = Some s ∧ numeric s) →
  ∃ d' f',
    pressure_for_code th d entry = Some d'
    ∧ agrees d' f'
    ∧ ∀ i z code, f !! i = Some z → pcs !! i = Some code →
                  f' !! i
                  = Some (if pressure_failed th df i code entry
                          then 2 else z).
Proof.
  intros d f Hpcs Hd Hcols. unfold pressure_for_code.
  pose proof Hd as (Hn & Hsame & Hnames & Hf & Hlen).
  rewrite (Hsame "point_code") by done. rewrite Hpcs.
  cbn [mbind option_bind].
  rewrite (filter_iff_list (λ c, c ∈ names d) (λ c, c ∈ names df))
    by apply Hnames.
  destruct (existsb id (point_code_rows entry.1 pcs)) eqn:Hany.
  - destruct (pressure_cols_value (point_code_rows entry.1 pcs)
                (filter (λ c, c ∈ names df) entry.2) d f Hd)
      as (d' & f' & Hrun & Hd' & Hv).
    { intros col [Hin Hcol]%list_elem_of_filter. by apply Hcols. }
    exists d', f'. split; [done|]. split; [exact Hd'|].
    intros i z code Hz Hcode. rewrite (Hv i z Hz).
    rewrite point_code_rows_lookup, Hcode. simpl.
    by unfold pressure_failed.
  - exists d, f. split; [done|]. split; [exact Hd|].
    intros i z code Hz Hcode. unfold pressure_failed.
    pose proof (existsb_id_false _ i Hany) as Hrow.
    rewrite point_code_rows_lookup, Hcode in Hrow. simpl in Hrow.
    by rewrite Hrow.
Qed.

Lemma pressure_mapping_value (pcs : Series)
    (mapping : list (string * list string)) :
  ∀ d f,
  get df "point_code" = Some pcs →
  agrees d f →
  (∀ entry col, entry ∈ mapping → col ∈ entry.2 → col ∈ names df →
                col ≠ flag ∧ ∃ s, get df col = Some s ∧ numeric s) →
  ∃ d' f',
    foldM (pressure_for_code th) d mapping = Some d'
    ∧ agrees d' f'
    ∧ ∀ i z code, f !! i = Some z → pcs !! i = Some code →
                  f' !! i
                  = Some (if existsb (pressure_failed th df i code) mapping
                          then 2 else z).
Proof.
  induction mapping as [|entry mapping IH]; intros d f Hpcs Hd Hcols.
  { exists d, f. split; [done|]. split; [exact Hd|]. done. }
  destruct (pressure_for_code_value pcs entry d f Hpcs Hd)
    as (d1 & f1 & Hstep & Hd1 & Hv1).
  { intros col Hc. apply (Hcols entry); [by left|done]. }
  destruct (IH d1 f1 Hpcs Hd1) as (d' & f' & Hrun & Hd' & Hv').
  { intros e col He. apply (Hcols e). by right. }
  exists d', f'. cbn [foldM]. rewrite Hstep. cbn [mbind option_bind].
  split; [done|]. split; [exact Hd'|].
  intros i z code Hz Hcode.
  rewrite (Hv' i _ code (Hv1 i z code Hz Hcode) Hcode). f_equal.
  cbn [existsb].
  by destruct (pressure_failed th df i code entry), (existsb _ mapping).
Qed.

(** X6: in a table with a [point_code] column, [validate_gun_pressure]
    flags a row only through the pressure columns mapped to the row's
    own point code: a row whose code is none of A1, A2, A3 is never
    flagged, and a pressure of another array never flags a row. *)
Theorem gun_pressure_flag_follows_point_code (pcs : Series)
    (f0 : list Z) :
  get df "point_code" = Some pcs →
  (∀ col s, get df col = Some s → is_pressure_col col = true → numeric s) →
  get df flag = Some (CInt <$> f0) →
  ∃ df' f1,
    validate_gun_pressure th df = Some df'
    ∧ get df' flag = Some (CInt <$> f1)
    ∧ length f1 = length f0
    ∧ (∀ i z code, f0 !! i = Some z → pcs !! i = Some code →
                   f1 !! i = Some (pressure_flag th df i code z))
    ∧ (∀ i z code, f0 !! i = Some z → pcs !! i = Some code →
                   code ≠ CStr "A1" → code ≠ CStr "A2" →
                   code ≠ CStr "A3" →
                   f1 !! i = Some z).
Proof.
  intros Hpcs Hnum Hf0.
  pose proof (get_well_formed _ _ _ Hwf Hf0) as Hlen.
  rewrite length_fmap in Hlen.
  assert (agrees df f0) as Hd by (by split_and!).
  destruct (pressure_mapping_value pcs point_code_pressure_mapping df f0
              Hpcs Hd) as (d' & f' & Hrun & Hd' & Hv).
  { intros entry col He Hc Hin.
    pose proof (pressure_columns_measured entry col He Hc) as Hp.
    split; [intros ->; by vm_compute in Hp|].
    destruct (in_names_get df col Hin) as [s Hs].
    exists s. split; [done|]. by eapply Hnum. }
  unfold validate_gun_pressure.
  assert (has_column df "point_code" = true) as ->
    by (apply has_column_get; by rewrite Hpcs).
  destruct Hd' as (_ & _ & _ & Hf' & Hl').
  exists d', f'. split_and!; [done|done|lia|by apply Hv|].
  intros i z code Hz Hcode H1 H2 H3. rewrite (Hv i z code Hz Hcode).
  f_equal. unfold pressure_failed, point_code_pressure_mapping, has_code.
  cbn [existsb fst].
  destruct code as [| | |t]; try done.
  rewrite !bool_decide_eq_false_2; [done|by intros ->..].
Qed.

End PressureOutcome.

Section PressureOutcomeWitness.
Import Py Frame Validator Outcome.

Lemma gun_pressure_flag_follows_point_code_witness :
  ∃ df' f1,
    validate_gun_pressure default_thresholds
      (mkDataFrame 2
         [ ("point_code", [CStr "A1"; CStr "B7"]);
           ("SSTGM1P1_PRS (P) Shot Event  ", [CNum 2000; CNum 0]);
           ("SSTGM1P3_PRS (P) Shot Event  ", [CNum 0; CNum 0]);
           ("gun_pressure_flag", [CInt 0; CInt 0]) ]) = Some df'
    ∧ get df' "gun_pressure_flag" = Some (CInt <$> f1)
    ∧ f1 !! 1%nat = Some 0.
Proof.
  destruct (gun_pressure_flag_follows_point_code default_thresholds
              (mkDataFrame 2
                 [ ("point_code", [CStr "A1"; CStr "B7"]);
                   ("SSTGM1P1_PRS (P) Shot Event  ", [CNum 2000; CNum 0]);
                   ("SSTGM1P3_PRS (P) Shot Event  ", [CNum 0; CNum 0]);
                   ("gun_pressure_flag", [CInt 0; CInt 0]) ])
              ltac:(repeat constructor)
              [CStr "A1"; CStr "B7"] [0; 0])
    as (df' & f1 & Hrun & Hf1 & _ & _ & Hother).
  - reflexivity.
  - intros col s Hget Hp. unfold get in Hget. simpl in Hget.
    repeat case_decide; simplify_eq; try (by vm_compute in Hp);
      repeat constructor; by eexists.
  - reflexivity.
  - exists df', f1. split_and!; [done..|].
    by apply (Hother 1%nat 0 (CStr "B7")).
Defined.

End PressureOutcomeWitness.
(** ** The points the gap checks report *)

Section AbsentPoints.
Import Py NavQC Validator.

Lemma adjacent_cons (x y : Z) (l : list Z) :
  adjacent (x :: y :: l) = (x, y) :: adjacent (y :: l).
Proof. done. Qed.

Lemma adjacent_elem_of (l : list Z) a b :
  (a, b) ∈ adjacent l → a ∈ l ∧ b ∈ l.
Proof.
  induction l as [|x [|y l] IH]; try by intros ?%elem_of_nil.
  rewrite adjacent_cons. intros [Heq|Hin]%elem_of_cons.
  - simplify_eq. split; [by left|right; by left].
  - destruct (IH Hin). split; by right.
Qed.

(** No element of a sorted list lies strictly between two neighbours. *)
Lemma adjacent_gap (l : list Z) a b y :
  Sorted Z.le l → (a, b) ∈ adjacent l → y ∈ l → y ≤ a ∨ b ≤ y.
Proof.
  intros Hs%(Sorted_StronglySorted _). revert a b y.
  induction Hs as [|x l Hs IH Hall]; intros a b y;
    [by intros ?%elem_of_nil|].
  destruct l as [|x' l]; [by intros ?%elem_of_nil|].
  rewrite Forall_forall in Hall. rewrite adjacent_cons.
  intros [Heq|Hin]%elem_of_cons Hy.
  - simplify_eq. apply elem_of_cons in Hy as [->|Hy]; [left; lia|].
    right. inversion Hs as [|?? _ Hall']; subst.
    rewrite Forall_forall in Hall'.
    apply elem_of_cons in Hy as [->|Hy]; [lia|]. by apply Hall'.
  - apply elem_of_cons in Hy as [->|Hy]; [|by apply IH].
    left. apply Hall. by apply (adjacent_elem_of _ _ _ Hin).
Qed.

Lemma missed_between_spec (p : Z * Z) x :
  p.1 ≤ p.2 →
  x ∈ missed_between p
  ↔ (2 < p.2 - p.1 ∧ ∃ k, 1 ≤ k ∧ x = p.1 + 2 * k ∧ x < p.2).
Proof.
  destruct p as [c n]. simpl. intros Hle. unfold missed_between. simpl.
  destruct (Z.ltb_spec 2 (Z.abs (n - c))) as [Hgap|Hgap].
  - assert ((0 <? n - c) = true) as -> by (apply Z.ltb_lt; lia).
    rewrite range_up2_cadence, elem_of_cadence.
    split; [intros ?; split; [lia|done]|by intros [_ ?]].
  - split; [by intros ?%elem_of_nil|lia].
Qed.

(** X7: every shot point [check_sp] reports is absent from the table and
    lies between two shot points of it, an even distance above the lower
    one; the stricter check of the validator reports it as well. *)
Theorem check_sp_reports_absent_points (l : list Z) (x : Z) :
  x ∈ check_sp l →
  (x ∉ l)
  ∧ (∃ a b, a ∈ l ∧ b ∈ l ∧ a < x < b ∧ (x - a) `mod` 2 = 0)
  ∧ x ∈ check_missing_shot_points (Some l).
Proof.
  unfold check_sp, check_missing_shot_points.
  intros (missed & Hx & Hmissed)%list_elem_of_join.
  apply list_elem_of_fmap in Hmissed as ([a b] & -> & Hpair).
  pose proof (sorted_Sorted l) as Hs.
  assert (a ≤ b) as Hle.
  { pose proof (adjacent_sorted _ Hs) as Hall.
    rewrite Forall_forall in Hall. exact (Hall _ Hpair). }
  apply missed_between_spec in Hx as (Hgap & k & Hk & -> & Hlt);
    [|done]. simpl in *.
  destruct (adjacent_elem_of _ _ _ Hpair) as [Ha Hb].
  rewrite (sorted_perm l) in Ha, Hb.
  split_and!.
  - intros Hin. rewrite <- (sorted_perm l) in Hin.
    destruct (adjacent_gap _ _ _ _ Hs Hpair Hin); lia.
  - exists a, b. split_and!; [done|done|lia|lia|].
    replace (a + 2 * k - a) with (k * 2) by lia. apply Z.mod_mul. lia.
  - apply list_elem_of_join.
    exists (range1 (a + 1) b). split.
    + unfold range1. apply elem_of_seqZ. lia.
    + apply list_elem_of_fmap. exists (a, b). simpl.
      assert ((1 <? b - a) = true) as -> by (apply Z.ltb_lt; lia).
      done.
Qed.

Lemma check_sp_reports_absent_points_witness :
  (1005 ∉ [1009; 1001; 1003])
  ∧ 1005 ∈ check_missing_shot_points (Some [1009; 1001; 1003]).
Proof.
  destruct (check_sp_reports_absent_points [1009; 1001; 1003] 1005)
    as (Hnot & _ & Hin).
  - assert (check_sp [1009; 1001; 1003] = [1005; 1007]) as ->
      by (vm_compute; reflexivity).
    apply elem_of_cons. by left.
  - by split.
Defined.

End AbsentPoints.
(** ** What the merge loop keeps *)

Section MergeColumns.
Import Py Frame NavQC.

Variable to_number : string → option Q.
Variable float_text : Q → string.

Lemma match_rows_fst lk rk i :
  NoDup rk → (match_rows lk rk i).*1 = seq i (length lk).
Proof.
  intros Hnd. revert i. induction lk as [|k lk IH]; intros i; [done|].
  cbn [match_rows length seq]. rewrite fmap_app, IH. f_equal.
  pose proof (positions_NoDup k rk 0 Hnd) as Hlen.
  destruct (positions k rk 0) as [|j [|j' js]]; simpl in *; [done|done|lia].
Qed.

Lemma lookups_all (s : Series) :
  (λ i, default CNull (s !! i)) <$> seq 0 (length s) = s.
Proof.
  apply list_eq. intros i. rewrite list_lookup_fmap.
  destruct (s !! i) as [c|] eqn:Hc.
  - rewrite lookup_seq_lt by (by eapply lookup_lt_Some). simpl.
    by rewrite Hc.
  - rewrite lookup_seq_ge; [done|]. by apply lookup_ge_None.
Qed.

Lemma take_left_all rows (s : Series) :
  rows.*1 = seq 0 (length s) → take_left rows s = s.
Proof.
  intros Hrows. unfold take_left.
  trans ((λ i, default CNull (s !! i)) <$> rows.*1).
  - by rewrite <- list_fmap_compose.
  - rewrite Hrows. apply lookups_all.
Qed.

Variable base : DataFrame.
Hypothesis Hwf : well_formed base.

(** The running table still has the rows and the columns of the base. *)
Local Abbreviation keeps :=
  (λ d : DataFrame,
     key_aligned d ∧ nrows d = nrows base
     ∧ ∀ col s, col ≠ "shot_point" → get base col = Some s →
                get d col = Some s).

Lemma pd_merge_left_column left right name joined lk rk col s :
  get left "shot_point" = Some lk → get right "shot_point" = Some rk →
  pd_merge left right name = Some joined →
  get left col = Some s →
  get joined col = Some (take_left (match_rows lk rk 0) s).
Proof.
  intros Hl Hr. unfold pd_merge. rewrite Hl, Hr. simpl.
  intros [= <-] Hs. unfold get. simpl.
  apply assoc_get_app_l.
  rewrite (assoc_get_fmap (take_left (match_rows lk rk 0))).
  unfold get in Hs. by rewrite Hs.
Qed.

Lemma try_merge_keeps merged_df name df :
  keeps merged_df →
  (∀ ks, join_keys to_number float_text df = Some ks → NoDup ks) →
  ∀ d, (try_merge to_number float_text merged_df name df = inl d
        ∨ try_merge to_number float_text merged_df name df = inr d) →
       keeps d.
Proof.
  intros (Hal & Hn & Hcols) Hnd d Hd.
  destruct (try_merge_rows to_number float_text merged_df name df Hal Hnd
              d Hd) as [Hal' Hn'].
  split; [done|]. split; [lia|].
  intros col s Hne Hs. specialize (Hcols col s Hne Hs).
  pose proof (get_well_formed _ _ _ Hwf Hs) as Hls.
  destruct Hal as (sp & Hsp & Hlen). revert Hd. unfold try_merge.
  destruct (get df "shot_point" ≫= numeric_Int64 to_number)
    as [df_sp|] eqn:Hdf.
  2:{ by intros [[= <-]|[=]]. }
  rewrite Hsp. simpl.
  destruct (numeric_Int64 to_number sp) as [merged_sp|] eqn:Hm.
  2:{ by intros [[= <-]|[=]]. }
  apply numeric_Int64_length in Hm.
  set (left := set_column "shot_point" (key_text float_text merged_sp)
                 merged_df).
  set (right := set_column "shot_point" (key_text float_text df_sp) df).
  assert (get left col = Some s) as Hleft
    by (unfold left; by rewrite get_set_column_ne).
  destruct (pd_merge left right name) as [joined|] eqn:Hj.
  2:{ by intros [[= <-]|[=]]. }
  assert (get joined col = Some s) as Hjoined.
  { rewrite (pd_merge_left_column _ _ _ _ _ _ _ _
               (get_set_column_eq _ _ _) (get_set_column_eq _ _ _) Hj Hleft).
    f_equal. apply take_left_all. rewrite match_rows_fst.
    - rewrite key_text_length. f_equal. lia.
    - apply Hnd. unfold join_keys. by rewrite Hdf. }
  destruct (get joined "shot_point" ≫= numeric_Int64 to_number)
    as [sp'|].
  - intros [[=]|[= <-]]. by rewrite get_set_column_ne.
  - by intros [[= <-]|[=]].
Qed.

Lemma merge_steps_keep secondaries : ∀ merged_df,
  keeps merged_df →
  (∀ name df ks, (name, df) ∈ secondaries →
                 join_keys to_number float_text df = Some ks → NoDup ks) →
  keeps (foldl (merge_step to_number float_text) merged_df secondaries).
Proof.
  induction secondaries as [|[name df] secs IH]; intros merged_df Hk Hnd;
    [done|]. cbn [foldl]. apply IH.
  - unfold merge_step.
    destruct (negb (empty df) && has_column df "shot_point"); [|done].
    destruct (try_merge to_number float_text merged_df name df)
      as [d|d] eqn:E;
      (eapply try_merge_keeps; [exact Hk| |eauto]);
      intros ks; apply (Hnd name df); by left.
  - intros name' df' ks Hin. apply (Hnd name' df'). by right.
Qed.

(** X8: when no secondary repeats a join key, the merge loop leaves
    every column of the base table other than the key as it was, row for
    row, whatever the secondaries hold and whether or not a join fails. *)
Theorem merge_keeps_base_columns (secondaries : list (string * DataFrame))
    (col : string) (s : Series) :
  has_column base "shot_point" = true →
  (∀ name df ks, (name, df) ∈ secondaries →
                 join_keys to_number float_text df = Some ks → NoDup ks) →
  col ≠ "shot_point" →
  get base col = Some s →
  ∃ merged_df,
    merge to_number float_text base secondaries = Some merged_df
    ∧ nrows merged_df = nrows base
    ∧ get merged_df col = Some s.
Proof.
  intros Hsp Hnd Hne Hs. apply has_column_get in Hsp as [sp Hsp].
  unfold merge. rewrite Hsp. simpl. eexists. split; [done|].
  pose proof (get_well_formed _ _ _ Hwf Hsp) as Hlen.
  destruct (merge_steps_keep secondaries
              (set_column "shot_point" (key_text float_text sp) base))
    as (_ & Hn & Hcols); [|done|].
  - split; [|split; [done|]].
    + apply key_aligned_set_column. by rewrite key_text_length.
    + intros c s' Hc Hs'. by rewrite get_set_column_ne.
  - split; [done|]. by apply Hcols.
Qed.

End MergeColumns.

Section MergeColumnsWitness.
Import Py Frame NavQC.

Lemma merge_keeps_base_columns_witness :
  ∃ merged_df,
    merge read_integer (λ _, "")
      (mkDataFrame 3 [("shot_point", [CInt 1001; CInt 1003; CInt 1005]);
                      ("radial", [CNum 1; CNum 2; CNum 3])])
      [("eol", mkDataFrame 2 [("shot_point", [CInt 1005; CInt 1001]);
                              ("radial", [CNum 5; CNum 7])])]
    = Some merged_df
    ∧ nrows merged_df = 3%nat
    ∧ get merged_df "radial" = Some [CNum 1; CNum 2; CNum 3].
Proof.
  apply (merge_keeps_base_columns read_integer (λ _, "")
           (mkDataFrame 3 [("shot_point", [CInt 1001; CInt 1003; CInt 1005]);
                           ("radial", [CNum 1; CNum 2; CNum 3])])).
  - repeat constructor.
  - reflexivity.
  - intros name df ks Hin. apply list_elem_of_singleton in Hin.
    injection Hin as -> ->. vm_compute. intros [= <-].
    apply NoDup_cons. split.
    + intros Hin. apply list_elem_of_singleton in Hin. discriminate Hin.
    + apply NoDup_singleton.
  - done.
  - reflexivity.
Defined.

End MergeColumnsWitness.

Section MergeNoSecondary.
Import Py Frame NavQC.

Variable to_number : string → option Q.
Variable float_text : Q → string.

(** X9: the loop turns the key back into integers only after a join, so
    when every secondary is empty or lacks a [shot_point] column the
    result is the base table with its key as zero-padded text. *)
Theorem merge_without_secondary_keeps_text_keys (base : DataFrame)
    (secondaries : list (string * DataFrame)) (sp : Series) :
  get base "shot_point" = Some sp →
  (∀ name df, (name, df) ∈ secondaries →
              empty df = true ∨ has_column df "shot_point" = false) →
  merge to_number float_text base secondaries
  = Some (set_column "shot_point" (key_text float_text sp) base)
  ∧ ∃ texts : list string,
      (merge to_number float_text base secondaries
       ≫= λ d, get d "shot_point") = Some (CStr <$> texts)
      ∧ length texts = length sp.
Proof.
  intros Hsp Hsec. unfold merge. rewrite Hsp. cbn [mbind option_bind].
  assert (∀ d, foldl (merge_step to_number float_text) d secondaries = d)
    as ->.
  { induction secondaries as [|[name df] secs IH]; intros d; [done|].
    cbn [foldl]. rewrite IH.
    - unfold merge_step.
      destruct (Hsec name df) as [-> | ->]; [by left|done|].
      by rewrite andb_false_r.
    - intros name' df' Hin. apply (Hsec name' df'). by right. }
  split; [done|].
  exists ((λ c, zfill 4 (cell_text float_text c)) <$> sp).
  rewrite get_set_column_eq, length_fmap. split; [|done].
  unfold key_text. by rewrite <- list_fmap_compose.
Qed.

End MergeNoSecondary.

Section MergeNoSecondaryWitness.
Import Py Frame NavQC.

Lemma merge_without_secondary_keeps_text_keys_witness :
  merge read_integer (λ _, "")
    (mkDataFrame 2 [("shot_point", [CInt 998; CInt 1000])])
    [("comp", mkDataFrame 0 []); ("eol", mkDataFrame 1 [("radial", [CNum 5])])]
  = Some (mkDataFrame 2 [("shot_point", [CStr "0998"; CStr "1000"])]).
Proof.
  refine (proj1 (merge_without_secondary_keeps_text_keys
                   read_integer (λ _, "")
                   (mkDataFrame 2 [("shot_point", [CInt 998; CInt 1000])])
                   [("comp", mkDataFrame 0 []);
                    ("eol", mkDataFrame 1 [("radial", [CNum 5])])]
                   [CInt 998; CInt 1000] _ _)).
  - reflexivity.
  - intros name df Hin.
    apply elem_of_cons in Hin as [Heq|Hin];
      [injection Heq as -> ->; by left|].
    apply list_elem_of_singleton in Hin. injection Hin as -> ->. by right.
Defined.

End MergeNoSecondaryWitness.
Section MergeKeys.
Import Py Frame NavQC.

Variable to_number : string → option Q.
Variable float_text : Q → string.
Variable sps : list Z.

(** Pandas reads the zero-padded text of each key back as its number. *)
Hypothesis Hparse :
  ∀ n, n ∈ sps → to_number (zfill 4 (str n)) = Some (inject_Z n).

Local Abbreviation ints := (CInt <$> sps).
Local Abbreviation texts := ((λ n, CStr (zfill 4 (str n))) <$> sps).

Lemma key_text_ints : key_text float_text ints = texts.
Proof. unfold key_text. by rewrite <- list_fmap_compose. Qed.

Lemma to_Int64_inject_Z n : to_Int64 (Some (inject_Z n)) = Some (CInt n).
Proof.
  unfold to_Int64. assert (Qfloor (inject_Z n) = n) as ->.
  { unfold Qfloor, inject_Z. apply Z.div_1_r. }
  by rewrite Qeq_bool_inject_Z, bool_decide_eq_true_2.
Qed.

Lemma numeric_Int64_ints : numeric_Int64 to_number ints = Some ints.
Proof.
  unfold numeric_Int64. induction sps as [|n l IH]; [done|].
  rewrite fmap_cons. cbn [mapM]. simpl to_numeric.
  rewrite to_Int64_inject_Z. cbn [mbind option_bind].
  rewrite IH; [done|]. intros m Hm. apply Hparse. by right.
Qed.

Lemma numeric_Int64_texts : numeric_Int64 to_number texts = Some ints.
Proof.
  unfold numeric_Int64. induction sps as [|n l IH]; [done|].
  rewrite !fmap_cons. cbn [mapM]. simpl to_numeric.
  rewrite Hparse by (by left).
  rewrite to_Int64_inject_Z. cbn [mbind option_bind].
  rewrite IH; [done|]. intros m Hm. apply Hparse. by right.
Qed.

(** The key column holds the shot points, as integers or as text. *)
Local Abbreviation keyed :=
  (λ d : DataFrame,
     get d "shot_point" = Some ints ∨ get d "shot_point" = Some texts).

Lemma try_merge_keyed merged_df name df :
  keyed merged_df →
  (∀ ks, join_keys to_number float_text df = Some ks → NoDup ks) →
  ∀ d, (try_merge to_number float_text merged_df name df = inl d
        ∨ try_merge to_number float_text merged_df name df = inr d) →
       keyed d.
Proof.
  intros Hk Hnd d. unfold try_merge.
  destruct (get df "shot_point" ≫= numeric_Int64 to_number)
    as [df_sp|] eqn:Hdf.
  2:{ by intros [[= <-]|[=]]. }
  assert (get merged_df "shot_point" ≫= numeric_Int64 to_number
          = Some ints) as ->.
  { destruct Hk as [-> | ->]; simpl;
      [apply numeric_Int64_ints|apply numeric_Int64_texts]. }
  rewrite key_text_ints.
  set (left := set_column "shot_point" texts merged_df).
  set (right := set_column "shot_point" (key_text float_text df_sp) df).
  destruct (pd_merge left right name) as [joined|] eqn:Hj.
  2:{ intros [[= <-]|[=]]. right. apply get_set_column_eq. }
  eapply pd_merge_rows in Hj as [_ Hkey];
    [|apply get_set_column_eq|apply get_set_column_eq].
  rewrite take_left_all in Hkey.
  2:{ rewrite match_rows_fst; [done|].
      apply Hnd. unfold join_keys. by rewrite Hdf. }
  rewrite Hkey. simpl. rewrite numeric_Int64_texts.
  intros [[=]|[= <-]]. left. apply get_set_column_eq.
Qed.


End MergeKeys.

Section MergeKeysWitness.
Import Py Frame NavQC.


End MergeKeysWitness.
(** ** The search in the dither reference *)

Section DitherSearch.
Import Py PySeq Frame Dither.

Lemma pattern_prefix (reference previous : list Z) (tol : Z) (i k : nat) :
  (i + length previous ≤ length reference)%nat →
  (k ≤ length previous)%nat →
  ∃ b : bool,
    foldM (λ (matched : bool) j,
             if matched then
               r ← index reference (Z.of_nat i + j);
               p ← index previous j;
               Some (negb (tol <? Z.abs (r - p)))
             else Some false)
          true (seqZ 0 (Z.of_nat k)) = Some b
    ∧ (b = true ↔
       ∀ j r p, (j < k)%nat → reference !! (i + j)%nat = Some r →
                previous !! j = Some p → Z.abs (r - p) ≤ tol).
Proof.
  intros Hi. induction k as [|k IH]; intros Hk.
  { exists true. split; [done|]. split; [intros; lia|done]. }
  destruct IH as (b & Hb & Hspec); [lia|].
  rewrite seqZ_S, foldM_app, Hb. cbn [mbind option_bind foldM].
  rewrite Z.add_0_l.
  assert (is_Some (reference !! (i + k)%nat)) as [r Hr]
    by (apply lookup_lt_is_Some; lia).
  assert (is_Some (previous !! k)) as [p Hp]
    by (apply lookup_lt_is_Some; lia).
  destruct b.
  - replace (Z.of_nat i + Z.of_nat k) with (Z.of_nat (i + k)) by lia.
    rewrite !index_nonneg by lia. rewrite Hr, Hp.
    cbn [mbind option_bind]. eexists. split; [done|].
    destruct (Z.ltb_spec tol (Z.abs (r - p))) as [Hlt|Hge]; simpl.
    + split; [done|]. intros Hall.
      specialize (Hall k r p ltac:(lia) Hr Hp). lia.
    + split; [|done]. intros _ j r' p' Hj Hr' Hp'.
      destruct (decide (j = k)) as [->|]; [by simplify_eq|].
      apply (proj1 Hspec eq_refl j r' p'); [lia|done..].
  - exists false. split; [done|]. split; [done|]. intros Hall.
    apply Hspec. intros j r' p' Hj. apply Hall. lia.
Qed.

Lemma pattern_matches_fits (reference previous : list Z) (tol : Z) (i : nat) :
  (i + length previous ≤ length reference)%nat →
  ∃ b : bool,
    pattern_matches reference previous tol (Z.of_nat i) = Some b
    ∧ (b = true ↔ fits reference previous tol i).
Proof.
  intros Hi.
  destruct (pattern_prefix reference previous tol i (length previous) Hi)
    as (b & Hb & Hspec); [done|].
  exists b. unfold pattern_matches, range1. rewrite Z.sub_0_r.
  split; [done|]. rewrite Hspec. unfold fits. split.
  - intros Hall j r p Hr Hp. apply (Hall j r p); [|done..].
    by eapply lookup_lt_Some.
  - intros Hall j r p _. apply Hall.
Qed.

Lemma search_first (reference previous : list Z) (tol : Z) (k : nat) :
  ∀ i0 : nat,
  (i0 + k + length previous ≤ length reference)%nat →
  ∃ res,
    search reference previous tol (seqZ (Z.of_nat i0) (Z.of_nat k))
    = Some res
    ∧ match res with
      | Some d =>
          ∃ i, (i0 ≤ i < i0 + k)%nat
               ∧ fits reference previous tol i
               ∧ (∀ i', (i0 ≤ i' < i)%nat → ¬ fits reference previous tol i')
               ∧ reference !! (i + length previous)%nat = Some d
      | None =>
          ∀ i, (i0 ≤ i < i0 + k)%nat → ¬ fits reference previous tol i
      end.
Proof.
  induction k as [|k IH]; intros i0 Hlen.
  { exists None. split; [done|]. intros; lia. }
  replace (seqZ (Z.of_nat i0) (Z.of_nat (S k)))
    with (Z.of_nat i0 :: seqZ (Z.of_nat (S i0)) (Z.of_nat k)).
  2:{ rewrite (seqZ_cons (Z.of_nat i0)) by lia. f_equal. f_equal; lia. }
  cbn [search].
  destruct (pattern_matches_fits reference previous tol i0)
    as (b & Hb & Hspec); [lia|].
  rewrite Hb. cbn [mbind option_bind].
  destruct b.
  - assert ((Z.of_nat i0 + Z.of_nat (length previous)
             <? Z.of_nat (length reference)) = true) as ->
      by (apply Z.ltb_lt; lia).
    cbn [andb].
    replace (Z.of_nat i0 + Z.of_nat (length previous))
      with (Z.of_nat (i0 + length previous)) by lia.
    rewrite index_nonneg by lia.
    assert (is_Some (reference !! (i0 + length previous)%nat)) as [d Hd]
      by (apply lookup_lt_is_Some; lia).
    rewrite Hd. exists (Some d). split; [done|].
    exists i0. split; [lia|]. split; [by apply Hspec|].
    split; [intros; lia|done].
  - cbn [andb].
    destruct (IH (S i0)) as (res & Hres & Hprop); [lia|].
    rewrite Hres. exists res. split; [done|].
    assert (¬ fits reference previous tol i0) as Hno
      by (intros Hf; apply Hspec in Hf; done).
    destruct res as [d|].
    + destruct Hprop as (i & Hi & Hfit & Hfirst & Hd).
      exists i. split; [lia|]. split; [done|]. split; [|done].
      intros i' Hi'. destruct (decide (i' = i0)) as [->|]; [done|].
      apply Hfirst. lia.
    + intros i Hi. destruct (decide (i = i0)) as [->|]; [done|].
      apply Hprop. lia.
Qed.

End DitherSearch.

Section DitherClaims.
Import Py PySeq Frame Dither.

Variable seconds : Type.
Variable convert_dither_format : seconds → Z.


End DitherClaims.
(** ** The gun depth sensors *)

Section SensorNames.
Import Py Frame Validator Sensors.

Lemma prefix_split p s : String.prefix p s = true → ∃ r, s = p +:+ r.
Proof.
  revert s. induction p as [|a p IH]; intros s; simpl.
  - intros _. by exists s.
  - destruct s as [|b s]; simpl; [done|].
    destruct (ascii_dec a b) as [->|]; [|done].
    intros [r ->]%IH. by exists r.
Qed.

Lemma sensor_number_total col :
  is_sensor_col col = true → is_Some (sensor_number col).
Proof.
  unfold is_sensor_col, starts_with. intros [Hp Hc]%andb_true_iff.
  apply prefix_split in Hp as [r ->]. unfold sensor_number.
  destruct (search_sensor _); [by eexists|].
  destruct r as [|c r]; [by vm_compute in Hc|]. by eexists.
Qed.

Lemma sensor_column_is_sensor_col d : is_sensor_col (sensor_column d) = true.
Proof.
  unfold is_sensor_col, sensor_column.
  assert (starts_with "SSTGM1D" ("SSTGM1D" +:+ d +:+ "_DPT (P) Shot Event m")
          = true) as -> by apply prefix_app.
  replace ("SSTGM1D" +:+ d +:+ "_DPT (P) Shot Event m")
    with (("SSTGM1D" +:+ d +:+ "_") +:+ "DPT (P) Shot Event m" +:+ "");
    [apply contains_app|].
  rewrite !string_app_assoc. reflexivity.
Qed.

Lemma sensor_column_number d :
  decimal d → sensor_number (sensor_column d) = Some d.
Proof.
  intros [Hne Hd]. unfold sensor_number, sensor_column.
  assert (sensor_match ("SSTGM1D" +:+ d +:+ "_DPT (P) Shot Event m")
          = Some d) as Hm.
  { unfold sensor_match. rewrite strip_prefix_app. cbn [mbind option_bind].
    rewrite span_digits_app by done.
    rewrite bool_decide_eq_false_2 by done. done. }
  destruct ("SSTGM1D" +:+ d +:+ "_DPT (P) Shot Event m") eqn:E;
    cbn [search_sensor]; by rewrite Hm.
Qed.

End SensorNames.

Section SensorReport.
Import Py Frame Validator Sensors.

Variable fixed1 : Q → string.
Variable th : QCThresholds.
Variable df : DataFrame.
Hypothesis Hnum :
  ∀ col s, get df col = Some s → is_sensor_col col = true → numeric s.

Lemma series_mean_total s : numeric s → is_Some (series_mean s).
Proof.
  intros Hs. unfold series_mean.
  destruct (mapM num_of s) as [nums|] eqn:Hn.
  - simpl. by destruct (omap id nums); eexists.
  - exfalso. apply eq_None_not_Some in Hn. apply Hn.
    apply mapM_is_Some_2. exact Hs.
Qed.

(** What a warning in the list says of the table. *)
Local Abbreviation warned :=
  (λ (cols : list string) (msg : string),
     ∃ col s avg number,
       col ∈ cols ∧ get df col = Some s
       ∧ series_mean s = Some (Some avg)
       ∧ out_of_range (gun_depth_sensor_min th) (gun_depth_sensor_max th)
           avg = true
       ∧ sensor_number col = Some number
       ∧ msg = sensor_warning fixed1 number avg).

Lemma sensor_loop (cols : list string) : ∀ acc done,
  (∀ col, col ∈ cols → col ∈ names df ∧ is_sensor_col col = true) →
  (∀ msg, msg ∈ acc ↔ warned done msg) →
  (length acc ≤ length done)%nat →
  ∃ res,
    foldM (sensor_step fixed1 th df) acc cols = Some res
    ∧ (∀ msg, msg ∈ res ↔ warned (done ++ cols) msg)
    ∧ (length res ≤ length (done ++ cols))%nat.
Proof.
  induction cols as [|col cols IH]; intros acc done Hcols Hacc Hlen.
  { exists acc. rewrite app_nil_r. by split_and!. }
  destruct (Hcols col) as [Hin Hsensor]; [by left|].
  destruct (in_names_get df col Hin) as [s Hs].
  destruct (series_mean_total s) as [avg Havg]; [by eapply Hnum|].
  destruct (sensor_number_total col Hsensor) as [number Hnumber].
  assert (∃ acc',
            sensor_step fixed1 th df acc col = Some acc'
            ∧ (∀ msg, msg ∈ acc' ↔ warned (done ++ [col]) msg)
            ∧ (length acc' ≤ length (done ++ [col]))%nat)
    as (acc' & Hstep & Hacc' & Hlen').
  { unfold sensor_step. rewrite Hs. cbn [mbind option_bind].
    rewrite Havg. cbn [mbind option_bind].
    rewrite Hnumber. cbn [mbind option_bind].
    assert (∀ msg, warned (done ++ [col]) msg ↔
                   warned done msg
                   ∨ ∃ a, avg = Some a
                          ∧ out_of_range (gun_depth_sensor_min th)
                              (gun_depth_sensor_max th) a = true
                          ∧ msg = sensor_warning fixed1 number a) as Hw.
    { intros msg. split.
      - intros (c & s' & a & n & Hc & Hs' & Ha & Hout & Hn & ->).
        apply elem_of_app in Hc as [Hc|Hc%list_elem_of_singleton].
        + left. by exists c, s', a, n.
        + subst c. right. simplify_eq. by exists a.
      - intros [(c & s' & a & n & Hc & Hrest)|(a & -> & Hout & ->)].
        + exists c, s', a, n. split; [|done]. apply elem_of_app. by left.
        + exists col, s, a, number.
          split_and!; [|done..]. apply elem_of_app. right. by left. }
    rewrite length_app. simpl.
    destruct avg as [a|].
    - destruct (out_of_range _ _ a) eqn:Hout.
      + eexists. split; [done|]. split.
        * intros msg. rewrite Hw, elem_of_app, Hacc, list_elem_of_singleton.
          split; (intros [?|?]; [by left|right]).
          -- subst. by exists a.
          -- by destruct H as (a' & [= <-] & _ & ->).
        * rewrite length_app. simpl. lia.
      + exists acc. split; [done|]. split; [|lia].
        intros msg. rewrite Hw, Hacc. split; [by left|].
        intros [?|(a' & [= <-] & Hout' & _)]; [done|congruence].
    - exists acc. split; [done|]. split; [|lia].
      intros msg. rewrite Hw, Hacc. split; [by left|].
      by intros [?|(a' & [=] & _)]. }
  destruct (IH acc' (done ++ [col])) as (res & Hres & Hprop & Hl);
    [|done|done|].
  { intros c Hc. apply Hcols. by right. }
  exists res. cbn [foldM]. rewrite Hstep. cbn [mbind option_bind].
  rewrite <- app_assoc in Hprop, Hl. by split_and!.
Qed.


End SensorReport.

Section SensorReportWitness.
Import Py Frame Validator Sensors.


End SensorReportWitness.
(** ** The shot-point order scan on a regular line *)

Section RegularLine.
Import Frame Validator Report Lines.

Variable d : Z.
Hypothesis Hd : d ≠ 0.

Lemma Qle_bool_inject_Z (a b : Z) :
  Qle_bool (inject_Z a) (inject_Z b) = (a <=? b).
Proof. unfold Qle_bool. simpl. by rewrite !Z.mul_1_r. Qed.

Lemma Qlt_bool_inject_Z (a b : Z) :
  Qlt_bool (inject_Z a) (inject_Z b) = (a <? b).
Proof.
  unfold Qlt_bool. rewrite Qle_bool_inject_Z.
  destruct (Z.leb_spec b a), (Z.ltb_spec a b); simpl; lia || done.
Qed.

Lemma Qminus_inject_Z (a b : Z) :
  (inject_Z a - inject_Z b)%Q = inject_Z (a - b).
Proof.
  unfold Qminus, Qplus, Qopp, inject_Z. simpl. f_equal. lia.
Qed.

Lemma regular_cons a b zs :
  regular d (a :: b :: zs) ↔ b = a + d ∧ regular d (b :: zs).
Proof. done. Qed.

Lemma regular_take k : ∀ zs, regular d zs → regular d (take k zs).
Proof.
  induction k as [|k IH]; intros zs Hr; [done|].
  destruct zs as [|a [|b zs]]; [done|by destruct k|].
  apply regular_cons in Hr as [-> Hr].
  specialize (IH _ Hr). destruct k as [|k]; [done|].
  change (take (S (S k)) (a :: a + d :: zs))
    with (a :: take (S k) (a + d :: zs)).
  change (take (S k) (a + d :: zs)) with (a + d :: take k zs) in *.
  by apply regular_cons.
Qed.

Lemma deltas_regular : ∀ zs,
  regular d zs →
  deltas (inject_Z <$> zs) = replicate (length zs - 1) (inject_Z d).
Proof.
  induction zs as [|a zs IH]; intros Hr; [done|].
  destruct zs as [|b zs]; [done|].
  apply regular_cons in Hr as [-> Hr].
  change (deltas (inject_Z <$> a :: a + d :: zs))
    with ((inject_Z (a + d) - inject_Z a)%Q
          :: deltas (inject_Z <$> a + d :: zs)).
  rewrite IH by done. rewrite Qminus_inject_Z.
  replace (a + d - a) with d by lia.
  simpl. by rewrite Nat.sub_0_r.
Qed.

Lemma dropna_ints (zs : list Z) : dropna (CInt <$> zs) = CInt <$> zs.
Proof.
  unfold dropna. induction zs as [|z zs IH]; [done|].
  rewrite fmap_cons, filter_cons_True by done. by rewrite IH.
Qed.

Lemma numbers_of_ints (zs : list Z) :
  mapM (λ c, num_of c ≫= id) (CInt <$> zs) = Some (inject_Z <$> zs).
Proof.
  induction zs as [|z zs IH]; [done|].
  rewrite !fmap_cons. cbn [mapM]. simpl. by rewrite IH.
Qed.

Lemma Qnonzero_step : Qnonzero (inject_Z d) = true.
Proof.
  unfold Qnonzero. change 0%Q with (inject_Z 0).
  rewrite Qeq_bool_inject_Z. by rewrite bool_decide_eq_false_2.
Qed.

Lemma filter_replicate_true {A} (P : A → Prop) `{∀ x, Decision (P x)}
    (x : A) n :
  P x → filter P (replicate n x) = replicate n x.
Proof.
  intros Hx. induction n as [|n IH]; [done|].
  simpl. by rewrite filter_cons_True, IH.
Qed.

Lemma filter_replicate_false {A} (P : A → Prop) `{∀ x, Decision (P x)}
    (x : A) n :
  ¬ P x → filter P (replicate n x) = [].
Proof.
  intros Hx. induction n as [|n IH]; [done|].
  simpl. by rewrite filter_cons_False, IH.
Qed.

Lemma Qminimum_replicate (x : Q) n :
  Qminimum 0 (replicate (S n) x) = x.
Proof.
  unfold Qminimum. simpl.
  assert (Qlt_bool x x = false) as Hxx.
  { unfold Qlt_bool. assert (Qle_bool x x = true) as ->; [|done].
    apply Qle_bool_iff. apply Qle_refl. }
  induction n as [|n IH]; [done|]. simpl. by rewrite Hxx.
Qed.

(** One round of the scan loop. *)
Lemma scan_cons (ascending : bool) (gap current_sp next_sp : Q)
    (rest : list Q) (seen_sps : list Q) (issues : list string) :
  scan ascending gap (current_sp :: next_sp :: rest) seen_sps issues
  = let tl := next_sp :: rest in
    if Qeq_bool next_sp current_sp then
      if existsb (Qeq_bool current_sp) seen_sps
      then scan ascending gap tl seen_sps issues
      else scan ascending gap tl (current_sp :: seen_sps)
             (issues ++ ["Duplicate SP " +:+ int_text current_sp
                         +:+ " detected"])
    else if ascending then
      if Qlt_bool next_sp current_sp then
        scan ascending gap tl seen_sps
          (issues ++ ["SP " +:+ int_text next_sp +:+ " appears after SP "
                      +:+ int_text current_sp +:+ " (should be ascending)"])
      else if Qlt_bool gap (next_sp - current_sp) then
        scan ascending gap tl seen_sps
          (issues ++ ["Large gap detected: SP " +:+ int_text current_sp
                      +:+ " to " +:+ int_text next_sp +:+ " (gap: "
                      +:+ int_text (next_sp - current_sp) +:+ ")"])
      else scan ascending gap tl seen_sps issues
    else
      if Qlt_bool current_sp next_sp then
        scan ascending gap tl seen_sps
          (issues ++ ["SP " +:+ int_text next_sp +:+ " appears after SP "
                      +:+ int_text current_sp +:+ " (should be descending)"])
      else if Qlt_bool gap (current_sp - next_sp) then
        scan ascending gap tl seen_sps
          (issues ++ ["Large gap detected: SP " +:+ int_text current_sp
                      +:+ " to " +:+ int_text next_sp +:+ " (gap: "
                      +:+ int_text (current_sp - next_sp) +:+ ")"])
      else scan ascending gap tl seen_sps issues.
Proof. reflexivity. Qed.

Lemma scan_regular (ascending : bool) : ∀ zs seen_sps issues,
  regular d zs →
  ascending = bool_decide (0 < d) →
  scan ascending (inject_Z (Z.abs d) * 3)%Q (inject_Z <$> zs) seen_sps issues
  = issues.
Proof.
  induction zs as [|a zs IH]; intros seen_sps issues Hr Hasc; [done|].
  destruct zs as [|b zs]; [done|].
  apply regular_cons in Hr as [-> Hr].
  change (inject_Z <$> a :: a + d :: zs)
    with (inject_Z a :: inject_Z (a + d) :: (inject_Z <$> zs)).
  rewrite scan_cons. cbv zeta.
  change (inject_Z (a + d) :: (inject_Z <$> zs))
    with (inject_Z <$> a + d :: zs).
  rewrite Qeq_bool_inject_Z. rewrite bool_decide_eq_false_2 by lia.
  rewrite !Qminus_inject_Z.
  change (inject_Z (Z.abs d) * 3)%Q with (inject_Z (Z.abs d) * inject_Z 3)%Q.
  assert ((inject_Z (Z.abs d) * inject_Z 3)%Q = inject_Z (Z.abs d * 3))
    as Hgap by (unfold Qmult, inject_Z; simpl; done).
  rewrite Hgap, !Qlt_bool_inject_Z.
  rewrite <- Hgap. subst ascending. case_bool_decide.
  - assert ((a + d <? a) = false) as -> by (apply Z.ltb_ge; lia).
    assert ((Z.abs d * 3 <? a + d - a) = false) as ->
      by (apply Z.ltb_ge; lia).
    by apply IH.
  - assert ((a <? a + d) = false) as -> by (apply Z.ltb_ge; lia).
    assert ((Z.abs d * 3 <? a - (a + d)) = false) as ->
      by (apply Z.ltb_ge; lia).
    by apply IH.
Qed.

(** X12: a line whose shot points go up, or down, by one constant
    non-zero step raises no sorting issue: no duplicate, no reversal and
    no gap is reported, in either shooting direction. *)
Theorem detect_sp_sorting_accepts_regular_line (df : DataFrame)
    (zs : list Z) :
  regular d zs →
  get df "shot_point" = Some (CInt <$> zs) →
  detect_sp_sorting df = Some [].
Proof.
  intros Hr Hsp. unfold detect_sp_sorting.
  assert (has_column df "shot_point" = true) as ->
    by (apply has_column_get; by rewrite Hsp).
  cbn [andb]. case_bool_decide as Hrows; [|done].
  rewrite Hsp. cbn [mbind option_bind]. rewrite dropna_ints.
  case_bool_decide as Hlen; [done|].
  rewrite length_fmap in Hlen.
  rewrite numbers_of_ints. cbn [mbind option_bind].
  rewrite <- fmap_take, (deltas_regular _ (regular_take 6 _ Hr)).
  rewrite (filter_replicate_true (λ x, Qnonzero x))
    by (apply Is_true_true, Qnonzero_step).
  destruct (length (take 6 zs) - 1)%nat as [|k] eqn:Hk.
  { rewrite length_take in Hk. lia. }
  rewrite (filter_replicate_true (λ x, Qnonzero x))
    by (apply Is_true_true, Qnonzero_step).
  rewrite fmap_replicate.
  change (replicate (S k) (inject_Z d))
    with (inject_Z d :: replicate k (inject_Z d)) at 1.
  cbv iota.
  change (replicate (S k) (Qabs (inject_Z d)))
    with (Qabs (inject_Z d) :: replicate k (Qabs (inject_Z d))) at 1.
  cbv iota.
  rewrite Qminimum_replicate.
  change (Qabs (inject_Z d)) with (inject_Z (Z.abs d)).
  f_equal. apply scan_regular; [done|].
  unfold Qnegative, Qpositive. change 0%Q with (inject_Z 0).
  destruct (decide (0 < d)) as [Hpos|Hneg].
  - rewrite (filter_replicate_false (λ x, Qlt_bool x (inject_Z 0)))
      by (rewrite Qlt_bool_inject_Z; apply Is_true_false, Z.ltb_ge; lia).
    rewrite (bool_decide_eq_true_2 (0 < d)) by lia.
    apply bool_decide_eq_true_2. simpl. lia.
  - rewrite (filter_replicate_true (λ x, Qlt_bool x (inject_Z 0)))
      by (rewrite Qlt_bool_inject_Z; apply Is_true_true, Z.ltb_lt; lia).
    rewrite (filter_replicate_false (λ x, Qlt_bool (inject_Z 0) x))
      by (rewrite Qlt_bool_inject_Z; apply Is_true_false, Z.ltb_ge; lia).
    rewrite length_replicate. simpl.
    by rewrite bool_decide_eq_false_2 by lia.
Qed.

End RegularLine.

Section RegularLineWitness.
Import Frame Validator Report Lines.

Lemma detect_sp_sorting_accepts_regular_line_witness :
  detect_sp_sorting
    (mkDataFrame 4 [("shot_point", CInt <$> [1007; 1005; 1003; 1001])])
  = Some [].
Proof.
  apply (detect_sp_sorting_accepts_regular_line (-2) ltac:(lia)
           _ [1007; 1005; 1003; 1001]).
  - by repeat split.
  - reflexivity.
Defined.

End RegularLineWitness.
(** ** The per-flag counts of the production rows *)

Section ProductionCounts.
Import Frame Validator Report.

Lemma mask_of_ints (p : option Q → bool) (vals : list Z) :
  mask_of p (CInt <$> vals) = Some ((λ z, p (Some (inject_Z z))) <$> vals).
Proof.
  unfold mask_of. induction vals as [|z vals IH]; [done|].
  rewrite !fmap_cons. cbn [mapM]. simpl. by rewrite IH.
Qed.

Lemma select_ints (P : Z → Prop) (mask : list bool) : ∀ vals : list Z,
  Forall P vals →
  ∃ vals', select mask (CInt <$> vals) = CInt <$> vals' ∧ Forall P vals'.
Proof.
  induction mask as [|b mask IH]; intros [|z vals] Hall;
    try (by exists []).
  apply Forall_cons in Hall as [Hz Hall].
  destruct (IH vals Hall) as (vals' & Heq & Hall').
  rewrite fmap_cons. cbn [select]. rewrite Heq. destruct b.
  - exists (z :: vals'). split; [done|]. by constructor.
  - by exists vals'.
Qed.

Local Abbreviation trues := (λ l : list bool, length (filter (λ b, b = true) l)).

Lemma counts_add_up (vals : list Z) :
  Forall (λ z, 0 ≤ z ≤ 2) vals →
  trues ((λ z, is_positive (Some (inject_Z z))) <$> vals)
  = (trues ((λ z, equals 2 (Some (inject_Z z))) <$> vals)
     + trues ((λ z, equals 1 (Some (inject_Z z))) <$> vals))%nat.
Proof.
  induction 1 as [|z vals Hz _ IH]; [done|].
  rewrite !fmap_cons.
  assert (z = 0 ∨ z = 1 ∨ z = 2) as [-> | [-> | ->]] by lia.
  - rewrite !filter_cons_False by (intros Hx; by vm_compute in Hx).
    exact IH.
  - rewrite (filter_cons_True _ (is_positive _)) by (by vm_compute).
    rewrite (filter_cons_False _ (equals 2 _))
      by (intros Hx; by vm_compute in Hx).
    rewrite (filter_cons_True _ (equals 1 _)) by (by vm_compute).
    cbn [length]. rewrite IH. lia.
  - rewrite (filter_cons_True _ (is_positive _)) by (by vm_compute).
    rewrite (filter_cons_True _ (equals 2 _)) by (by vm_compute).
    rewrite (filter_cons_False _ (equals 1 _))
      by (intros Hx; by vm_compute in Hx).
    cbn [length]. rewrite IH. lia.
Qed.

Lemma trues_le (l : list bool) : (trues l ≤ length l)%nat.
Proof. apply length_filter. Qed.

Lemma flag_stats_ints (vals : list Z) (total_sp : Z) :
  Forall (λ z, 0 ≤ z ≤ 2) vals →
  ∃ st (e w : nat),
    flag_stats (CInt <$> vals) total_sp = Some st
    ∧ error_count st = inject_Z (Z.of_nat e)
    ∧ warning_count st = inject_Z (Z.of_nat w)
    ∧ total_count st = inject_Z (Z.of_nat (e + w))
    ∧ (e + w ≤ length vals)%nat
    ∧ total st = percent (total_count st) total_sp
    ∧ errors st = percent (error_count st) total_sp
    ∧ warnings st = percent (warning_count st) total_sp.
Proof.
  intros Hvals. unfold flag_stats. rewrite !mask_of_ints.
  cbn [mbind option_bind].
  eexists _, _, _. split; [done|]. cbn [error_count warning_count
    total_count total errors warnings]. unfold count_true.
  rewrite (counts_add_up vals Hvals). split_and!; try done.
  rewrite <- (counts_add_up vals Hvals).
  etrans; [apply trues_le|]. by rewrite length_fmap.
Qed.

Lemma per_flag_fold (G : string → option Series)
    (F : Series → option stats) (l : list string) :
  ∀ acc : gmap string stats,
  (∀ flag, flag ∈ l → ∃ s, G flag = Some s ∧ is_Some (F s)) →
  ∃ m,
    foldM (λ acc flag,
             match G flag with
             | None => Some acc
             | Some s => st ← F s; Some (<[flag := st]> acc)
             end) acc l = Some m
    ∧ (∀ flag, flag ∉ l → m !! flag = acc !! flag)
    ∧ (∀ flag s, flag ∈ l → G flag = Some s → m !! flag = F s).
Proof.
  induction l as [|x l IH]; intros acc Hall.
  { exists acc. split_and!; [done|done|]. by intros ?? ?%elem_of_nil. }
  destruct (Hall x) as (s & Hs & [st Hst]); [by left|].
  destruct (IH (<[x := st]> acc)) as (m & Hm & Hout & Hin).
  { intros flag Hflag. apply Hall. by right. }
  exists m. cbn [foldM]. rewrite Hs, Hst. cbn [mbind option_bind].
  split; [done|]. split.
  - intros flag Hflag. apply not_elem_of_cons in Hflag as [Hne Hflag].
    rewrite Hout by done. by rewrite lookup_insert_ne.
  - intros flag s' Hflag Hs'.
    destruct (decide (flag ∈ l)) as [Htl|Htl]; [by apply Hin|].
    apply elem_of_cons in Hflag as [->|?]; [|done].
    rewrite Hout by done. rewrite lookup_insert_eq. congruence.
Qed.

Lemma percent_bounds (c n : nat) q :
  (c ≤ n)%nat →
  percent (inject_Z (Z.of_nat c)) (Z.of_nat n) = Some q →
  (0 <= q <= 100)%Q.
Proof.
  intros Hle. unfold percent. case_decide as Hn; [done|].
  intros [= <-].
  assert (0 < inject_Z (Z.of_nat n))%Q as Hpos.
  { change 0%Q with (inject_Z 0). rewrite <- Zlt_Qlt. lia. }
  assert (0 <= inject_Z (Z.of_nat c) / inject_Z (Z.of_nat n))%Q as H0.
  { apply Qle_shift_div_l; [done|]. rewrite Qmult_0_l.
    change 0%Q with (inject_Z 0). rewrite <- Zle_Qle. lia. }
  assert (inject_Z (Z.of_nat c) / inject_Z (Z.of_nat n) <= 1)%Q as H1.
  { apply Qle_shift_div_r; [done|]. rewrite Qmult_1_l.
    rewrite <- Zle_Qle. lia. }
  split.
  - apply Qmult_le_0_compat; [done|]. discriminate.
  - apply Qle_trans with (1 * 100)%Q.
    + apply Qmult_le_compat_r; [done|]. discriminate.
    + discriminate.
Qed.


End ProductionCounts.

Section ProductionCountsWitness.
Import Frame Validator Report.


End ProductionCountsWitness.
(** ** Separation of the arrays, and missing readings *)

Section CosSeparation.
Import Py Frame Validator Outcome.

Variable th : QCThresholds.
Variable df : DataFrame.
Hypothesis Hwf : well_formed df.

Local Abbreviation second := "Gunarray302-Gunarray303 Position m".

Lemma flag_outside_value lo hi flag col s (f0 : list Z) :
  get df col = Some s → numeric s →
  get df flag = Some (CInt <$> f0) →
  ∃ df' f1,
    flag_outside lo hi flag df col = Some df'
    ∧ get df' flag = Some (CInt <$> f1)
    ∧ length f1 = length f0
    ∧ ∀ i z, f0 !! i = Some z →
             ∃ o, reading df col i = Some o
                  ∧ f1 !! i = Some (if outside lo hi o then 2 else z).
Proof.
  intros Hs Hnum Hf0.
  pose proof (get_well_formed _ _ _ Hwf Hf0) as Hlen.
  rewrite length_fmap in Hlen.
  unfold flag_outside. rewrite Hs. cbn [mbind option_bind].
  destruct (mask_of_is_Some (outside lo hi) s Hnum) as [mask Hmask].
  rewrite Hmask. cbn [mbind option_bind].
  destruct (loc_set_value df flag f0 mask 2 Hf0 Hlen)
    as (f1 & Hf1 & Hl1 & Hval).
  eexists _, f1. split; [done|]. split; [done|]. split; [done|].
  intros i z Hz.
  assert (i < nrows df)%nat as Hi
    by (rewrite <- Hlen; by eapply lookup_lt_Some).
  destruct (reading_is_Some df col s i Hwf Hs Hnum Hi) as [o Ho].
  exists o. split; [done|]. rewrite (Hval i z Hz).
  pose proof (mask_of_reading df col s _ mask i Hs Hmask) as Hmi.
  rewrite Ho in Hmi. by rewrite Hmi.
Qed.

(** X15: when the table has the column of the first pair of arrays,
    [validate_cos_separation] flags every row by that column alone,
    against the dual-source limits, whatever the column of the second
    pair holds; the triple-source limits apply only to the second pair,
    and only in a table without the first. *)
Theorem cos_separation_reads_one_column (s : Series) (f0 : list Z) :
  numeric s →
  get df "cos_sep_flag" = Some (CInt <$> f0) →
  (get df cos_dual = Some s →
   ∃ df' f1,
     validate_cos_separation th df = Some df'
     ∧ get df' "cos_sep_flag" = Some (CInt <$> f1)
     ∧ length f1 = length f0
     ∧ ∀ i z, f0 !! i = Some z →
              ∃ o, reading df cos_dual i = Some o
                   ∧ f1 !! i
                     = Some (if outside (dual_cos_min th) (dual_cos_max th) o
                             then 2 else z))
  ∧ (get df cos_dual = None → get df second = Some s →
     ∃ df' f1,
       validate_cos_separation th df = Some df'
       ∧ get df' "cos_sep_flag" = Some (CInt <$> f1)
       ∧ length f1 = length f0
       ∧ ∀ i z, f0 !! i = Some z →
                ∃ o, reading df second i = Some o
                     ∧ f1 !! i
                       = Some (if outside (triple_cos_min th)
                                    (triple_cos_max th) o
                               then 2 else z)).
Proof.
  intros Hnum Hf0. split.
  - intros Hs. unfold validate_cos_separation.
    assert (has_column df cos_dual = true) as ->
      by (apply has_column_get; by rewrite Hs).
    destruct (flag_outside_value (dual_cos_min th) (dual_cos_max th)
                "cos_sep_flag" cos_dual s f0 Hs Hnum Hf0)
      as (df' & f1 & Hrun & Hf1 & Hl & Hval).
    rewrite Hrun. by exists df', f1.
  - intros Hnone Hs. unfold validate_cos_separation.
    assert (has_column df cos_dual = false) as ->.
    { apply not_true_iff_false. intros [x Hx]%has_column_get. congruence. }
    assert (filter (λ c, c ∈ names df) cos_triple = [second]) as ->.
    { unfold cos_triple. rewrite filter_cons_False.
      - rewrite filter_cons_True; [done|]. by eapply get_in_names.
      - intros [x Hx]%in_names_get. unfold cos_dual in Hnone. congruence. }
    cbn [foldM].
    destruct (flag_outside_value (triple_cos_min th) (triple_cos_max th)
                "cos_sep_flag" second s f0 Hs Hnum Hf0)
      as (df' & f1 & Hrun & Hf1 & Hl & Hval).
    rewrite Hrun. cbn [mbind option_bind]. by exists df', f1.
Qed.

End CosSeparation.

Section CosSeparationWitness.
Import Py Frame Validator Outcome.

Lemma cos_separation_reads_one_column_witness :
  ∃ df' f1,
    validate_cos_separation default_thresholds
      (mkDataFrame 1
         [ ("Gunarray301-Gunarray302 Position m", [CNum 37]);
           ("Gunarray302-Gunarray303 Position m", [CNum 99]);
           ("cos_sep_flag", [CInt 0]) ]) = Some df'
    ∧ get df' "cos_sep_flag" = Some (CInt <$> f1)
    ∧ f1 !! 0%nat = Some 0.
Proof.
  destruct (cos_separation_reads_one_column default_thresholds
              (mkDataFrame 1
                 [ ("Gunarray301-Gunarray302 Position m", [CNum 37]);
                   ("Gunarray302-Gunarray303 Position m", [CNum 99]);
                   ("cos_sep_flag", [CInt 0]) ])
              ltac:(repeat constructor) [CNum 37] [0])
    as [Hdual _].
  - repeat constructor. by eexists.
  - reflexivity.
  - destruct Hdual as (df' & f1 & Hrun & Hf1 & _ & Hval); [reflexivity|].
    exists df', f1. split_and!; [done..|].
    destruct (Hval 0%nat 0) as (o & Ho & ->); [done|].
    vm_compute in Ho. by simplify_eq.
Defined.

End CosSeparationWitness.
Section NullReadings.
Import Py Frame Validator Outcome.

Variable th : QCThresholds.
Variable df : DataFrame.
Hypothesis Hwf : well_formed df.

Lemma mask_rule_value (p : option Q → bool) flag v col s (f0 : list Z) :
  get df col = Some s → numeric s →
  get df flag = Some (CInt <$> f0) →
  ∃ mask f1,
    mask_of p s = Some mask
    ∧ get (loc_set mask flag v df) flag = Some (CInt <$> f1)
    ∧ length f1 = length f0
    ∧ ∀ i z, f0 !! i = Some z →
             ∃ o, reading df col i = Some o
                  ∧ f1 !! i = Some (if p o then v else z).
Proof.
  intros Hs Hnum Hf0.
  pose proof (get_well_formed _ _ _ Hwf Hf0) as Hlen.
  rewrite length_fmap in Hlen.
  destruct (mask_of_is_Some p s Hnum) as [mask Hmask].
  destruct (loc_set_value df flag f0 mask v Hf0 Hlen)
    as (f1 & Hf1 & Hl1 & Hval).
  exists mask, f1. split_and!; [done..|].
  intros i z Hz.
  assert (i < nrows df)%nat as Hi
    by (rewrite <- Hlen; by eapply lookup_lt_Some).
  destruct (reading_is_Some df col s i Hwf Hs Hnum Hi) as [o Ho].
  exists o. split; [done|]. rewrite (Hval i z Hz).
  pose proof (mask_of_reading df col s _ mask i Hs Hmask) as Hmi.
  rewrite Ho in Hmi. by rewrite Hmi.
Qed.

(** X16: the STI and the radial rule read a missing value as 0.  A row
    is flagged 2 for STI exactly when its STI, or 0 for a null, is below
    the error limit, so a row without an STI is an error whenever that
    limit is positive; a row is flagged 1 for repeatability exactly when
    its radial offset is beyond the limit on either side, so a row
    without an offset keeps its flag under a limit that is not
    negative; the radial rule writes 1 over whatever the flag was. *)
Theorem sti_and_radial_read_null_as_zero (s : Series) (f0 : list Z) :
  numeric s →
  (get df sti_col = Some s →
   get df "sti_flag" = Some (CInt <$> f0) →
   ∃ df' f1,
     validate_sti th df = Some df'
     ∧ get df' "sti_flag" = Some (CInt <$> f1)
     ∧ (∀ i z, f0 !! i = Some z →
          ∃ o, reading df sti_col i = Some o
               ∧ f1 !! i = Some (if Qlt_bool (fillna0 o) (sti_error th)
                                 then 2 else z))
     ∧ (∀ i z, f0 !! i = Some z → s !! i = Some CNull →
               (0 < sti_error th)%Q → f1 !! i = Some 2))
  ∧ (get df radial_col = Some s →
     get df "repeatability_flag" = Some (CInt <$> f0) →
     ∃ df' f1,
       validate_radial th df = Some df'
       ∧ get df' "repeatability_flag" = Some (CInt <$> f1)
       ∧ (∀ i z, f0 !! i = Some z →
            ∃ o, reading df radial_col i = Some o
                 ∧ f1 !! i
                   = Some (if outside (- radial_limit th) (radial_limit th) o
                           then 1 else z))
       ∧ (∀ i z, f0 !! i = Some z → s !! i = Some CNull →
                 (0 <= radial_limit th)%Q → f1 !! i = Some z)).
Proof.
  intros Hnum. split.
  - intros Hs Hf0. unfold validate_sti. rewrite Hs.
    destruct (mask_rule_value
                (λ o, Qlt_bool (fillna0 o) (sti_error th))
                "sti_flag" 2 sti_col s f0 Hs Hnum Hf0)
      as (mask & f1 & -> & Hf1 & _ & Hval).
    cbn [mbind option_bind]. eexists _, f1.
    split_and!; [done..|].
    intros i z Hz Hnull Hpos.
    destruct (Hval i z Hz) as (o & Ho & ->).
    unfold reading in Ho. rewrite Hs in Ho. simpl in Ho.
    rewrite Hnull in Ho. simpl in Ho. injection Ho as <-.
    simpl fillna0. unfold Qlt_bool.
    assert (Qle_bool (sti_error th) 0 = false) as ->; [|done].
    apply not_true_iff_false. intros Hle%Qle_bool_iff.
    by apply Qle_not_lt in Hle.
  - intros Hs Hf0. unfold validate_radial. rewrite Hs.
    destruct (mask_rule_value
                (outside (- radial_limit th) (radial_limit th))
                "repeatability_flag" 1 radial_col s f0 Hs Hnum Hf0)
      as (mask & f1 & -> & Hf1 & _ & Hval).
    cbn [mbind option_bind]. eexists _, f1.
    split_and!; [done..|].
    intros i z Hz Hnull Hpos.
    destruct (Hval i z Hz) as (o & Ho & ->).
    unfold reading in Ho. rewrite Hs in Ho. simpl in Ho.
    rewrite Hnull in Ho. simpl in Ho. injection Ho as <-.
    unfold outside, Qlt_bool. simpl fillna0.
    assert (Qle_bool (- radial_limit th) 0 = true) as ->.
    { apply Qle_bool_iff. apply (Qopp_le_compat 0) in Hpos. exact Hpos. }
    assert (Qle_bool 0 (radial_limit th) = true) as ->
      by (by apply Qle_bool_iff).
    done.
Qed.

End NullReadings.

Section NullReadingsWitness.
Import Py Frame Validator Outcome.

Lemma sti_and_radial_read_null_as_zero_witness :
  ∃ df' f1,
    validate_sti default_thresholds
      (mkDataFrame 2 [ ("Shot Time (s)  sec", [CNum 8; CNull]);
                       ("sti_flag", [CInt 0; CInt 0]) ]) = Some df'
    ∧ get df' "sti_flag" = Some (CInt <$> f1)
    ∧ f1 !! 1%nat = Some 2.
Proof.
  destruct (sti_and_radial_read_null_as_zero default_thresholds
              (mkDataFrame 2 [ ("Shot Time (s)  sec", [CNum 8; CNull]);
                               ("sti_flag", [CInt 0; CInt 0]) ])
              ltac:(repeat constructor) [CNum 8; CNull] [0; 0])
    as [Hsti _].
  - repeat constructor; by eexists.
  - destruct Hsti as (df' & f1 & Hrun & Hf1 & _ & Hnull);
      [reflexivity..|].
    exists df', f1. split_and!; [done..|].
    by apply (Hnull 1%nat 0).
Defined.

End NullReadingsWitness.
(** ** The average gun depth *)

Section DepthOutcome.
Import Py Frame Validator Outcome.

Variable th : QCThresholds.
Variable df : DataFrame.
Hypothesis Hwf : well_formed df.
Hypothesis Hnum :
  ∀ col s, get df col = Some s → is_gun_depth_col col = true → numeric s.

Lemma mapM_lookup {A B} (f : A → option B) l k i :
  mapM f l = Some k → k !! i = l !! i ≫= f.
Proof.
  intros H%mapM_Some.
  destruct (l !! i) as [a|] eqn:Ha; simpl.
  - destruct (Forall2_lookup_l _ _ _ _ _ H Ha) as (b & Hb & Hab).
    by rewrite Hb, Hab.
  - apply lookup_ge_None in Ha. apply lookup_ge_None.
    by rewrite <- (Forall2_length _ _ _ H).
Qed.

(** The cells of row [i] in the depth columns are its readings. *)
Lemma row_cells_readings (cols : list string) (ss : list Series) i :
  (i < nrows df)%nat →
  (∀ col, col ∈ cols → col ∈ names df ∧ is_gun_depth_col col = true) →
  mapM (get df) cols = Some ss →
  mapM num_of (row_cells ss i) = Some (omap (λ col, reading df col i) cols).
Proof.
  intros Hi. revert ss. induction cols as [|col cols IH]; intros ss Hcols.
  { by intros [= <-]. }
  cbn [mapM]. destruct (get df col) as [s|] eqn:Hs; [|done].
  cbn [mbind option_bind].
  destruct (mapM (get df) cols) as [ss'|] eqn:Hss; [|done].
  intros [= <-].
  destruct (Hcols col) as [Hin Hd]; [by left|].
  destruct (reading_is_Some df col s i Hwf Hs (Hnum _ _ Hs Hd) Hi)
    as [o Ho].
  assert (num_of (default CNull (s !! i)) = Some o) as Hc.
  { unfold reading in Ho. rewrite Hs in Ho. simpl in Ho.
    by destruct (s !! i). }
  unfold row_cells. rewrite fmap_cons. cbn [mapM omap list_omap].
  rewrite Hc, Ho. cbn [mbind option_bind].
  fold (row_cells ss' i). rewrite (IH ss'); [done| |done].
  intros c' Hc'. apply Hcols. by right.
Qed.

Lemma row_mean_average (cells : list cell) (readings : list (option Q)) :
  mapM num_of cells = Some readings →
  ∃ c, row_mean cells = Some c ∧ num_of c = Some (average readings).
Proof.
  intros Hn. unfold row_mean, average. rewrite Hn. cbn [mbind option_bind].
  destruct (omap id readings); by eexists.
Qed.


End DepthOutcome.

Section DepthOutcomeWitness.
Import Py Frame Validator Outcome.


End DepthOutcomeWitness.
(** ** Rules that go through several columns *)

Section ColumnLoops.
Import Py Frame Validator Outcome.

Variable th : QCThresholds.
Variable df : DataFrame.
Hypothesis Hwf : well_formed df.

(** A loop that writes 2 into [flag] wherever the column at hand
    satisfies [p] leaves 2 on the rows where some column does. *)
Lemma column_loop_value (flag : string) (p : option Q → bool)
    (cols : list string) : ∀ d f,
  nrows d = nrows df →
  (∀ col, col ≠ flag → get d col = get df col) →
  get d flag = Some (CInt <$> f) →
  length f = nrows df →
  (∀ col, col ∈ cols →
          col ≠ flag ∧ ∃ s, get df col = Some s ∧ numeric s) →
  ∃ d' f',
    foldM (λ df col,
             s ← get df col;
             mask ← mask_of p s;
             Some (loc_set mask flag 2 df)) d cols = Some d'
    ∧ get d' flag = Some (CInt <$> f')
    ∧ length f' = length f
    ∧ ∀ i z, f !! i = Some z →
             f' !! i
             = Some (if existsb p (omap (λ col, reading df col i) cols)
                     then 2 else z).
Proof.
  induction cols as [|col cols IH]; intros d f Hn Hsame Hf Hlen Hcols.
  { exists d, f. by split_and!. }
  destruct (Hcols col) as (Hne & s & Hs & Hnum); [by left|].
  destruct (mask_of_is_Some p s Hnum) as [m Hm].
  destruct (loc_set_value d flag f m 2 Hf) as (f1 & Hf1 & Hl1 & Hv1);
    [lia|].
  destruct (IH (loc_set m flag 2 d) f1)
    as (d' & f' & Hrun & Hf' & Hl' & Hv'); [done| |done|lia| |].
  { intros c Hc. unfold loc_set. rewrite get_loc_assign_ne by done.
    by apply Hsame. }
  { intros c Hc. apply Hcols. by right. }
  exists d', f'. cbn [foldM].
  rewrite (Hsame col Hne), Hs. cbn [mbind option_bind].
  rewrite Hm. cbn [mbind option_bind].
  split; [done|]. split; [done|]. split; [lia|].
  intros i z Hz. rewrite (Hv' i _ (Hv1 i z Hz)). f_equal.
  assert (i < nrows df)%nat as Hi
    by (rewrite <- Hlen; by eapply lookup_lt_Some).
  destruct (reading_is_Some df col s i Hwf Hs Hnum Hi) as [o Ho].
  pose proof (mask_of_reading df col s _ m i Hs Hm) as Hmi.
  rewrite Ho in Hmi. simpl in Hmi.
  cbn [omap list_omap]. rewrite Ho. cbn [existsb]. rewrite Hmi. simpl.
  destruct (p o); simpl; [|done]. by destruct (existsb _ _).
Qed.

Lemma existsb_null_reading (p : option Q → bool) (os : list (option Q)) :
  None ∈ os → p None = true → existsb p os = true.
Proof.
  intros Hin Hp. apply existsb_exists. exists None. split; [|done].
  by apply list_elem_of_In.
Qed.

(** X18: [validate_sub_array_separation] returns and leaves 2 on a row
    exactly when one of the separation columns the table has reads, a
    null counting as 0, outside the separation limits; the other rows
    keep their flag, and so does every row of a table without such a
    column.  A null in one of these columns is an error whenever the
    lower limit is positive. *)
Theorem sub_array_separation_flag_value (f0 : list Z) :
  (∀ col s, col ∈ separation_columns → get df col = Some s → numeric s) →
  get df "sub_array_sep_flag" = Some (CInt <$> f0) →
  ∃ df' f1,
    validate_sub_array_separation th df = Some df'
    ∧ get df' "sub_array_sep_flag" = Some (CInt <$> f1)
    ∧ length f1 = length f0
    ∧ (∀ i z, f0 !! i = Some z →
         f1 !! i
         = Some (if existsb (outside (sub_array_sep_min th)
                               (sub_array_sep_max th))
                            (separation_readings df i)
                 then 2 else z))
    ∧ (∀ i z, f0 !! i = Some z →
         None ∈ separation_readings df i →
         (0 < sub_array_sep_min th)%Q →
         f1 !! i = Some 2).
Proof.
  intros Hnum Hf0.
  pose proof (get_well_formed _ _ _ Hwf Hf0) as Hlen.
  rewrite length_fmap in Hlen.
  destruct (column_loop_value "sub_array_sep_flag"
              (outside (sub_array_sep_min th) (sub_array_sep_max th))
              (filter (λ c, c ∈ names df) separation_columns) df f0)
    as (df' & f1 & Hrun & Hf1 & Hl1 & Hval); [done..| |].
  { intros col [Hin Hsep]%list_elem_of_filter. split.
    - intros ->. revert Hsep. unfold separation_columns.
      rewrite !elem_of_cons, elem_of_nil. by intros [?|[?|[?|[]]]].
    - destruct (in_names_get df col Hin) as [s Hs].
      exists s. split; [done|]. by eapply Hnum. }
  assert (validate_sub_array_separation th df = Some df') as Hv.
  { unfold validate_sub_array_separation.
    destruct (filter _ separation_columns) eqn:E; [|exact Hrun].
    simpl in Hrun. by injection Hrun as <-. }
  exists df', f1. split_and!; [done..|].
  intros i z Hz Hnull Hpos. rewrite (Hval i z Hz).
  fold (separation_readings df i).
  rewrite existsb_null_reading; [done..|].
  unfold outside, Qlt_bool. simpl fillna0.
  assert (Qle_bool (sub_array_sep_min th) 0 = false) as ->; [|done].
  apply not_true_iff_false. intros Hle%Qle_bool_iff.
  by apply Qle_not_lt in Hle.
Qed.

(** X19: [validate_sma] returns and leaves 2 on a row exactly when one
    of its SMA readings, a null counting as 0, is above the limit; the
    other rows keep their flag.  Under a limit that is not negative a
    row without any SMA reading keeps its flag. *)
Theorem sma_flag_value (f0 : list Z) :
  (∀ col s, get df col = Some s → is_sma_col col = true → numeric s) →
  get df "sma_flag" = Some (CInt <$> f0) →
  ∃ df' f1,
    validate_sma th df = Some df'
    ∧ get df' "sma_flag" = Some (CInt <$> f1)
    ∧ length f1 = length f0
    ∧ (∀ i z, f0 !! i = Some z →
         f1 !! i
         = Some (if existsb (λ o, Qlt_bool (sma_limit th) (fillna0 o))
                            (sma_readings df i)
                 then 2 else z))
    ∧ (∀ i z, f0 !! i = Some z →
         Forall (λ o, o = None) (sma_readings df i) →
         (0 <= sma_limit th)%Q →
         f1 !! i = Some z).
Proof.
  intros Hnum Hf0.
  pose proof (get_well_formed _ _ _ Hwf Hf0) as Hlen.
  rewrite length_fmap in Hlen.
  destruct (column_loop_value "sma_flag"
              (λ o, Qlt_bool (sma_limit th) (fillna0 o))
              (filter (λ c, is_sma_col c) (names df)) df f0)
    as (df' & f1 & Hrun & Hf1 & Hl1 & Hval); [done..| |].
  { intros col [Hsma%Is_true_true Hin]%list_elem_of_filter. split.
    - intros ->. by vm_compute in Hsma.
    - destruct (in_names_get df col Hin) as [s Hs].
      exists s. split; [done|]. by eapply Hnum. }
  assert (validate_sma th df = Some df') as Hv.
  { unfold validate_sma.
    destruct (filter _ (names df)) eqn:E; [|exact Hrun].
    simpl in Hrun. by injection Hrun as <-. }
  exists df', f1. split_and!; [done..|].
  intros i z Hz Hnull Hpos. rewrite (Hval i z Hz).
  fold (sma_readings df i).
  assert (existsb (λ o, Qlt_bool (sma_limit th) (fillna0 o))
            (sma_readings df i) = false) as ->; [|done].
  induction Hnull as [|o os -> _ IH]; [done|].
  cbn [existsb]. rewrite IH, orb_false_r.
  unfold Qlt_bool. simpl fillna0. apply negb_false_iff.
  by apply Qle_bool_iff.
Qed.

(** X22: in a table without a [point_code] column
    [validate_gun_pressure] checks every pressure column on every row:
    a row gets 2 exactly when one of them reads, a null counting as 0,
    outside the pressure limits, whichever array the column belongs to.
    A null pressure is an error whenever the lower limit is positive. *)
Theorem gun_pressure_fallback_flag_value (f0 : list Z) :
  get df "point_code" = None →
  (∀ col s, get df col = Some s → is_pressure_col col = true → numeric s) →
  get df "gun_pressure_flag" = Some (CInt <$> f0) →
  ∃ df' f1,
    validate_gun_pressure th df = Some df'
    ∧ get df' "gun_pressure_flag" = Some (CInt <$> f1)
    ∧ length f1 = length f0
    ∧ (∀ i z, f0 !! i = Some z →
         f1 !! i
         = Some (if existsb (outside (gun_pressure_min th)
                               (gun_pressure_max th))
                            (pressure_readings df i)
                 then 2 else z))
    ∧ (∀ i z, f0 !! i = Some z →
         None ∈ pressure_readings df i →
         (0 < gun_pressure_min th)%Q →
         f1 !! i = Some 2).
Proof.
  intros Hnone Hnum Hf0.
  pose proof (get_well_formed _ _ _ Hwf Hf0) as Hlen.
  rewrite length_fmap in Hlen.
  destruct (column_loop_value "gun_pressure_flag"
              (outside (gun_pressure_min th) (gun_pressure_max th))
              (filter (λ c, is_pressure_col c) (names df)) df f0)
    as (df' & f1 & Hrun & Hf1 & Hl1 & Hval); [done..| |].
  { intros col [Hp%Is_true_true Hin]%list_elem_of_filter. split.
    - intros ->. by vm_compute in Hp.
    - destruct (in_names_get df col Hin) as [s Hs].
      exists s. split; [done|]. by eapply Hnum. }
  assert (validate_gun_pressure th df = Some df') as Hv.
  { unfold validate_gun_pressure.
    assert (has_column df "point_code" = false) as ->; [|exact Hrun].
    apply not_true_iff_false. intros [s Hs]%has_column_get. congruence. }
  exists df', f1. split_and!; [done..|].
  intros i z Hz Hnull Hpos. rewrite (Hval i z Hz).
  fold (pressure_readings df i).
  rewrite existsb_null_reading; [done..|].
  unfold outside, Qlt_bool. simpl fillna0.
  assert (Qle_bool (gun_pressure_min th) 0 = false) as ->; [|done].
  apply not_true_iff_false. intros Hle%Qle_bool_iff.
  by apply Qle_not_lt in Hle.
Qed.

End ColumnLoops.

Section ColumnLoopsWitness.
Import Py Frame Validator Outcome.

Local Abbreviation sep1 :=
  "SOURCE SSTG1 towed by SST String 1 - 2 Crossline Separation All Shots ".
Local Abbreviation sep3 :=
  "SOURCE SSTG3 towed by SST String 1 - 2 Crossline Separation All Shots ".

Lemma sub_array_separation_flag_value_witness :
  ∃ df' f1,
    validate_sub_array_separation default_thresholds
      (mkDataFrame 2
         [ (sep1, [CNum 8; CNum 8]);
           (sep3, [CNum 8; CNull]);
           ("sub_array_sep_flag", [CInt 0; CInt 0]) ]) = Some df'
    ∧ get df' "sub_array_sep_flag" = Some (CInt <$> f1)
    ∧ f1 !! 1%nat = Some 2.
Proof.
  destruct (sub_array_separation_flag_value default_thresholds
              (mkDataFrame 2
                 [ (sep1, [CNum 8; CNum 8]);
                   (sep3, [CNum 8; CNull]);
                   ("sub_array_sep_flag", [CInt 0; CInt 0]) ])
              ltac:(repeat constructor) [0; 0])
    as (df' & f1 & Hrun & Hf1 & _ & _ & Hnull).
  - intros col s Hin Hget. unfold get in Hget. simpl in Hget.
    repeat case_decide; simplify_eq; repeat constructor; by eexists.
  - reflexivity.
  - exists df', f1. split_and!; [done..|].
    apply (Hnull 1%nat 0); [done| |reflexivity].
    vm_compute. apply elem_of_cons. right. apply elem_of_cons. by left.
Defined.

Lemma sma_flag_value_witness :
  ∃ df' f1,
    validate_sma default_thresholds
      (mkDataFrame 2
         [ ("Gunarray301 SMA m", [CNum 1; CNull]);
           ("Gunarray302 SMA m", [CNum 4; CNull]);
           ("sma_flag", [CInt 0; CInt 1]) ]) = Some df'
    ∧ get df' "sma_flag" = Some (CInt <$> f1)
    ∧ f1 !! 1%nat = Some 1.
Proof.
  destruct (sma_flag_value default_thresholds
              (mkDataFrame 2
                 [ ("Gunarray301 SMA m", [CNum 1; CNull]);
                   ("Gunarray302 SMA m", [CNum 4; CNull]);
                   ("sma_flag", [CInt 0; CInt 1]) ])
              ltac:(repeat constructor) [0; 1])
    as (df' & f1 & Hrun & Hf1 & _ & _ & Hnull).
  - intros col s Hget Hd. unfold get in Hget. simpl in Hget.
    repeat case_decide; simplify_eq; try (by vm_compute in Hd);
      repeat constructor; by eexists.
  - reflexivity.
  - exists df', f1. split_and!; [done..|].
    apply (Hnull 1%nat 1); [done| |by vm_compute].
    vm_compute. by repeat constructor.
Defined.

Lemma gun_pressure_fallback_flag_value_witness :
  ∃ df' f1,
    validate_gun_pressure default_thresholds
      (mkDataFrame 2
         [ ("SSTGM1P1_PRS (P) Shot Event  ", [CNum 2000; CNum 2000]);
           ("SSTGM1P5_PRS (P) Shot Event  ", [CNum 2000; CNull]);
           ("gun_pressure_flag", [CInt 0; CInt 0]) ]) = Some df'
    ∧ get df' "gun_pressure_flag" = Some (CInt <$> f1)
    ∧ f1 !! 1%nat = Some 2.
Proof.
  destruct (gun_pressure_fallback_flag_value default_thresholds
              (mkDataFrame 2
                 [ ("SSTGM1P1_PRS (P) Shot Event  ", [CNum 2000; CNum 2000]);
                   ("SSTGM1P5_PRS (P) Shot Event  ", [CNum 2000; CNull]);
                   ("gun_pressure_flag", [CInt 0; CInt 0]) ])
              ltac:(repeat constructor) [0; 0])
    as (df' & f1 & Hrun & Hf1 & _ & _ & Hnull).
  - reflexivity.
  - intros col s Hget Hd. unfold get in Hget. simpl in Hget.
    repeat case_decide; simplify_eq; try (by vm_compute in Hd);
      repeat constructor; by eexists.
  - reflexivity.
  - exists df', f1. split_and!; [done..|].
    apply (Hnull 1%nat 0); [done| |reflexivity].
    vm_compute. apply elem_of_cons. right. apply elem_of_cons. by left.
Defined.

End ColumnLoopsWitness.
(** ** The timing lists of the line log *)

Section FlagLoop.
Import Py Frame Validator FlagLog.

Variable df : DataFrame.
Hypothesis Hwf : well_formed df.
Hypothesis Hnum :
  ∀ col s, get df col = Some s → report_timing_col col = true → numeric s.
Hypothesis Hflags :
  ∀ flag s, flag ∈ report_flag_columns → get df flag = Some s → numeric s.
Hypothesis Hsp : is_Some (get df "shot_point").

Local Abbreviation timing_cols :=
  (filter (λ c, report_timing_col c) (names df)).

Lemma shot_point_at i : (i < nrows df)%nat → is_Some (flag_at df "shot_point" i).
Proof.
  intros Hi. destruct Hsp as [sps Hsps]. unfold flag_at. rewrite Hsps.
  simpl. apply lookup_lt_is_Some.
  by rewrite (get_well_formed _ _ _ Hwf Hsps).
Qed.

Lemma matching_guns_fold i lo hi cols : ∀ acc,
  (i < nrows df)%nat →
  (∀ col, col ∈ cols → col ∈ names df ∧ report_timing_col col = true) →
  ∃ res,
    foldM (λ matching_guns col,
             s ← get df col;
             c ← s !! i;
             v ← timing_value c;
             if in_band lo hi v
             then Some (matching_guns ++ option_list (gun_info col))
             else Some matching_guns)
          acc cols = Some (acc ++ res)
    ∧ ∀ g, g ∈ res ↔ ∃ col, col ∈ cols ∧ gun_in_band df i lo hi col g.
Proof.
  intros acc Hi Hcols. revert acc.
  induction cols as [|col cols IH]; intros acc.
  { exists []. split; [by rewrite app_nil_r|].
    intros g. split; [by intros ?%elem_of_nil|].
    by intros (col & ?%elem_of_nil & _). }
  destruct (Hcols col) as [Hin Hrep]; [by left|].
  destruct (in_names_get df col Hin) as [s Hs].
  assert (length s = nrows df) as Hlen by by eapply get_well_formed.
  destruct (lookup_lt_is_Some_2 s i) as [c Hc]; [lia|].
  pose proof (Hnum col s Hs Hrep) as Hnums.
  unfold numeric in Hnums. rewrite Forall_lookup in Hnums.
  destruct (Hnums i c Hc) as [o Ho].
  assert (timing_value c = Some (Qabs (fillna0 o))) as Hv
    by (unfold timing_value; by rewrite Ho).
  assert (∀ g, gun_in_band df i lo hi col g
               ↔ in_band lo hi (Qabs (fillna0 o)) = true
                 ∧ gun_info col = Some g) as Hhere.
  { intros g. split.
    - intros (_ & _ & Hg & s' & c' & v' & Hs' & Hc' & Hv' & Hb).
      by simplify_eq.
    - intros [Hb Hg]. split_and!; [done..|].
      by exists s, c, (Qabs (fillna0 o)). }
  cbn [foldM]. rewrite Hs. cbn [mbind option_bind]. rewrite Hc.
  cbn [mbind option_bind]. rewrite Hv. cbn [mbind option_bind].
  destruct (in_band lo hi (Qabs (fillna0 o))) eqn:Eb.
  - destruct (IH (λ col' Hin', Hcols col' (list_elem_of_further _ _ _ Hin'))
                 (acc ++ option_list (gun_info col)))
      as (res & Hres & Hmem).
    exists (option_list (gun_info col) ++ res).
    split; [by rewrite app_assoc|].
    intros g. rewrite elem_of_app, Hmem. split.
    + intros [Hg|(col' & Hin' & Hb)].
      * exists col. split; [by left|]. apply Hhere. split; [done|].
        destruct (gun_info col); simpl in Hg;
          [by apply list_elem_of_singleton in Hg as ->
          |by apply elem_of_nil in Hg].
      * exists col'. split; [by right|done].
    + intros (col' & [->|Hin']%elem_of_cons & Hb).
      * left. apply Hhere in Hb as [_ ->]. simpl. by left.
      * right. by exists col'.
  - destruct (IH (λ col' Hin', Hcols col' (list_elem_of_further _ _ _ Hin'))
                 acc) as (res & Hres & Hmem).
    exists res. split; [done|]. intros g. rewrite Hmem. split.
    + intros (col' & Hin' & Hb). exists col'. split; [by right|done].
    + intros (col' & [->|Hin']%elem_of_cons & Hb).
      * apply Hhere in Hb as [Hb _]. congruence.
      * by exists col'.
Qed.

Lemma matching_guns_total i lo hi :
  (i < nrows df)%nat →
  ∃ guns, matching_guns df timing_cols i lo hi = Some guns
          ∧ ∀ g, g ∈ guns ↔ ∃ col, gun_in_band df i lo hi col g.
Proof.
  intros Hi.
  destruct (matching_guns_fold i lo hi timing_cols [] Hi)
    as (res & Hres & Hmem).
  { intros col [Hrep Hin]%list_elem_of_filter. split; [done|].
    by apply Is_true_true. }
  exists res. split; [exact Hres|].
  intros g. rewrite Hmem. split.
  - intros (col & _ & Hb). by exists col.
  - intros (col & Hb). exists col. split; [|done].
    destruct Hb as (Hin & Hrep & _).
    apply list_elem_of_filter. split; [by apply Is_true_true|done].
Qed.

Lemma equals_exclusive (v w : Q) o :
  ¬ (v == w)%Q → Report.equals v o = true → Report.equals w o = false.
Proof.
  intros Hne. destruct o as [q|]; simpl; [|done].
  intros Hv%Qeq_bool_iff. apply not_true_iff_false.
  intros Hw%Qeq_bool_iff. apply Hne. by rewrite <- Hv, <- Hw.
Qed.

Lemma append_guns_value log i guns :
  (i < nrows df)%nat →
  ∃ log', append_guns log df i guns = Some (Some log')
          ∧ log' = default [] log
                   ++ match guns, flag_at df "shot_point" i with
                      | g :: guns, Some sp => [(sp, g :: guns)]
                      | _, _ => []
                      end.
Proof.
  intros Hi. destruct (shot_point_at i Hi) as [sp Hspi].
  unfold append_guns. rewrite Hspi.
  destruct guns as [|g guns]; simpl; eexists; split; try done.
  by rewrite app_nil_r.
Qed.

(** One row of the gun-timing branch adds its entry to the list of its
    level and leaves the rest of the log alone. *)
Lemma timing_row_value i c o log :
  (i < nrows df)%nat →
  flag_at df "gun_timing_flag" i = Some c → num_of c = Some o →
  ∃ log',
    timing_row df i o log = Some log'
    ∧ log_flag log' = log_flag log
    ∧ default [] (log_timing_warning log')
      = default [] (log_timing_warning log)
        ++ row_entries df 1 1 (Some (3 # 2)) i
    ∧ default [] (log_timing_error log')
      = default [] (log_timing_error log)
        ++ row_entries df 2 (3 # 2) None i.
Proof.
  intros Hi Hc Ho.
  assert (timing_level df i = o) as Hlevel
    by (unfold timing_level; rewrite Hc; simpl; by rewrite Ho).
  unfold timing_row, row_entries. rewrite Hlevel.
  destruct (Report.equals 1 o) eqn:E1.
  - rewrite (equals_exclusive 1 2 o) by done.
    destruct (matching_guns_total i 1 (Some (3 # 2)) Hi) as (guns & -> & _).
    cbn [mbind option_bind].
    destruct (append_guns_value (log_timing_warning log) i guns Hi)
      as (w & -> & ->).
    cbn [mbind option_bind]. eexists. split; [done|]. simpl.
    split; [done|]. split; [done|]. by rewrite app_nil_r.
  - destruct (Report.equals 2 o) eqn:E2.
    + destruct (matching_guns_total i (3 # 2) None Hi) as (guns & -> & _).
      cbn [mbind option_bind].
      destruct (append_guns_value (log_timing_error log) i guns Hi)
        as (e & -> & ->).
      cbn [mbind option_bind]. eexists. split; [done|]. simpl.
      split; [done|]. split; [by rewrite app_nil_r|done].
    + exists log. by rewrite !app_nil_r.
Qed.

Lemma flag_row_timing i c log :
  flag_row df "gun_timing_flag" i c log
  = num_of c ≫= λ level, timing_row df i level log.
Proof. reflexivity. Qed.

Lemma flag_row_plain flag i c log :
  flag ≠ "gun_timing_flag" →
  flag_row df flag i c log
  = log_flag log !! ("log_" +:+ flag) ≫= λ current,
    flag_at df "shot_point" i ≫= λ sp,
    Some (mkLogData (<["log_" +:+ flag := current ++ [sp]]> (log_flag log))
            (log_timing_warning log) (log_timing_error log)).
Proof. intros Hne. unfold flag_row. by rewrite bool_decide_eq_false_2. Qed.

Lemma timing_rows_value s rows : ∀ log,
  get df "gun_timing_flag" = Some s → numeric s →
  (∀ i, i ∈ rows → (i < nrows df)%nat) →
  ∃ log',
    foldM (λ log i, c ← s !! i; flag_row df "gun_timing_flag" i c log)
          log rows = Some log'
    ∧ log_flag log' = log_flag log
    ∧ default [] (log_timing_warning log')
      = default [] (log_timing_warning log)
        ++ mjoin (row_entries df 1 1 (Some (3 # 2)) <$> rows)
    ∧ default [] (log_timing_error log')
      = default [] (log_timing_error log)
        ++ mjoin (row_entries df 2 (3 # 2) None <$> rows).
Proof.
  intros log Hs Hnums. revert log.
  induction rows as [|i rows IH]; intros log Hrows.
  { exists log. by rewrite !app_nil_r. }
  assert (i < nrows df)%nat as Hi by (apply Hrows; by left).
  destruct (lookup_lt_is_Some_2 s i) as [c Hc];
    [by rewrite (get_well_formed _ _ _ Hwf Hs)|].
  pose proof Hnums as Hall. unfold numeric in Hall.
  rewrite Forall_lookup in Hall. destruct (Hall i c Hc) as [o Ho].
  destruct (timing_row_value i c o log Hi) as (log1 & Hrow & Hf1 & Hw1 & He1);
    [by unfold flag_at; rewrite Hs; simpl|done|].
  destruct (IH log1) as (log' & Hrun & Hf' & Hw' & He').
  { intros j Hj. apply Hrows. by right. }
  exists log'. cbn [foldM]. rewrite Hc. cbn [mbind option_bind].
  rewrite flag_row_timing, Ho. cbn [mbind option_bind]. rewrite Hrow.
  cbn [mbind option_bind]. split; [done|]. split; [congruence|].
  rewrite !fmap_cons. cbn [mjoin list_join].
  rewrite Hw', He', Hw1, He1, !app_assoc. done.
Qed.

(** The keys [log_<flag>] are all there. *)
Local Abbreviation keyed :=
  (λ log : log_data,
     (∀ flag, flag ∈ report_flag_columns →
              is_Some (log_flag log !! ("log_" +:+ flag)))
     ∧ log_flag log !! "log_gun_timing_flag" = Some []).

Lemma plain_rows_value flag s rows : ∀ log,
  flag ∈ report_flag_columns → flag ≠ "gun_timing_flag" →
  get df flag = Some s →
  (∀ i, i ∈ rows → (i < nrows df)%nat) →
  keyed log →
  ∃ log',
    foldM (λ log i, c ← s !! i; flag_row df flag i c log) log rows
    = Some log'
    ∧ keyed log'
    ∧ log_timing_warning log' = log_timing_warning log
    ∧ log_timing_error log' = log_timing_error log.
Proof.
  intros log Hflag Hne Hs. revert log.
  induction rows as [|i rows IH]; intros log Hrows Hkeys.
  { by exists log. }
  assert (i < nrows df)%nat as Hi by (apply Hrows; by left).
  destruct (lookup_lt_is_Some_2 s i) as [c Hc];
    [by rewrite (get_well_formed _ _ _ Hwf Hs)|].
  destruct (shot_point_at i Hi) as [sp Hspi].
  destruct Hkeys as [Hkeys Hown].
  destruct (Hkeys flag Hflag) as [current Hcur].
  destruct (IH (mkLogData
                  (<["log_" +:+ flag := current ++ [sp]]> (log_flag log))
                  (log_timing_warning log) (log_timing_error log)))
    as (log' & Hrun & Hk' & Hw' & He').
  { intros j Hj. apply Hrows. by right. }
  { simpl. split.
    - intros f Hf. destruct (decide (f = flag)) as [->|Hff].
      + rewrite lookup_insert_eq. by eexists.
      + rewrite lookup_insert_ne; [by apply Hkeys|].
        intros Heq. apply Hff. cbv in Heq. by simplify_eq.
    - rewrite lookup_insert_ne; [done|].
      intros Heq. apply Hne. cbv in Heq. by simplify_eq. }
  exists log'. cbn [foldM]. rewrite Hc. cbn [mbind option_bind].
  rewrite flag_row_plain by done.
  rewrite Hcur. cbn [mbind option_bind]. rewrite Hspi.
  cbn [mbind option_bind]. rewrite Hrun. done.
Qed.

Lemma flagged_rows_bound mask i :
  i ∈ flagged_rows df mask → (i < nrows df)%nat.
Proof.
  unfold flagged_rows. intros [_ Hi%elem_of_seq]%list_elem_of_filter. lia.
Qed.

Lemma flag_rows_value flag log :
  flag ∈ report_flag_columns → keyed log →
  ∃ log',
    flag_rows df log flag = Some log'
    ∧ keyed log'
    ∧ default [] (log_timing_warning log')
      = default [] (log_timing_warning log)
        ++ (if decide (flag = "gun_timing_flag")
            then timing_entries df 1 1 (Some (3 # 2)) else [])
    ∧ default [] (log_timing_error log')
      = default [] (log_timing_error log)
        ++ (if decide (flag = "gun_timing_flag")
            then timing_entries df 2 (3 # 2) None else []).
Proof.
  intros Hflag Hkeys. unfold flag_rows, timing_entries.
  destruct (decide (flag = "gun_timing_flag")) as [->|Hne].
  - destruct (get df "gun_timing_flag") as [s|] eqn:Hs;
      [|exists log; by rewrite !app_nil_r].
    pose proof (Hflags _ s Hflag Hs) as Hnums.
    destruct (mask_of_is_Some Report.is_positive s Hnums) as [mask Hmask].
    cbn [mbind option_bind]. rewrite Hmask. cbn [mbind option_bind].
    destruct (timing_rows_value s (flagged_rows df mask) log Hs Hnums)
      as (log' & Hrun & Hf' & Hw' & He');
      [apply flagged_rows_bound|].
    exists log'. split; [done|]. split; [by rewrite Hf'|done].
  - destruct (get df flag) as [s|] eqn:Hs;
      [|exists log; by rewrite !app_nil_r].
    pose proof (Hflags _ s Hflag Hs) as Hnums.
    destruct (mask_of_is_Some Report.is_positive s Hnums) as [mask Hmask].
    rewrite Hmask. cbn [mbind option_bind].
    destruct (plain_rows_value flag s (flagged_rows df mask) log)
      as (log' & Hrun & Hk' & Hw' & He');
      [done|done|done|apply flagged_rows_bound|done|].
    exists log'. rewrite Hw', He', !app_nil_r. done.
Qed.

Lemma flags_value (flags : list string) : ∀ log,
  (∀ flag, flag ∈ flags → flag ∈ report_flag_columns) → keyed log →
  ∃ log',
    foldM (flag_rows df) log flags = Some log'
    ∧ keyed log'
    ∧ default [] (log_timing_warning log')
      = default [] (log_timing_warning log)
        ++ mjoin ((λ flag, if decide (flag = "gun_timing_flag")
                           then timing_entries df 1 1 (Some (3 # 2))
                           else []) <$> flags)
    ∧ default [] (log_timing_error log')
      = default [] (log_timing_error log)
        ++ mjoin ((λ flag, if decide (flag = "gun_timing_flag")
                           then timing_entries df 2 (3 # 2) None
                           else []) <$> flags).
Proof.
  induction flags as [|flag flags IH]; intros log Hin Hkeys.
  { exists log. by rewrite !app_nil_r. }
  destruct (flag_rows_value flag log) as (log1 & Hrow & Hk1 & Hw1 & He1);
    [apply Hin; by left|done|].
  destruct (IH log1) as (log' & Hrun & Hk' & Hw' & He'); [|done|].
  { intros f Hf. apply Hin. by right. }
  exists log'. cbn [foldM]. rewrite Hrow. cbn [mbind option_bind].
  split; [done|]. split; [done|].
  rewrite !fmap_cons. cbn [mjoin list_join].
  rewrite Hw', He', Hw1, He1, !app_assoc. done.
Qed.

Lemma equals_positive (level : Q) o :
  (0 < level)%Q → Report.equals level o = true →
  Report.is_positive o = true.
Proof.
  intros Hpos. destruct o as [q|]; simpl; [|done].
  intros Hq%Qeq_bool_iff. unfold Report.is_positive, Qlt_bool. simpl.
  apply negb_true_iff, not_true_iff_false. intros Hle%Qle_bool_iff.
  rewrite Hq in Hle. by apply Qle_not_lt in Hle.
Qed.

(** The entries of one level are the rows of that level with a gun in
    the band, each with those guns. *)
Lemma timing_entries_lists_level level lo hi :
  (0 < level)%Q →
  lists_level df (timing_entries df level lo hi) level lo hi.
Proof.
  intros Hpos. unfold timing_entries. split; [|split].
  - intros i col g sp (c & o & Hc & Ho & Heq) Hband Hspi.
    unfold flag_at in Hc.
    destruct (get df "gun_timing_flag") as [s|] eqn:Hs; [|done].
    simpl in Hc. cbn [mbind option_bind].
    assert (numeric s) as Hnums.
    { eapply Hflags; [|done]. unfold report_flag_columns.
      rewrite !elem_of_cons. tauto. }
    destruct (mask_of_is_Some Report.is_positive s Hnums) as [mask Hmask].
    rewrite Hmask.
    assert (i < nrows df)%nat as Hi.
    { rewrite <- (get_well_formed _ _ _ Hwf Hs). by eapply lookup_lt_Some. }
    destruct (matching_guns_total i lo hi Hi) as (guns & Hguns & Hmem).
    assert (g ∈ guns) as Hg by (apply Hmem; by exists col).
    destruct guns as [|g0 guns]; [by apply elem_of_nil in Hg|].
    exists (sp, g0 :: guns). split; [|done].
    apply list_elem_of_join. exists [(sp, g0 :: guns)].
    split; [by left|]. apply list_elem_of_fmap. exists i. split.
    + unfold row_entries, timing_level, flag_at. rewrite Hs. simpl.
      rewrite Hc. simpl. rewrite Ho. simpl. rewrite Heq, Hguns.
      unfold flag_at in Hspi. by rewrite Hspi.
    + unfold flagged_rows. apply list_elem_of_filter. split.
      * rewrite (mask_of_lookup _ _ _ i Hmask), Hc. simpl. rewrite Ho.
        simpl. apply Is_true_true. by eapply equals_positive.
      * apply elem_of_seq. lia.
  - intros e g He Hg.
    destruct (get df "gun_timing_flag" ≫= mask_of Report.is_positive)
      as [mask|] eqn:Hmask; [|by apply elem_of_nil in He].
    apply list_elem_of_join in He as (l & He & Hl).
    apply list_elem_of_fmap in Hl as (i & -> & Hi).
    apply flagged_rows_bound in Hi.
    unfold row_entries in He.
    destruct (Report.equals level (timing_level df i)) eqn:Heq;
      [|by apply elem_of_nil in He].
    destruct (matching_guns_total i lo hi Hi) as (guns & Hguns & Hmem).
    rewrite Hguns in He.
    destruct guns as [|g0 guns]; [by apply elem_of_nil in He|].
    destruct (flag_at df "shot_point" i) as [sp|] eqn:Hspi;
      [|by apply elem_of_nil in He].
    apply list_elem_of_singleton in He as ->. simpl in Hg.
    apply Hmem in Hg as [col Hband].
    exists i, col. split; [|done].
    unfold timing_level in Heq.
    destruct (flag_at df "gun_timing_flag" i) as [c|] eqn:Hc; [|done].
    simpl in Heq. destruct (num_of c) as [o|] eqn:Ho; [|done].
    by exists c, o.
  - intros e He.
    destruct (get df "gun_timing_flag" ≫= mask_of Report.is_positive)
      as [mask|] eqn:Hmask; [|by apply elem_of_nil in He].
    apply list_elem_of_join in He as (l & He & Hl).
    apply list_elem_of_fmap in Hl as (i & -> & Hi).
    unfold row_entries in He.
    destruct (Report.equals level (timing_level df i));
      [|by apply elem_of_nil in He].
    destruct (matching_guns _ _ _ _ _) as [[|g0 guns]|];
      try (by apply elem_of_nil in He).
    destruct (flag_at df "shot_point" i);
      [|by apply elem_of_nil in He].
    by apply list_elem_of_singleton in He as ->.
Qed.

(** X20: the flag loop of [generate_line_log_report] returns, and its
    timing lists sort the rows by the gun-timing flag they carry, not by
    their readings.  [log_timing_warning] holds exactly the rows whose
    flag is 1 that have a gun with an absolute timing above 1.0 and up to
    1.5, with those guns; [log_timing_error] holds exactly the rows whose
    flag is 2 that have a gun with an absolute timing above 1.5, with
    those guns; a timing whose absolute value is 63, 61 or 90 never
    counts, and no entry is without a gun.  The list under
    [log_gun_timing_flag] stays empty. *)
Theorem timing_log_lists_rows_by_level :
  ∃ log,
    flag_loop df = Some log
    ∧ lists_level df (default [] (log_timing_warning log)) 1 1 (Some (3 # 2))
    ∧ lists_level df (default [] (log_timing_error log)) 2 (3 # 2) None
    ∧ log_flag log !! "log_gun_timing_flag" = Some [].
Proof.
  destruct (flags_value report_flag_columns initial_log)
    as (log & Hrun & [_ Hown] & Hw & He); [done| |].
  { split; [|done]. intros flag. unfold report_flag_columns.
    rewrite !elem_of_cons, elem_of_nil.
    intros [->|[->|[->|[->|[->|[->|[->|[->|[]]]]]]]]]; by eexists. }
  exists log. split; [exact Hrun|].
  assert (∀ level lo hi,
            mjoin ((λ flag, if decide (flag = "gun_timing_flag")
                            then timing_entries df level lo hi else [])
                     <$> report_flag_columns)
            = timing_entries df level lo hi) as Hjoin.
  { intros level lo hi. unfold report_flag_columns.
    rewrite !fmap_cons. cbn [mjoin list_join fmap list_fmap].
    repeat (rewrite decide_False by done).
    rewrite decide_True by done.
    repeat (rewrite decide_False by done).
    by rewrite !app_nil_r. }
  rewrite Hjoin in Hw, He. simpl in Hw, He. rewrite Hw, He.
  split; [by apply timing_entries_lists_level|].
  split; [by apply timing_entries_lists_level|done].
Qed.

End FlagLoop.

Section FlagLoopWitness.
Import Py Frame Validator FlagLog.

Lemma timing_log_lists_rows_by_level_witness :
  ∃ log e,
    flag_loop
      (mkDataFrame 2
         [ ("shot_point", [CInt 1001; CInt 1003]);
           ("String_1-Cluster_1-Gun_1", [CNum (-2); CNum (-90)]);
           ("gun_timing_flag", [CInt 2; CInt 2]) ]) = Some log
    ∧ e ∈ default [] (log_timing_error log)
    ∧ e.1 = CInt 1001 ∧ "String 1 Cluster 1 Gun 1" ∈ e.2.
Proof.
  destruct (timing_log_lists_rows_by_level
              (mkDataFrame 2
                 [ ("shot_point", [CInt 1001; CInt 1003]);
                   ("String_1-Cluster_1-Gun_1", [CNum (-2); CNum (-90)]);
                   ("gun_timing_flag", [CInt 2; CInt 2]) ])
              ltac:(repeat constructor))
    as (log & Hrun & _ & (Hall & _ & _) & _).
  - intros col s Hget _. unfold get in Hget. simpl in Hget.
    repeat case_decide; simplify_eq; repeat constructor; by eexists.
  - intros flag s _ Hget. unfold get in Hget. simpl in Hget.
    repeat case_decide; simplify_eq; repeat constructor; by eexists.
  - by eexists.
  - destruct (Hall 0%nat "String_1-Cluster_1-Gun_1"
                "String 1 Cluster 1 Gun 1" (CInt 1001))
      as (e & He & He1 & He2).
    + by exists (CInt 2), (Some 2%Q).
    + split_and!; [apply elem_of_cons; right; apply elem_of_cons; by left
                  |reflexivity|reflexivity|].
      by exists [CNum (-2); CNum (-90)], (CNum (-2)), 2%Q.
    + reflexivity.
    + by exists log, e.
Defined.

End FlagLoopWitness.
(** ** Window entries under the production filter *)

Section DecimalText.
Import Py.

Lemma string_app_nil_r s : s +:+ "" = s.
Proof. induction s as [|c s IH]; [done|]. by rewrite app_String, IH. Qed.

Lemma rev_app_rev_app s : ∀ t u,
  String.rev_app (String.rev_app s t) u = String.rev_app t (s +:+ u).
Proof.
  induction s as [|a s IH]; intros t u; [done|].
  simpl. by rewrite IH.
Qed.

Lemma rev_involutive s : String.rev (String.rev s) = s.
Proof.
  unfold String.rev. rewrite rev_app_rev_app. simpl.
  apply string_app_nil_r.
Qed.

Lemma rev_app_head s : ∀ t c,
  last_char s = Some c → ∃ r, String.rev_app s t = String c r.
Proof.
  induction s as [|a s IH]; intros t c; [done|].
  destruct s as [|b s].
  - intros [= <-]. by exists t.
  - intros Hl. apply (IH (String a t) c Hl).
Qed.

(** A text that neither starts nor ends with white space is its own
    [strip()]. *)
Lemma strip_id c r c' :
  is_space c = false → last_char (String c r) = Some c' →
  is_space c' = false → strip (String c r) = String c r.
Proof.
  intros Hc Hlast Hc'. unfold strip.
  assert (lstrip (String c r) = String c r) as -> by (simpl; by rewrite Hc).
  destruct (rev_app_head (String c r) "" c' Hlast) as [r' Hr'].
  fold (String.rev (String c r)) in Hr'. rewrite Hr'.
  assert (lstrip (String c' r') = String c' r') as ->
    by (simpl; by rewrite Hc').
  rewrite <- Hr'. apply rev_involutive.
Qed.

Lemma is_digit_not_space c : is_digit c = true → is_space c = false.
Proof.
  destruct c as [[] [] [] [] [] [] [] []]; by vm_compute.
Qed.

Lemma words_go_digits d : ∀ acc t,
  all_digits d = true →
  words_go (Some acc) (d +:+ t) = words_go (Some (String.rev_app d acc)) t.
Proof.
  induction d as [|c d IH]; intros acc t; [done|].
  simpl. intros [Hc Hd]%andb_true_iff.
  rewrite (is_digit_not_space c Hc). by rewrite IH.
Qed.

(** A run of digits followed by a blank is the first word. *)
Lemma words_digits_blank d t :
  decimal d → words (d +:+ String " " t) = d :: words t.
Proof.
  intros [Hne Hd]. destruct d as [|c d]; [done|].
  simpl in Hd. apply andb_true_iff in Hd as [Hc Hd].
  unfold words. rewrite app_String. simpl.
  rewrite (is_digit_not_space c Hc), words_go_digits by done.
  simpl. f_equal.
  exact (rev_involutive (String c d)).
Qed.

(** A run of digits is one word. *)
Lemma words_digits d : decimal d → words d = [d].
Proof.
  intros [Hne Hd]. destruct d as [|c d]; [done|].
  simpl in Hd. apply andb_true_iff in Hd as [Hc Hd].
  unfold words. simpl. rewrite (is_digit_not_space c Hc).
  rewrite <- (string_app_nil_r d) at 1.
  rewrite words_go_digits by done. simpl. f_equal.
  exact (rev_involutive (String c d)).
Qed.

Lemma digits_value_app d : ∀ acc t,
  all_digits d = true →
  digits_value acc (d +:+ t) = digits_value acc d ≫= λ v, digits_value v t.
Proof.
  induction d as [|c d IH]; intros acc t; [done|].
  simpl. intros [Hc Hd]%andb_true_iff.
  rewrite Hc. by apply IH.
Qed.

Lemma pretty_N_char_digit m : is_digit (pretty_N_char m) = true.
Proof. unfold pretty_N_char. by repeat case_match. Qed.

Lemma pretty_N_char_value m :
  (m < 10)%N → digit_value (pretty_N_char m) = Z.of_N m.
Proof.
  intros Hm.
  assert (m = 0 ∨ m = 1 ∨ m = 2 ∨ m = 3 ∨ m = 4 ∨ m = 5 ∨ m = 6 ∨ m = 7
          ∨ m = 8 ∨ m = 9)%N as Hcases by lia.
  destruct Hcases
    as [-> | [-> | [-> | [-> | [-> | [-> | [-> | [-> | [-> | ->]]]]]]]]];
    reflexivity.
Qed.

Lemma all_digits_app d1 d2 :
  all_digits (d1 +:+ d2) = all_digits d1 && all_digits d2.
Proof.
  induction d1 as [|c d1 IH]; [done|].
  rewrite app_String. simpl. by rewrite IH, andb_assoc.
Qed.

(** The digits [pretty_N_go] puts before [s] read back as the number. *)
Lemma pretty_N_go_value x : ∀ s,
  ∃ d, pretty_N_go x s = d +:+ s ∧ all_digits d = true
       ∧ digits_value 0 d = Some (Z.of_N x)
       ∧ ((0 < x)%N → d ≠ "").
Proof.
  induction (N.lt_wf_0 x) as [x _ IH]; intros s.
  assert (x = 0 ∨ 0 < x)%N as [->|Hpos] by lia.
  { exists "". rewrite pretty_N_go_0. split_and!; [done..|lia]. }
  rewrite pretty_N_go_step by done.
  destruct (IH (x `div` 10)%N (N.div_lt x 10 Hpos eq_refl)
              (String (pretty_N_char (x `mod` 10)) s))
    as (d & Hd & Hall & Hval & _).
  exists (d +:+ String (pretty_N_char (x `mod` 10)) "").
  split_and!.
  - rewrite Hd, string_app_assoc. done.
  - rewrite all_digits_app, Hall. simpl.
    by rewrite pretty_N_char_digit.
  - rewrite digits_value_app, Hval by done. simpl.
    rewrite pretty_N_char_digit, pretty_N_char_value
      by (apply N.mod_lt; lia).
    f_equal. rewrite N2Z.inj_mod, N2Z.inj_div.
    pose proof (Z.div_mod (Z.of_N x) 10). lia.
  - intros _. by destruct d.
Qed.

(** [str(n)] of a natural number is a run of digits, and [int] reads it
    back. *)
Lemma str_decimal n :
  0 ≤ n → decimal (str n) ∧ digits_value 0 (str n) = Some n.
Proof.
  intros Hn. destruct n as [|p|p]; [by split|idtac|lia].
  unfold str, pretty, pretty_Z, pretty, pretty_positive, pretty, pretty_N.
  rewrite decide_False by done.
  destruct (pretty_N_go_value (N.pos p) "") as (d & -> & Hall & Hval & Hne).
  rewrite string_app_nil_r. split; [split; [by apply Hne|done]|done].
Qed.

Lemma decimal_head d :
  decimal d → ∃ c r, d = String c r ∧ is_digit c = true.
Proof.
  intros [Hne Hd]. destruct d as [|c r]; [done|].
  simpl in Hd. apply andb_true_iff in Hd as [Hc _]. by exists c, r.
Qed.

Lemma int_of_string_decimal d v :
  decimal d → digits_value 0 d = Some v → int_of_string d = Some v.
Proof.
  intros Hd Hv.
  destruct (decimal_head d Hd) as (c & r & -> & Hc).
  destruct (last_char_digit _ Hd) as (c' & Hlast & Hc').
  unfold int_of_string.
  rewrite (strip_id c r c' (is_digit_not_space c Hc) Hlast
             (is_digit_not_space c' Hc')).
  assert (unsigned_value (String c r) = Some v) as Hu
    by (unfold unsigned_value; by rewrite Hc).
  destruct c as [[] [] [] [] [] [] [] []]; try done; by vm_compute in Hc.
Qed.

Lemma prefix_decimal_other d c t :
  decimal d → is_digit c = false → String.prefix d (String c t) = false.
Proof.
  intros Hd Hc. destruct (decimal_head d Hd) as (c0 & r & -> & Hc0).
  simpl. destruct (Ascii.ascii_dec c0 c) as [->|]; [congruence|done].
Qed.

End DecimalText.

Section WindowFilter.
Import Py LineLog WindowText.

Lemma before_unfold needle s :
  before needle s
  = if String.prefix needle s then ""
    else match s with
         | "" => ""
         | String c s' => String c (before needle s')
         end.
Proof. by destruct s. Qed.

Lemma strip_decimal_tail d t c' :
  decimal d → last_char (d +:+ t) = Some c' → is_space c' = false →
  strip (d +:+ t) = d +:+ t.
Proof.
  intros Hd Hlast Hc'.
  destruct (decimal_head d Hd) as (c & r & -> & Hc).
  rewrite app_String in *.
  by apply (strip_id c (r +:+ t) c' (is_digit_not_space c Hc)).
Qed.

(** What the filter makes of one window entry, whatever follows the
    window in the text, as long as it has no hyphen and does not hide
    the last shot point. *)
Lemma clip_text_window min_sp max_sp a b suffix :
  0 ≤ a → 0 ≤ b →
  free_of "-" suffix = true →
  strip (str b +:+ suffix) = str b +:+ suffix →
  head (words (str b +:+ suffix)) = Some (str b) →
  clip_text min_sp max_sp
    ("SP " +:+ str a +:+ "-" +:+ str b +:+ suffix)
  = clip_window min_sp max_sp (a, b).
Proof.
  intros Ha Hb Hfree Hstrip Hhead.
  destruct (str_decimal a Ha) as [Hda Hva].
  destruct (str_decimal b Hb) as [Hdb Hvb].
  assert (free_of "-" ("SP " +:+ str a) = true) as Hf0.
  { rewrite free_of_app, (all_digits_free_of "-" (str a));
      [done..|apply Hda]. }
  assert (free_of "-" (str b +:+ suffix) = true) as Hf1.
  { rewrite free_of_app, (all_digits_free_of "-" (str b)), Hfree;
      [done..|apply Hdb]. }
  destruct (last_char_digit _ Hda) as (ca & Hla & Hca).
  assert (strip ("SP " +:+ str a) = "SP " +:+ str a) as Hstrip0.
  { apply (strip_id "S" ("P " +:+ str a) ca); [done| |].
    - change (String "S" ("P " +:+ str a)) with ("SP " +:+ str a).
      rewrite last_char_app; [done|apply Hda].
    - by apply is_digit_not_space. }
  assert (words ("SP " +:+ str a) = ["SP"; str a]) as Hwords0.
  { change ("SP " +:+ str a)
      with (String "S" (String "P" (String " " (str a)))).
    unfold words. simpl. f_equal. by apply words_digits. }
  remember ("SP " +:+ str a +:+ "-" +:+ str b +:+ suffix) as item
    eqn:Hitem.
  assert (split "-" item = ["SP " +:+ str a; str b +:+ suffix]) as Hsplit.
  { subst item.
    replace ("SP " +:+ str a +:+ "-" +:+ str b +:+ suffix)
      with (("SP " +:+ str a) +:+ String "-" (str b +:+ suffix))
      by (by rewrite string_app_assoc).
    by rewrite split_app, split_free. }
  assert (contains "-" item = true) as Hhyphen.
  { subst item.
    replace ("SP " +:+ str a +:+ "-" +:+ str b +:+ suffix)
      with (("SP " +:+ str a) +:+ "-" +:+ (str b +:+ suffix))
      by (by rewrite string_app_assoc).
    apply contains_app. }
  assert (contains (str a) item = true) as Hfound
    by (subst item; apply contains_app).
  assert (before (str a) item = "SP ") as Hbefore.
  { subst item.
    change ("SP " +:+ str a +:+ "-" +:+ str b +:+ suffix)
      with (String "S" (String "P" (String " "
              (str a +:+ "-" +:+ str b +:+ suffix)))).
    rewrite before_unfold, prefix_decimal_other by done.
    rewrite before_unfold, prefix_decimal_other by done.
    rewrite before_unfold, prefix_decimal_other by done.
    by rewrite before_unfold, prefix_app. }
  unfold clip_text. rewrite Hhyphen, Hsplit.
  rewrite Hstrip0, Hwords0, Hstrip, Hhead. cbn [last mbind option_bind].
  rewrite (int_of_string_decimal (str a) a),
    (int_of_string_decimal (str b) b) by done.
  rewrite Hfound, Hbefore.
  unfold clip_window, window_text. simpl.
  by destruct (bool_decide (min_sp ≤ b) && bool_decide (a ≤ max_sp)).
Qed.

Lemma clip_text_window_text min_sp max_sp (w : Z * Z) :
  0 ≤ w.1 → 0 ≤ w.2 →
  clip_text min_sp max_sp (window_text w) = clip_window min_sp max_sp w.
Proof.
  destruct w as [a b]. simpl. intros Ha Hb.
  destruct (str_decimal b Hb) as [Hdb _].
  unfold window_text. simpl.
  rewrite <- (string_app_nil_r (str b)).
  apply clip_text_window; [done..| |]; rewrite string_app_nil_r.
  - destruct (last_char_digit _ Hdb) as (cb & Hlb & Hcb).
    rewrite <- (string_app_nil_r (str b)).
    apply (strip_decimal_tail _ _ cb); [done| |by apply is_digit_not_space].
    by rewrite string_app_nil_r.
  - by rewrite words_digits.
Qed.

Lemma clip_text_consec_text min_sp max_sp (run : Z * Z * Z) :
  0 ≤ run.1.1 → 0 ≤ run.1.2 → 0 ≤ run.2 →
  clip_text min_sp max_sp (consec_text run)
  = clip_window min_sp max_sp run.1.
Proof.
  destruct run as [[a b] k]. simpl. intros Ha Hb Hk.
  destruct (str_decimal b Hb) as [Hdb _].
  destruct (str_decimal k Hk) as [Hdk _].
  unfold consec_text. simpl.
  apply clip_text_window; [done..| | |].
  - change (free_of "-" ((" (" +:+ str k) +:+ " consecutive)") = true).
    rewrite free_of_app, free_of_app, (all_digits_free_of "-" (str k));
      [done..|apply Hdk].
  - apply (strip_decimal_tail _ _ ")"); [done| |done].
    rewrite last_char_app.
    + change (last_char ((" (" +:+ str k) +:+ " consecutive)") = Some ")"%char).
      by rewrite last_char_app.
    + done.
  - change (" (" +:+ str k +:+ " consecutive)")
      with (String " " ("(" +:+ str k +:+ " consecutive)")).
    by rewrite words_digits_blank.
Qed.

Lemma clip_items_texts {A} min_sp max_sp (text : A → string)
    (window : A → Z * Z) (l : list A) :
  Forall (λ x, clip_text min_sp max_sp (text x)
               = clip_window min_sp max_sp (window x)) l →
  omap (clip_item min_sp max_sp) (SStr ∘ text <$> l)
  = SStr <$> omap (clip_window min_sp max_sp ∘ window) l.
Proof.
  unfold compose. induction 1 as [|x l Hx _ IH]; [done|].
  rewrite fmap_cons. cbn [omap list_omap clip_item]. rewrite Hx, IH.
  by destruct (clip_window min_sp max_sp (window x)).
Qed.

Lemma filter_value_texts {A} min_sp max_sp key (text : A → string)
    (window : A → Z * Z) (l : list A) :
  key ∈ range_keys →
  Forall (λ x, clip_text min_sp max_sp (text x)
               = clip_window min_sp max_sp (window x)) l →
  filter_value min_sp max_sp key (VItems (SStr ∘ text <$> l))
  = Some (keep_if_nonempty VItems
            (SStr <$> omap (clip_window min_sp max_sp ∘ window) l)).
Proof.
  intros Hkey Hl. unfold filter_value.
  destruct l as [|x l]; [done|].
  rewrite fmap_cons. cbn [truthy negb]. rewrite bool_decide_eq_false_2 by done.
  cbn [negb]. rewrite bool_decide_eq_true_2 by done.
  by rewrite <- fmap_cons, (clip_items_texts _ _ text window).
Qed.

(** X21: the production filter keeps the window entries of the line log
    as bare, clipped ranges.  Under the key of the runs of seven, an
    entry [SP a-b (k consecutive)] that meets the range from [min_sp] to
    [max_sp] becomes [SP a'-b'] with the window cut to the range: the
    count is dropped, not recomputed; an entry outside the range goes,
    and a list left empty is not stored.  The entries [SP a-b] of the
    two sliding windows are cut in the same way. *)
Theorem production_filter_clips_window_entries (min_sp max_sp : Z)
    (runs : list (Z * Z * Z)) (windows : list (Z * Z)) (key : string) :
  Forall (λ r, 0 ≤ r.1.1 ∧ 0 ≤ r.1.2 ∧ 0 ≤ r.2) runs →
  Forall (λ w, 0 ≤ w.1 ∧ 0 ≤ w.2) windows →
  key ∈ [ "log_window_12_of_24_source_errors";
          "log_window_16_of_40_source_errors" ] →
  filter_value min_sp max_sp "log_consec_7_source_errors"
    (VItems (SStr ∘ consec_text <$> runs))
  = Some (keep_if_nonempty VItems
            (SStr <$> omap (λ r, clip_window min_sp max_sp r.1) runs))
  ∧ filter_value min_sp max_sp key (VItems (SStr ∘ window_text <$> windows))
    = Some (keep_if_nonempty VItems
              (SStr <$> omap (clip_window min_sp max_sp) windows)).
Proof.
  intros Hruns Hwindows Hkey. split.
  - apply (filter_value_texts _ _ _ consec_text fst).
    + unfold range_keys. apply elem_of_cons. by left.
    + eapply Forall_impl; [exact Hruns|]. intros r (Ha & Hb & Hk).
      by apply clip_text_consec_text.
  - apply (filter_value_texts _ _ _ window_text id).
    + unfold range_keys. revert Hkey. rewrite !elem_of_cons. tauto.
    + eapply Forall_impl; [exact Hwindows|]. intros w (Ha & Hb).
      by apply clip_text_window_text.
Qed.

Lemma production_filter_clips_window_entries_witness :
  filter_value 1001 1011 "log_consec_7_source_errors"
    (VItems [SStr "SP 1005-1017 (7 consecutive)"])
  = Some (Some (VItems [SStr "SP 1005-1011"])).
Proof.
  destruct (production_filter_clips_window_entries 1001 1011
              [(1005, 1017, 7)] []
              "log_window_12_of_24_source_errors") as [Hruns _].
  - repeat constructor; simpl; lia.
  - constructor.
  - apply elem_of_cons. by left.
  - exact Hruns.
Defined.

End WindowFilter.
